(** * HongLouMeng: interaction extraction, aggregation and network metrics

    A shallow embedding of the pipeline of
    [2_interaction_extraction.py], [3_network_analysis.py] and
    [4_advanced_network_analysis.py]:

    - the sentence segmenter, the keyword classifier and the interaction
      extractor ([identify_interactions_advanced]);
    - the aggregation loop of [main] over [interaction_dict];
    - the graph builder ([build_network], [load_data]) on a model of the
      part of [networkx.DiGraph] that the scripts call;
    - the metrics functions ([calculate_centrality_metrics],
      [get_all_centrality_metrics]) in an error monad, with the numerical
      routines of networkx taken as parameters.

    Python [str] values that hold text are lists of Unicode code points;
    attribute names such as [weight] are ordinary strings. *)

From Stdlib Require Import String Ascii NArith ZArith DecimalString DecimalNat.
From stdpp Require Import gmap strings list fin_maps sorting.

Open Scope string_scope.
Open Scope list_scope.

(** ** Python strings *)

Module Py.

(** A Python [str] is a sequence of code points. *)
Abbreviation char := N (only parsing).
Abbreviation str := (list N) (only parsing).

(** Literals are written in UTF-8 and decoded to code points: [pending]
    counts the continuation bytes still expected and [acc] holds the bits
    read so far. *)
Fixpoint decode_utf8 (pending : nat) (acc : N) (s : string) : str :=
  match s with
  | EmptyString => []
  | String c s' =>
      let b := N_of_ascii c in
      match pending with
      | O =>
          if (b <? 128)%N then b :: decode_utf8 0 0%N s'
          else if (b <? 224)%N then decode_utf8 1 (b - 192)%N s'
          else if (b <? 240)%N then decode_utf8 2 (b - 224)%N s'
          else decode_utf8 3 (b - 240)%N s'
      | S k =>
          let acc' := (acc * 64 + (b - 128))%N in
          match k with
          | O => acc' :: decode_utf8 0 0%N s'
          | S _ => decode_utf8 k acc' s'
          end
      end
  end.

Definition u (s : string) : str := decode_utf8 0 0%N s.

(** [hay.startswith(needle)] *)
Fixpoint startswith (hay needle : str) : bool :=
  match needle, hay with
  | [], _ => true
  | _ :: _, [] => false
  | a :: needle', b :: hay' => bool_decide (a = b) && startswith hay' needle'
  end.

(** [needle in hay] for two strings. *)
Fixpoint contains (needle hay : str) : bool :=
  startswith hay needle ||
  match hay with
  | [] => false
  | _ :: hay' => contains needle hay'
  end.

(** [any(w in sentence for w in words)] *)
Definition any_in (words : list str) (sentence : str) : bool :=
  existsb (fun w => contains w sentence) words.

(** The relation that [any_in] decides: some word of [words] is a
    substring of [sentence]. *)
Definition mentions_keyword (words : list str) (sentence : str) : Prop :=
  exists w pre post, w ∈ words /\ sentence = pre ++ w ++ post.

(** [sep.join(parts)] *)
Fixpoint join (sep : str) (parts : list str) : str :=
  match parts with
  | [] => []
  | [p] => p
  | p :: rest => p ++ sep ++ join sep rest
  end.

(** [l[a:b]] for non-negative [a] and [b]. *)
Definition slice {A} (l : list A) (a b : nat) : list A :=
  take (b - a) (drop a l).

(** [re.split] with a pattern that is a character class: every character
    of the class ends the current piece, and the piece after the last
    delimiter is always emitted, empty or not. *)
Fixpoint re_split_class (delims : list char) (cur : str) (text : str) : list str :=
  match text with
  | [] => [cur]
  | c :: text' =>
      if bool_decide (c ∈ delims) then cur :: re_split_class delims [] text'
      else re_split_class delims (cur ++ [c]) text'
  end.

End Py.

(** ** [2_interaction_extraction.py] *)

Module Extraction.
Import Py.

Definition TARGET_CHARACTER : str := u "薛寶釵".

(** The three values of the [type] field. *)
Inductive InteractionType := Dialogue | Action | CoOccurrence.

Definition type_name (t : InteractionType) : str :=
  match t with
  | Dialogue => u "对话"
  | Action => u "行为"
  | CoOccurrence => u "共同出现"
  end.

#[global] Instance InteractionType_eq_dec : EqDecision InteractionType.
Proof. solve_decision. Defined.

#[global] Instance InteractionType_countable : Countable InteractionType.
Proof.
  refine (inj_countable'
    (fun t => match t with Dialogue => 0 | Action => 1 | CoOccurrence => 2 end)
    (fun n => match n with 0 => Dialogue | 1 => Action | _ => CoOccurrence end) _).
  by intros [].
Defined.

Definition speech_words : list str :=
  map u ["道"; "說"; "問"; "答"; "回"; "笑"; "叫"; "勸"; "罵"].

Definition action_words : list str :=
  map u ["見"; "遇"; "訪"; "來"; "去"; "送"; "給"; "拉"; "推"].

(** Lines 62-66: the default, overwritten by the [if] / [elif]. *)
Definition interaction_type (sentence : str) : InteractionType :=
  if any_in speech_words sentence then Dialogue
  else if any_in action_words sentence then Action
  else CoOccurrence.

Record Interaction := {
  source : str;
  target : str;
  chapter : Z;
  type : InteractionType;
  context : str;
  sentence : str
}.

(** Line 46: [re.split(r'[。！？\n]', text)]. *)
Definition sentence_delimiters : list char := u "。！？" ++ [10%N].

Definition split_sentences (text : str) : list str :=
  re_split_class sentence_delimiters [] text.

(** Lines 69-70: the sentences around [sentence_idx], joined by [。]. *)
Definition context_sentences (sentences : list str) (sentence_idx : nat) : list str :=
  slice sentences (Nat.max 0 (sentence_idx - 1))
        (Nat.min (length sentences) (sentence_idx + 2)).

Definition context_of (sentences : list str) (sentence_idx : nat) : str :=
  join (u "。") (context_sentences sentences sentence_idx).

(** A character dictionary in the order of [dict.items()]. *)
Abbreviation CharacterDict := (list (list N * list (list N))) (only parsing).

(** Lines 61-79: the record appended for [char_name]. *)
Definition interaction_record (sentences : list str) (chapter_num : Z)
    (sentence_idx : nat) (sentence : str) (char_name : str) : Interaction :=
  {| source := TARGET_CHARACTER;
     target := char_name;
     chapter := chapter_num;
     type := interaction_type sentence;
     context := context_of sentences sentence_idx;
     sentence := sentence |}.

(** Lines 55-79: the body of the inner loop, for one item of the dict. *)
Definition character_interactions (sentences : list str) (chapter_num : Z)
    (sentence_idx : nat) (sentence : str) (entry : str * list str) : list Interaction :=
  let '(char_name, char_variants) := entry in
  if bool_decide (char_name = TARGET_CHARACTER) then []
  else if any_in char_variants sentence then
    [ interaction_record sentences chapter_num sentence_idx sentence char_name ]
  else [].

(** Lines 48-79: the body of the loop over [enumerate(sentences)]. *)
Definition sentence_interactions (sentences : list str) (target_variants : list str)
    (other_characters_dict : CharacterDict) (chapter_num : Z)
    (sentence_idx : nat) (sentence : str) : list Interaction :=
  if negb (any_in target_variants sentence) then []
  else flat_map (character_interactions sentences chapter_num sentence_idx sentence)
                other_characters_dict.

Definition identify_interactions_advanced (text : str) (target_variants : list str)
    (other_characters_dict : CharacterDict) (chapter_num : Z) : list Interaction :=
  let sentences := split_sentences text in
  concat (imap (sentence_interactions sentences target_variants
                  other_characters_dict chapter_num) sentences).

(** *** The aggregation loop of [main] (lines 121-134) *)

Record AggData := {
  count : nat;
  types : gmap InteractionType nat;
  chapters : gset Z;
  contexts : list str
}.

(** The factory of the [defaultdict]. *)
Definition new_entry : AggData :=
  {| count := 0; types := ∅; chapters := ∅; contexts := [] |}.

Definition key_of (interaction : Interaction) : str * str :=
  (source interaction, target interaction).

(** Lines 130-134: the four updates of the entry of the key. *)
Definition update_entry (entry : AggData) (interaction : Interaction) : AggData :=
  {| count := count entry + 1;
     types := <[ type interaction :=
                 default 0 (types entry !! type interaction) + 1 ]> (types entry);
     chapters := chapters entry ∪ {[ chapter interaction ]};
     contexts := if bool_decide (length (contexts entry) < 3)
                 then contexts entry ++ [context interaction]
                 else contexts entry |}.

(** One iteration of the loop over [all_interactions]; a key that is not
    in the dict yet starts from the default entry. *)
Definition record_interaction (interaction_dict : gmap (str * str) AggData)
    (interaction : Interaction) : gmap (str * str) AggData :=
  let key := key_of interaction in
  let entry := default new_entry (interaction_dict !! key) in
  <[ key := update_entry entry interaction ]> interaction_dict.

Definition interaction_dict (all_interactions : list Interaction)
  : gmap (str * str) AggData :=
  foldl record_interaction ∅ all_interactions.

(** The raw events of a key, in stream order. *)
Definition events_of (key : str * str) (all_interactions : list Interaction)
  : list Interaction :=
  filter (fun interaction => key_of interaction = key) all_interactions.

(** The sum of the values of a histogram. *)
Definition histogram_total (h : gmap InteractionType nat) : nat :=
  map_fold (fun _ n acc => n + acc) 0 h.

(** What an entry holds after the events [evs] of its key. *)
Record summarises (evs : list Interaction) (entry : AggData) : Prop := {
  sum_count : count entry = length evs;
  sum_contexts : contexts entry = take 3 (context <$> evs);
  sum_types : forall t,
    default 0 (types entry !! t) = length (filter (fun e => type e = t) evs);
  sum_total : histogram_total (types entry) = length evs;
  sum_chapters : chapters entry = list_to_set (chapter <$> evs)
}.

End Extraction.

(** ** Exceptions *)

Inductive exn :=
  | KeyError
  | NetworkXError
  | LibraryFailure (code : nat).

Inductive result (A : Type) :=
  | Ok (a : A)
  | Raise (e : exn).
Arguments Ok {A} a.
Arguments Raise {A} e.

Definition bind {A B} (r : result A) (k : A -> result B) : result B :=
  match r with
  | Ok a => k a
  | Raise e => Raise e
  end.

Notation "x <~ r ; k" := (bind r (fun x => k))
  (at level 100, r at next level, right associativity).

(** [d[k]] on a dict. *)
Definition getitem `{Countable K} {V} (d : gmap K V) (k : K) : result V :=
  match d !! k with
  | Some v => Ok v
  | None => Raise KeyError
  end.

(** [try: r  except: d] *)
Definition try_except {A} (r : result A) (d : A) : A :=
  match r with
  | Ok a => a
  | Raise _ => d
  end.

Fixpoint traverse {A B} (f : A -> result B) (l : list A) : result (list B) :=
  match l with
  | [] => Ok []
  | a :: l' => b <~ f a; bs <~ traverse f l'; Ok (b :: bs)
  end.

Definition sum (l : list Z) : Z := foldr Z.add 0%Z l.

(** ** The part of [networkx.DiGraph] that the scripts use

    A directed graph is its successor adjacency: node, then neighbour,
    then the attribute dict of the edge. Every node has an entry, with an
    empty dict when it has no outgoing edge, so the keys of the adjacency
    are the nodes. *)

Module nx.
Import Py.

Record DiGraph := { adj : gmap str (gmap str (gmap string Z)) }.

Definition empty : DiGraph := {| adj := ∅ |}.

(** [n in G] *)
Definition has_node (G : DiGraph) (n : str) : bool :=
  bool_decide (is_Some (adj G !! n)).

Definition has_edge (G : DiGraph) (u v : str) : bool :=
  match adj G !! u with
  | Some nbrs => bool_decide (is_Some (nbrs !! v))
  | None => false
  end.

Definition add_node (G : DiGraph) (n : str) : DiGraph :=
  match adj G !! n with
  | Some _ => G
  | None => {| adj := <[ n := ∅ ]> (adj G) |}
  end.

(** [G.add_edge(u, v, weight=w)]: both ends become nodes, the attribute
    dict of the edge is created or updated. *)
Definition add_edge (G : DiGraph) (u v : str) (w : Z) : DiGraph :=
  let G2 := add_node (add_node G u) v in
  let nbrs := default ∅ (adj G2 !! u) in
  let datadict := default ∅ (nbrs !! v) in
  {| adj := <[ u := <[ v := <[ "weight" := w ]> datadict ]> nbrs ]> (adj G2) |}.

(** [G.neighbors(n)]: the successors of [n]. *)
Definition neighbors (G : DiGraph) (n : str) : result (list str) :=
  match adj G !! n with
  | Some nbrs => Ok (map_to_list nbrs).*1
  | None => Raise NetworkXError
  end.

Definition nodes (G : DiGraph) : list str := (map_to_list (adj G)).*1.

(** The successors of [n] with the attributes of the edges; empty for a
    node without outgoing edges and for a name that is not a node. *)
Definition adjacency (G : DiGraph) (n : str) : gmap str (gmap string Z) :=
  default ∅ (adj G !! n).

Definition out_degree (G : DiGraph) (n : str) : nat :=
  size (adjacency G n).

Definition in_degree (G : DiGraph) (n : str) : nat :=
  size (filter (fun entry => is_Some (entry.2 !! n)) (adj G)).

Definition degree (G : DiGraph) (n : str) : nat :=
  in_degree G n + out_degree G n.

Definition number_of_nodes (G : DiGraph) : nat := size (adj G).

Definition number_of_edges (G : DiGraph) : nat :=
  map_fold (fun _ nbrs acc => size nbrs + acc) 0 (adj G).

(** [G[u][v]['weight']] *)
Definition edge_weight (G : DiGraph) (u v : str) : result Z :=
  nbrs <~ getitem (adj G) u;
  datadict <~ getitem nbrs v;
  getitem datadict "weight".

(** The numerical routines of networkx, with the keyword arguments the
    scripts pass. [float] is the type of their values; a routine that can
    fail returns a [result]. *)
Class Algorithms := {
  float : Type;
  (* nx.degree_centrality(G) *)
  degree_centrality : DiGraph -> gmap str float;
  (* nx.betweenness_centrality(G, weight='weight') *)
  betweenness_centrality : DiGraph -> result (gmap str float);
  (* nx.closeness_centrality(G, distance='weight') *)
  closeness_centrality : DiGraph -> result (gmap str float);
  (* nx.eigenvector_centrality(G, max_iter=1000, weight='weight') *)
  eigenvector_centrality : DiGraph -> result (gmap str float);
  (* nx.pagerank(G, weight='weight') *)
  pagerank : DiGraph -> result (gmap str float);
  (* nx.clustering(nx.Graph(G)) *)
  clustering_undirected : DiGraph -> result (gmap str float)
}.

End nx.

(** ** [3_network_analysis.py] *)

Module Network.
Import Py.

Definition TARGET_CHARACTER : str := u "薛寶釵".

(** The columns of a row of [interactions_v2.csv] that the builder reads. *)
Record Row := { Source : str; Target : str; Frequency : Z }.

(** [G[source][target]['weight'] += weight] *)
Definition add_weight (G : nx.DiGraph) (source target : str) (weight : Z)
  : result nx.DiGraph :=
  nbrs <~ getitem (nx.adj G) source;
  datadict <~ getitem nbrs target;
  old <~ getitem datadict "weight";
  Ok {| nx.adj := <[ source :=
                     <[ target := <[ "weight" := (old + weight)%Z ]> datadict ]> nbrs ]>
                   (nx.adj G) |}.

(** Lines 37-44: the body of the loop over the rows. *)
Definition add_row (G : nx.DiGraph) (row : Row) : result nx.DiGraph :=
  let source := Source row in
  let target := Target row in
  let weight := Frequency row in
  if nx.has_edge G source target then add_weight G source target weight
  else Ok (nx.add_edge G source target weight).

Fixpoint add_rows (G : nx.DiGraph) (rows : list Row) : result nx.DiGraph :=
  match rows with
  | [] => Ok G
  | row :: rows' => G' <~ add_row G row; add_rows G' rows'
  end.

Definition build_network (df_interactions : list Row) : result nx.DiGraph :=
  add_rows nx.empty df_interactions.

(** The weight of the edge from [u] to [v], when there is one and it has
    a weight. *)
Definition weight_of (G : nx.DiGraph) (u v : str) : option Z :=
  nx.adjacency G u !! v ≫= (fun datadict => datadict !! "weight").

(** Every edge carries a [weight] attribute. *)
Definition weighted (G : nx.DiGraph) : Prop :=
  forall u v datadict,
    nx.adjacency G u !! v = Some datadict -> is_Some (datadict !! "weight").

(** The sum of the weights of the edges that leave [n]. *)
Definition out_weight (G : nx.DiGraph) (n : str) : Z :=
  map_fold (fun _ datadict acc => (default 0 (datadict !! "weight") + acc)%Z) 0%Z
           (nx.adjacency G n).

(** The rows of a key, and the sum of their frequencies. *)
Definition row_key (row : Row) : str * str := (Source row, Target row).

Definition rows_of (key : str * str) (rows : list Row) : list Row :=
  filter (fun row => row_key row = key) rows.

Definition rows_from (source : str) (rows : list Row) : list Row :=
  filter (fun row => Source row = source) rows.

Definition total_frequency (rows : list Row) : Z := sum (Frequency <$> rows).

(** The distinct keys of the rows. *)
Definition distinct_keys (rows : list Row) : gset (str * str) :=
  list_to_set (row_key <$> rows).

(** What the graph holds after the rows [rows]. *)
Record built (rows : list Row) (G : nx.DiGraph) : Prop := {
  built_weighted : weighted G;
  built_weight : forall u v,
    weight_of G u v =
    if decide (rows_of (u, v) rows = []) then None
    else Some (total_frequency (rows_of (u, v) rows));
  built_out : forall u, out_weight G u = total_frequency (rows_from u rows);
  built_edges : nx.number_of_edges G = size (distinct_keys rows)
}.

(** *** Metrics *)

Section Metrics.
Context `{alg : nx.Algorithms}.

(** A metric value: a Python int or a float of networkx. *)
Inductive number :=
  | Int (z : Z)
  | Float (x : nx.float).

(** [d.get(node, 0)] *)
Definition get_or_zero (d : gmap str nx.float) (node : str) : number :=
  match d !! node with
  | Some x => Float x
  | None => Int 0
  end.

(** [try: d = routine(G); v = d.get(node, 0)  except: v = 0] *)
Definition guarded (r : result (gmap str nx.float)) (node : str) : number :=
  try_except (d <~ r; Ok (get_or_zero d node)) (Int 0).

(** Lines 69-70: [sum([G[n][neighbor]['weight'] for neighbor in G.neighbors(n)])] *)
Definition weighted_degree_sum (G : nx.DiGraph) (n : str) : result Z :=
  nbrs <~ nx.neighbors G n;
  ws <~ traverse (fun neighbor => nx.edge_weight G n neighbor) nbrs;
  Ok (sum ws).

(** Lines 48-108; the result dict is keyed by the metric names. *)
Definition calculate_centrality_metrics (G : nx.DiGraph) (target_char : str)
  : result (gmap string number) :=
  let metrics : gmap string number := ∅ in
  let degree_centrality := nx.degree_centrality G in
  let metrics := <[ "degree_centrality" := get_or_zero degree_centrality target_char ]> metrics in
  let '(in_degree, out_degree, total_degree) :=
    if nx.has_node G target_char
    then (nx.in_degree G target_char, nx.out_degree G target_char,
          nx.in_degree G target_char + nx.out_degree G target_char)
    else (0, 0, 0) in
  let metrics := <[ "in_degree" := Int (Z.of_nat in_degree) ]> metrics in
  let metrics := <[ "out_degree" := Int (Z.of_nat out_degree) ]> metrics in
  let metrics := <[ "total_degree" := Int (Z.of_nat total_degree) ]> metrics in
  weighted_degree <~ weighted_degree_sum G target_char;
  let metrics := <[ "weighted_degree" := Int weighted_degree ]> metrics in
  let metrics := <[ "betweenness_centrality" :=
                    guarded (nx.betweenness_centrality G) target_char ]> metrics in
  let metrics := <[ "closeness_centrality" :=
                    guarded (nx.closeness_centrality G) target_char ]> metrics in
  let metrics := <[ "eigenvector_centrality" :=
                    guarded (nx.eigenvector_centrality G) target_char ]> metrics in
  let metrics := <[ "pagerank" := guarded (nx.pagerank G) target_char ]> metrics in
  let metrics := <[ "clustering_coefficient" :=
                    guarded (nx.clustering_undirected G) target_char ]> metrics in
  Ok metrics.

(** Lines 119-120:
    [sum([G[node][neighbor].get('weight', 1) for neighbor in G.neighbors(node)])] *)
Definition weighted_degree_default (G : nx.DiGraph) (node : str) : result Z :=
  nbrs <~ nx.neighbors G node;
  ws <~ traverse (fun neighbor =>
                    adjacent <~ getitem (nx.adj G) node;
                    datadict <~ getitem adjacent neighbor;
                    Ok (default 1%Z (datadict !! "weight"))) nbrs;
  Ok (sum ws).

(** Lines 114-121: the structural metrics of one node. *)
Definition node_metrics (G : nx.DiGraph) (node : str) : result (gmap string number) :=
  let metrics : gmap string number := ∅ in
  let metrics := <[ "degree" := Int (Z.of_nat (nx.degree G node)) ]> metrics in
  let metrics := <[ "in_degree" := Int (Z.of_nat (nx.in_degree G node)) ]> metrics in
  let metrics := <[ "out_degree" := Int (Z.of_nat (nx.out_degree G node)) ]> metrics in
  weighted_degree <~ weighted_degree_default G node;
  Ok (<[ "weighted_degree" := Int weighted_degree ]> metrics).

(** The dict that [node_metrics] builds when the weighted degree is [wd]. *)
Definition structural_metrics (G : nx.DiGraph) (node : str) (wd : Z)
  : gmap string number :=
  <[ "weighted_degree" := Int wd ]>
  (<[ "out_degree" := Int (Z.of_nat (nx.out_degree G node)) ]>
  (<[ "in_degree" := Int (Z.of_nat (nx.in_degree G node)) ]>
  (<[ "degree" := Int (Z.of_nat (nx.degree G node)) ]> ∅))).

(** The sum of the weights of the edges that leave [node], an edge
    without weight counting for 1. *)
Definition out_weight_default (G : nx.DiGraph) (node : str) : Z :=
  sum ((fun entry => default 1%Z (entry.2 !! "weight"))
         <$> map_to_list (nx.adjacency G node)).

(** Lines 129-132: the three centralities are stored for every node. *)
Definition store_centralities (degree_cent betweenness closeness : gmap str nx.float)
    (all_metrics : gmap str (gmap string number)) : gmap str (gmap string number) :=
  map_imap (fun node metrics =>
    Some (<[ "closeness_centrality" := get_or_zero closeness node ]>
         (<[ "betweenness_centrality" := get_or_zero betweenness node ]>
         (<[ "degree_centrality" := get_or_zero degree_cent node ]> metrics))))
    all_metrics.

(** Lines 110-136: one [try] around the three routines and the loop that
    stores them; [except: pass] keeps the structural metrics only. *)
Definition get_all_centrality_metrics (G : nx.DiGraph)
  : result (gmap str (gmap string number)) :=
  rows <~ traverse (fun node => metrics <~ node_metrics G node; Ok (node, metrics))
                   (nx.nodes G);
  let all_metrics : gmap str (gmap string number) := list_to_map rows in
  Ok (try_except
        (let degree_cent := nx.degree_centrality G in
         betweenness <~ nx.betweenness_centrality G;
         closeness <~ nx.closeness_centrality G;
         Ok (store_centralities degree_cent betweenness closeness all_metrics))
        all_metrics).

End Metrics.

End Network.

(** ** [4_advanced_network_analysis.py] *)

Module Advanced.
Import Py.

(** Lines 34-39 of [load_data]: the same loop, written in place. *)
Fixpoint load_rows (G : nx.DiGraph) (rows : list Network.Row) : result nx.DiGraph :=
  match rows with
  | [] => Ok G
  | row :: rows' =>
      G' <~ (if nx.has_edge G (Network.Source row) (Network.Target row)
             then
               nbrs <~ getitem (nx.adj G) (Network.Source row);
               datadict <~ getitem nbrs (Network.Target row);
               old <~ getitem datadict "weight";
               Ok {| nx.adj := <[ Network.Source row :=
                               <[ Network.Target row :=
                                  <[ "weight" := (old + Network.Frequency row)%Z ]> datadict ]>
                               nbrs ]> (nx.adj G) |}
             else Ok (nx.add_edge G (Network.Source row) (Network.Target row)
                               (Network.Frequency row)));
      load_rows G' rows'
  end.

Definition load_data (df_interactions : list Network.Row) : result nx.DiGraph :=
  load_rows nx.empty df_interactions.

End Advanced.

(** ** Sample data *)

Module Sample.
Import Py.

Definition baochai : str := u "薛寶釵".
Definition baoyu : str := u "賈寶玉".
Definition daiyu : str := u "林黛玉".
Definition xiren : str := u "襲人".

(** A part of the dictionary of [1_data_preparation.py]. *)
Definition character_dict : list (str * list str) :=
  [ (baochai, map u ["薛寶釵"; "寶釵"; "寶姐姐"]);
    (baoyu, map u ["賈寶玉"; "寶玉"; "寶二爺"]);
    (daiyu, map u ["林黛玉"; "黛玉"; "林妹妹"]);
    (xiren, map u ["襲人"; "花襲人"]) ].

Definition target_variants : list str := map u ["薛寶釵"; "寶釵"; "寶姐姐"].

Definition text : str := u "襲人走了。寶釵笑道寶玉和黛玉來了！眾人散了".

Definition second_sentence : str := u "寶釵笑道寶玉和黛玉來了".

(** Four events of one key and one of another. *)
Definition event (target_name : str) (chapter_num : Z)
    (t : Extraction.InteractionType) (ctx : string) : Extraction.Interaction :=
  {| Extraction.source := baochai;
     Extraction.target := target_name;
     Extraction.chapter := chapter_num;
     Extraction.type := t;
     Extraction.context := u ctx;
     Extraction.sentence := u ctx |}.

Definition all_interactions : list Extraction.Interaction :=
  [ event baoyu 8 Extraction.Dialogue "c1";
    event daiyu 8 Extraction.Action "d1";
    event baoyu 8 Extraction.Action "c2";
    event baoyu 20 Extraction.Dialogue "c3";
    event baoyu 22 Extraction.CoOccurrence "c4" ].

(** Rows of the interaction table: one key twice, and a self-loop. *)
Definition row (source target : str) (frequency : Z) : Network.Row :=
  {| Network.Source := source; Network.Target := target;
     Network.Frequency := frequency |}.

Definition two_batches : list Network.Row :=
  [ row baochai baoyu 5; row baochai daiyu 3; row baochai baoyu 7 ].

Definition self_loop : list Network.Row := [ row baochai baochai 3 ].

(** One node and no edge; the node is not the focal character. *)
Definition single_node : nx.DiGraph := nx.add_node nx.empty baoyu.

(** Routines of which the betweenness fails. *)
Definition failing_betweenness : nx.Algorithms :=
  {| nx.float := Z;
     nx.degree_centrality := fun G => (fun _ => 1%Z) <$> nx.adj G;
     nx.betweenness_centrality := fun _ => Raise (LibraryFailure 0);
     nx.closeness_centrality := fun G => Ok ((fun _ => 0%Z) <$> nx.adj G);
     nx.eigenvector_centrality := fun _ => Raise (LibraryFailure 1);
     nx.pagerank := fun G => Ok ((fun _ => 1%Z) <$> nx.adj G);
     nx.clustering_undirected := fun G => Ok ((fun _ => 0%Z) <$> nx.adj G) |}.

End Sample.

(** ** [0_chapter_selection.py] *)

Module Selection.
Import Py.

Definition BAOCHAI_VARIANTS : list str :=
  map u ["薛寶釵"; "寶釵"; "寶姐姐"; "薛大姑娘"; "薛姑娘"; "薛姨媽的女兒"; "寶丫頭"].

(** [len(re.findall(re.escape(needle), text))] from the current position:
    matches are taken from left to right and do not overlap; [skip] is
    the number of characters of the last match that are still to pass. An
    empty pattern matches once at every position, the end included. *)
Fixpoint findall_count (needle : str) (skip : nat) (text : str) : nat :=
  match text with
  | [] =>
      match skip, needle with
      | O, [] => 1
      | _, _ => 0
      end
  | _ :: text' =>
      match skip with
      | S k => findall_count needle k text'
      | O =>
          if startswith text needle
          then S (findall_count needle (length needle - 1) text')
          else findall_count needle 0 text'
      end
  end.

(** The matches of a pattern, overlapping ones included: the suffixes of
    the text that start with it. *)
Fixpoint occurrences (needle text : str) : nat :=
  (if startswith text needle then 1 else 0) +
  match text with
  | [] => 0
  | _ :: text' => occurrences needle text'
  end.

(** Lines 21-29. *)
Definition count_baochai_mentions (text : str) : nat :=
  foldl (fun count variant => count + findall_count variant 0 text) 0 BAOCHAI_VARIANTS.

(** The fields of an entry of [chapter_stats]; [density], a float that is
    only printed and saved, is left out. *)
Record ChapterStat := {
  chapter : Z;
  filename : str;
  mention_count : nat;
  text_length : nat
}.

(** Lines 55-70: the entry of one chapter file. *)
Definition chapter_stat (chapter_num : Z) (name content : str) : ChapterStat :=
  {| chapter := chapter_num;
     filename := name;
     mention_count := count_baochai_mentions content;
     text_length := length content |}.

(** [sorted]: the stable sort. [before x y] says that [x], met first, stays
    in front of [y]; with a key it is [key x <= key y], and
    [key y <= key x] with [reverse=True], so that entries with equal keys
    keep their order in both cases. *)
Fixpoint insert_sorted {A} (before : A -> A -> bool) (x : A) (l : list A) : list A :=
  match l with
  | [] => [x]
  | y :: l' => if before x y then x :: y :: l' else y :: insert_sorted before x l'
  end.

Definition sorted {A} (before : A -> A -> bool) (l : list A) : list A :=
  foldr (insert_sorted before) [] l.

Definition by_mentions_desc (x y : ChapterStat) : bool :=
  (mention_count y <=? mention_count x)%nat.

Definition by_chapter (x y : ChapterStat) : bool :=
  (chapter x <=? chapter y)%Z.

(** Lines 80-91. *)
Definition select_top_chapters (chapter_stats : list ChapterStat) (top_n : nat)
  : list ChapterStat * list ChapterStat :=
  let sorted_chapters := sorted by_mentions_desc chapter_stats in
  let top_chapters := take top_n sorted_chapters in
  let top_chapters_sorted := sorted by_chapter top_chapters in
  (top_chapters_sorted, sorted_chapters).

(** Lines 117-120 of [main]: the mentions of the selected chapters. *)
Definition total_mentions (top_20 : list ChapterStat) : nat :=
  foldl (fun total ch => total + mention_count ch) 0 top_20.

End Selection.

(** ** [1_data_preparation.py] *)

Module Preparation.
Import Py.

(** Lines 63-107: the dict literal, in its order. *)
Definition build_character_dictionary : list (str * list str) :=
  [ (u "薛寶釵", map u ["薛寶釵"; "寶釵"; "寶姐姐"; "薛大姑娘"; "薛姑娘"; "薛姨媽的女兒"; "寶丫頭"]);
    (u "賈寶玉", map u ["賈寶玉"; "寶玉"; "寶二爺"; "寶兄弟"; "寶哥哥"; "怡紅公子"; "二爺"]);
    (u "林黛玉", map u ["林黛玉"; "黛玉"; "林妹妹"; "林姑娘"; "顰兒"; "瀟湘妃子"]);
    (u "襲人", map u ["襲人"; "花襲人"; "襲人姐姐"]);
    (u "鴛鴦", map u ["鴛鴦"; "鴛鴦姐姐"]);
    (u "晴雯", map u ["晴雯"; "晴雯姐姐"]);
    (u "鶯兒", map u ["鶯兒"; "黃金鶯"]);
    (u "紫鵑", map u ["紫鵑"; "紫鵑姐姐"]);
    (u "香菱", map u ["香菱"; "英蓮"; "秋菱"]);
    (u "賈母", map u ["賈母"; "老太太"; "老祖宗"; "史太君"]);
    (u "賈政", map u ["賈政"; "老爺"; "政老爺"]);
    (u "王夫人", map u ["王夫人"; "太太"; "二太太"]);
    (u "薛姨媽", map u ["薛姨媽"; "薛姨媽"; "姨媽"]);
    (u "邢夫人", map u ["邢夫人"; "大太太"]);
    (u "賈環", map u ["賈環"; "環哥兒"; "環兄弟"]);
    (u "賈蓉", map u ["賈蓉"; "蓉哥兒"]);
    (u "賈薔", map u ["賈薔"; "薔哥兒"]);
    (u "史湘雲", map u ["史湘雲"; "湘雲"; "雲妹妹"; "史大姑娘"]);
    (u "迎春", map u ["迎春"; "二姑娘"]);
    (u "探春", map u ["探春"; "三姑娘"]);
    (u "惜春", map u ["惜春"; "四姑娘"]);
    (u "鳳姐", map u ["鳳姐"; "鳳姐兒"; "鳳丫頭"; "璉二奶奶"; "王熙鳳"]);
    (u "尤氏", map u ["尤氏"; "珍大奶奶"]);
    (u "李紈", map u ["李紈"; "大奶奶"; "珠大奶奶"]);
    (u "元春", map u ["元春"; "元妃"; "貴妃"; "娘娘"]);
    (u "秦鐘", map u ["秦鐘"; "秦鐘兒"]);
    (u "賈瑞", map u ["賈瑞"; "瑞大爺"]);
    (u "張太醫", map u ["張太醫"; "張先生"; "張友士"]) ].

(** Lines 109-115: every variant is mapped to the standard name of its
    entry; a later assignment replaces an earlier one. *)
Definition map_variants (standard_name : str) (mapping : gmap str str)
    (variants : list str) : gmap str str :=
  foldl (fun mapping variant => <[ variant := standard_name ]> mapping) mapping variants.

Definition create_character_mapping (character_dict : list (str * list str))
  : gmap str str :=
  foldl (fun mapping entry => map_variants entry.1 mapping entry.2) ∅ character_dict.

End Preparation.

(** ** [main] of [2_interaction_extraction.py] *)

Module Pipeline.
Import Py.

(** Line 94. *)
Definition other_characters (character_dict : list (str * list str))
  : list (str * list str) :=
  filter (fun entry => entry.1 <> Extraction.TARGET_CHARACTER) character_dict.

(** Lines 103-114: the chapters are visited in ascending order of their
    number, and the whole dictionary is passed to the extractor. *)
Definition all_interactions (character_dict : list (str * list str))
    (target_variants : list str) (chapters : gmap Z str)
  : list Extraction.Interaction :=
  flat_map (fun item =>
              Extraction.identify_interactions_advanced item.2 target_variants
                character_dict item.1)
           (Selection.sorted (fun x y => (x.1 <=? y.1)%Z) (map_to_list chapters)).

(** Lines 137-142: the columns of a row of the table that the graph
    builder reads. *)
Definition interaction_row (key : str * str) (data : Extraction.AggData) : Network.Row :=
  {| Network.Source := key.1;
     Network.Target := key.2;
     Network.Frequency := Z.of_nat (Extraction.count data) |}.

(** The rows of the table, one per key of the dict. [sort_values] orders
    them by frequency with a sort that is not stable, so that a table is
    any arrangement of these rows. *)
Definition table_rows (interaction_dict : gmap (str * str) Extraction.AggData)
  : list Network.Row :=
  (fun item => interaction_row item.1 item.2) <$> map_to_list interaction_dict.

(** A text in which every sentence delimiter is replaced by [。]. *)
Definition normalise (text : str) : str :=
  (fun c => if decide (c ∈ Extraction.sentence_delimiters) then 0x3002%N else c) <$> text.

End Pipeline.

(** ** The chart data of [3_network_analysis.py] *)

(** The exceptions of the builtins: [ValueError] of [max], [min], [int]
    and of tuple unpacking, [IndexError] of list indexing. *)
Inductive builtin_exn := ValueError | IndexError.

Module Charts.
Import Py.

(** A dict in insertion order: [d[k] = v] replaces the value of a key
    that is present, in place, and appends a new key. *)
Fixpoint dict_set {V} (k : str) (v : V) (d : list (str * V)) : list (str * V) :=
  match d with
  | [] => [(k, v)]
  | (k', v') :: d' =>
      if decide (k = k') then (k, v) :: d' else (k', v') :: dict_set k v d'
  end.

Fixpoint dict_get {V} (k : str) (d : list (str * V)) : option V :=
  match d with
  | [] => None
  | (k', v') :: d' => if decide (k = k') then Some v' else dict_get k d'
  end.

(** Lines 207-212. *)
Definition interaction_freq (df_interactions : list Network.Row) : list (str * Z) :=
  foldl (fun d row => dict_set (Network.Target row) (Network.Frequency row) d)
        [] df_interactions.

(** Lines 214-216; every node shown is a key of [interaction_freq]. *)
Definition nodes_to_show (df_interactions : list Network.Row) (target_char : str)
  : list str :=
  filter (fun node => node <> target_char) (interaction_freq df_interactions).*1.

Definition frequencies (df_interactions : list Network.Row) (target_char : str)
  : list Z :=
  (fun node => default 0%Z (dict_get node (interaction_freq df_interactions)))
    <$> nodes_to_show df_interactions target_char.

(** Lines 223-224: the bars by decreasing frequency; unpacking the
    unzipped [sorted_data] into two names fails when there is no bar. *)
Definition sorted_bars (df_interactions : list Network.Row) (target_char : str)
  : builtin_exn + (list str * list Z) :=
  let sorted_data :=
    Selection.sorted (fun x y : str * Z => (y.2 <=? x.2)%Z)
      (zip (nodes_to_show df_interactions target_char)
           (frequencies df_interactions target_char)) in
  match sorted_data with
  | [] => inl ValueError
  | _ :: _ => inr (sorted_data.*1, sorted_data.*2)
  end.

End Charts.

(** ** [calculate_network_properties] of [4_advanced_network_analysis.py] *)

Module AdvancedAnalysis.
Import Py.

(** The routines of networkx and numpy that the function calls; the two
    within a [try] return a [result]. *)
Class GlobalRoutines `{alg : nx.Algorithms} := {
  (* nx.density(G) *)
  density : nx.DiGraph -> nx.float;
  (* np.mean(degree_sequence) *)
  mean : list nat -> nx.float;
  (* nx.reciprocity(G) *)
  reciprocity : nx.DiGraph -> result nx.float;
  (* nx.transitivity(nx.Graph(G)) *)
  transitivity_undirected : nx.DiGraph -> result nx.float;
  (* nx.is_strongly_connected(G), nx.is_weakly_connected(G), for a graph
     with a node *)
  is_strongly_connected : nx.DiGraph -> bool;
  is_weakly_connected : nx.DiGraph -> bool;
  (* nx.number_strongly_connected_components(G) *)
  number_strongly_connected_components : nx.DiGraph -> nat
}.

Section Properties.
Context `{routines : GlobalRoutines}.

Record NetworkProperties := {
  num_nodes : nat;
  num_edges : nat;
  network_density : nx.float;
  avg_degree : nx.float;
  max_degree : nat;
  min_degree : nat;
  network_reciprocity : Network.number;
  transitivity : Network.number;
  strongly_connected : bool;
  weakly_connected : bool;
  num_strongly_connected_components : nat
}.

(** [max(l)] and [min(l)] of a list. *)
Definition py_max (l : list nat) : builtin_exn + nat :=
  match l with
  | [] => inl ValueError
  | x :: l' => inr (foldl Nat.max x l')
  end.

Definition py_min (l : list nat) : builtin_exn + nat :=
  match l with
  | [] => inl ValueError
  | x :: l' => inr (foldl Nat.min x l')
  end.

(** [try: v = routine(G)  except: v = 0] *)
Definition or_zero (r : result nx.float) : Network.number :=
  match r with
  | Ok x => Network.Float x
  | Raise _ => Network.Int 0
  end.

(** Lines 139-177. *)
Definition calculate_network_properties (G : nx.DiGraph)
  : builtin_exn + NetworkProperties :=
  let degree_sequence := nx.degree G <$> nx.nodes G in
  match py_max degree_sequence with
  | inl e => inl e
  | inr max_d =>
      match py_min degree_sequence with
      | inl e => inl e
      | inr min_d =>
          inr {| num_nodes := nx.number_of_nodes G;
                 num_edges := nx.number_of_edges G;
                 network_density := density G;
                 avg_degree := mean degree_sequence;
                 max_degree := max_d;
                 min_degree := min_d;
                 network_reciprocity := or_zero (reciprocity G);
                 transitivity := or_zero (transitivity_undirected G);
                 strongly_connected := is_strongly_connected G;
                 weakly_connected := is_weakly_connected G;
                 num_strongly_connected_components :=
                   if is_strongly_connected G then 1
                   else number_strongly_connected_components G |}
      end
  end.

End Properties.

End AdvancedAnalysis.

(** ** The filtered graph of [visualize_network] *)

Module Visualization.
Import Py.

(** [G.edges(data=True)]: the edges with their attribute dicts, node by
    node and for each node neighbour by neighbour. *)
Definition edges (G : nx.DiGraph) : list (str * str * gmap string Z) :=
  flat_map (fun item => (fun nbr => (item.1, nbr.1, nbr.2)) <$> map_to_list item.2)
           (map_to_list (nx.adj G)).

(** [G.add_edge(u, v, **data)]: both ends become nodes and the attribute
    dict of the edge is created or updated with [data]. *)
Definition add_edge_data (G : nx.DiGraph) (u v : str) (data : gmap string Z)
  : nx.DiGraph :=
  let G2 := nx.add_node (nx.add_node G u) v in
  let nbrs := default ∅ (nx.adj G2 !! u) in
  let datadict := default ∅ (nbrs !! v) in
  {| nx.adj := <[ u := <[ v := data ∪ datadict ]> nbrs ]> (nx.adj G2) |}.

(** [data.get('weight', 0) >= 5] *)
Definition main_connection (data : gmap string Z) : bool :=
  (5 <=? default 0 (data !! "weight"))%Z.

(** Lines 169-172. *)
Definition G_filtered (G : nx.DiGraph) : nx.DiGraph :=
  foldl (fun filtered edge =>
           if main_connection edge.2
           then add_edge_data filtered edge.1.1 edge.1.2 edge.2
           else filtered)
        nx.empty (edges G).

End Visualization.

(** ** The [Interaction_Types] column, written and read back *)

Module TypesColumn.
Import Py.

(** [str(n)] of a count: the decimal digits of [n]. *)
Definition str_of_nat (n : nat) : str :=
  N_of_ascii <$> list_ascii_of_string (NilZero.string_of_uint (Nat.to_uint n)).

(** [2_interaction_extraction.py], line 143: [f"{k}({v})"] for the items
    of the histogram of a key, joined by [、]. *)
Definition type_info (k : str) (v : nat) : str :=
  k ++ u "(" ++ str_of_nat v ++ u ")".

Definition Interaction_Types (items : list (str * nat)) : str :=
  join (u "、") ((fun item => type_info item.1 item.2) <$> items).

(** [s.split(sep)] for a separator of one character. *)
Definition split (sep : char) (s : str) : list str := re_split_class [sep] [] s.

Definition left_paren : char := 40%N.
Definition right_paren : char := 41%N.
Definition comma : char := 0x3001%N.

(** The characters [0] to [9]. *)
Definition is_digit (c : char) : Prop := (48 <= c <= 57)%N.

Section Parse.

(** The builtin [int] on strings. *)
Variable int : str -> builtin_exn + Z.

(** [3_network_analysis.py], lines 257-260, and the same lines 198-201 of
    [4_streamlit_app.py]: one piece of the column. *)
Definition parse_type_info (type_info : str) : builtin_exn + option (str * Z) :=
  if bool_decide (left_paren ∈ type_info) then
    match split left_paren type_info with
    | type_name :: rest :: _ =>
        match split right_paren rest with
        | digits :: _ =>
            match int digits with
            | inl e => inl e
            | inr count => inr (Some (type_name, count))
            end
        | [] => inl IndexError
        end
    | _ => inl IndexError
    end
  else inr None.

(** Lines 255-260: the dict [type_count] of a row. *)
Definition parse_types (types_str : str) : builtin_exn + list (str * Z) :=
  foldl (fun acc type_info =>
           match acc with
           | inl e => inl e
           | inr type_count =>
               match parse_type_info type_info with
               | inl e => inl e
               | inr (Some (type_name, count)) =>
                   inr (Charts.dict_set type_name count type_count)
               | inr None => inr type_count
               end
           end)
        (inr []) (split comma types_str).

End Parse.

End TypesColumn.

(** ** The totals per interaction type of [create_centrality_chart] *)

Module TypeTotals.
Import Py.

(** The two columns of a row of the table that the second panel reads. *)
Record Row := { Target : str; Interaction_Types : str }.

(** [2_interaction_extraction.py], lines 139-143: the two columns for a
    key, the types written in the order [items] of the histogram. *)
Definition row_of (key : str * str) (items : list (Extraction.InteractionType * nat))
  : Row :=
  {| Target := key.2;
     Interaction_Types :=
       TypesColumn.Interaction_Types
         ((fun item => (Extraction.type_name item.1, item.2)) <$> items) |}.

(** The tables that stage 2 can write for a dict: one row per key, in any
    order (the sort by frequency is not stable), the types of a row in the
    order of the items of its histogram. *)
Definition table_of (interaction_dict : gmap (str * str) Extraction.AggData)
    (rows : list Row) : Prop :=
  exists entries,
    entries ≡ₚ map_to_list interaction_dict /\
    Forall2 (fun row entry =>
               exists items,
                 items ≡ₚ map_to_list (Extraction.types entry.2) /\
                 row = row_of entry.1 items)
            rows entries.

Section Chart.

Variable int : str -> builtin_exn + Z.

(** [3_network_analysis.py], lines 251-261. *)
Definition interaction_types (df_interactions : list Row)
  : builtin_exn + list (str * list (str * Z)) :=
  foldl (fun acc row =>
           match acc with
           | inl e => inl e
           | inr d =>
               match TypesColumn.parse_types int (Interaction_Types row) with
               | inl e => inl e
               | inr type_count => inr (Charts.dict_set (Target row) type_count d)
               end
           end)
        (inr []) df_interactions.

(** Line 263. *)
Definition initial_totals : list (str * Z) :=
  [ (u "对话", 0%Z); (u "行为", 0%Z); (u "共同出现", 0%Z) ].

(** Lines 265-267: the counts of one character are added. *)
Definition add_types (type_totals types : list (str * Z)) : list (str * Z) :=
  foldl (fun totals item =>
           match Charts.dict_get item.1 totals with
           | Some total => Charts.dict_set item.1 (total + item.2)%Z totals
           | None => totals
           end)
        type_totals types.

(** Lines 251-267. *)
Definition type_totals (df_interactions : list Row) : builtin_exn + list (str * Z) :=
  match interaction_types df_interactions with
  | inl e => inl e
  | inr d => inr (foldl (fun totals item => add_types totals item.2) initial_totals d)
  end.

End Chart.

End TypeTotals.

(** ** Sample runs of the stages *)

Module Cases.
Import Py.

(** A chapter text that names other characters and not the focal one. *)
Definition quiet_text : str := u "襲人走了。寶玉和黛玉來了".

(** Four chapters, two of them with the same mention count. *)
Definition stat (chapter_num : Z) (mentions : nat) : Selection.ChapterStat :=
  {| Selection.chapter := chapter_num;
     Selection.filename := u "chapter.txt";
     Selection.mention_count := mentions;
     Selection.text_length := 1000 |}.

Definition chapter_stats : list Selection.ChapterStat :=
  [ stat 1 4; stat 2 9; stat 3 4; stat 4 7 ].

(** A sentence with a variant of one character, [老太太], that holds a
    variant of another, [太太]. *)
Definition grandmother_text : str := u "寶釵見了老太太。眾人散了".

Definition grandmother_sentence : str := u "寶釵見了老太太".

(** The first event of the sample text. *)
Definition first_event : Extraction.Interaction :=
  Extraction.interaction_record (Extraction.split_sentences Sample.text) 8 1
    Sample.second_sentence Sample.baoyu.

(** Library routines for the global properties. *)
Definition constant_routines
  : AdvancedAnalysis.GlobalRoutines (alg := Sample.failing_betweenness) :=
  @AdvancedAnalysis.Build_GlobalRoutines Sample.failing_betweenness
    (fun _ => 0%Z)
    (fun _ => 0%Z)
    (fun _ => Raise (LibraryFailure 2))
    (fun _ => Ok 0%Z)
    (fun _ => false)
    (fun _ => true)
    (fun G => nx.number_of_nodes G).

(** A reading of [int] on the strings of ASCII digits; any other string
    is refused. *)
Definition digits_value (s : str) : builtin_exn + Z :=
  match NilZero.uint_of_string (string_of_list_ascii (ascii_of_N <$> s)) with
  | Some d => inr (Z.of_nat (Nat.of_uint d))
  | None => inl ValueError
  end.

(** The histogram of a key with three dialogues and one action. *)
Definition types : gmap Extraction.InteractionType nat :=
  {[ Extraction.Dialogue := 3; Extraction.Action := 1 ]}.

(** A table written for the sample events: the rows and the items in the
    order in which the dicts list them. *)
Definition typed_rows : list TypeTotals.Row :=
  (fun entry => TypeTotals.row_of entry.1 (map_to_list (Extraction.types entry.2)))
    <$> map_to_list (Extraction.interaction_dict Sample.all_interactions).

End Cases.

(** * Properties *)

(** ** Sums over dicts *)

Section MapSums.
Context `{Countable K} {V : Type}.

Lemma map_fold_add_insert (f : V -> nat) (m : gmap K V) (k : K) (v : V) :
  map_fold (fun _ x acc => f x + acc) 0 (<[ k := v ]> m) + from_option f 0 (m !! k) =
  map_fold (fun _ x acc => f x + acc) 0 m + f v.
Proof.
  destruct (m !! k) as [v0|] eqn:Hk; simpl.
  - rewrite <- (insert_delete_eq m).
    rewrite (map_fold_delete_L _ _ k v0 m); [|intros; lia|done].
    rewrite map_fold_insert_L; [|intros; lia|apply lookup_delete_eq]. lia.
  - rewrite map_fold_insert_L; [|intros; lia|done]. lia.
Qed.

Lemma map_fold_Zadd_insert (f : V -> Z) (m : gmap K V) (k : K) (v : V) :
  (map_fold (fun _ x acc => f x + acc) 0 (<[ k := v ]> m) + from_option f 0 (m !! k) =
   map_fold (fun _ x acc => f x + acc) 0 m + f v)%Z.
Proof.
  destruct (m !! k) as [v0|] eqn:Hk; simpl.
  - rewrite <- (insert_delete_eq m).
    rewrite (map_fold_delete_L _ _ k v0 m); [|intros; lia|done].
    rewrite map_fold_insert_L; [|intros; lia|apply lookup_delete_eq]. lia.
  - rewrite map_fold_insert_L; [|intros; lia|done]. lia.
Qed.

Lemma sum_map_to_list (f : V -> Z) (m : gmap K V) :
  sum ((fun entry => f entry.2) <$> map_to_list m) =
  map_fold (fun _ x acc => f x + acc)%Z 0%Z m.
Proof.
  rewrite map_fold_foldr. unfold sum.
  induction (map_to_list m) as [|[k v] l IH]; [done|]. cbn. f_equal. exact IH.
Qed.

End MapSums.

Lemma sum_app (l k : list Z) : sum (l ++ k) = (sum l + sum k)%Z.
Proof.
  unfold sum. induction l as [|x l IH]; simpl; [done|]. rewrite IH. lia.
Qed.

Lemma traverse_ok {A B} (f : A -> result B) (g : A -> B) (l : list A) :
  (forall a, a ∈ l -> f a = Ok (g a)) -> traverse f l = Ok (g <$> l).
Proof.
  induction l as [|a l IH]; intros Hf; [done|]. simpl.
  rewrite (Hf a) by apply list_elem_of_here. simpl.
  rewrite IH by (intros; apply Hf; by apply list_elem_of_further). done.
Qed.

(** ** Strings *)

Section PyFacts.
Import Py.

Example u_code_points :
  u "道" = [0x9053%N] /\ u "薛寶釵" = [0x859B; 0x5BF6; 0x91F5]%N /\
  u "a。" = [0x61; 0x3002]%N.
Proof. vm_compute. done. Qed.

Lemma startswith_spec (hay needle : str) :
  startswith hay needle = true <-> exists post, hay = needle ++ post.
Proof.
  revert hay. induction needle as [|a needle IH]; intros hay; simpl.
  - split; [intros _; by exists hay | by destruct hay].
  - destruct hay as [|b hay]; simpl.
    + split; [done | intros [post Hpost]; discriminate].
    + rewrite andb_true_iff, bool_decide_eq_true, IH. split.
      * intros [-> [post ->]]. by exists post.
      * intros [post Hpost]. injection Hpost as -> ->. eauto.
Qed.

(** [contains] decides the substring relation. *)
Lemma contains_spec (needle hay : str) :
  contains needle hay = true <-> exists pre post, hay = pre ++ needle ++ post.
Proof.
  induction hay as [|b hay IH].
  - cbn [contains]. rewrite orb_false_r, startswith_spec. split.
    + intros [post ->]. by exists [], post.
    + intros [pre [post Heq]]. symmetry in Heq.
      apply app_eq_nil in Heq as [-> Heq]. exists post. by rewrite Heq.
  - cbn [contains]. rewrite orb_true_iff, startswith_spec, IH. split.
    + intros [[post ->] | [pre [post ->]]].
      * by exists [], post.
      * by exists (b :: pre), post.
    + intros [[|c pre] [post Heq]].
      * left. by exists post.
      * right. injection Heq as -> ->. eauto.
Qed.

Lemma any_in_spec (words : list str) (sentence : str) :
  any_in words sentence = true <->
  exists w pre post, w ∈ words /\ sentence = pre ++ w ++ post.
Proof.
  unfold any_in. rewrite existsb_exists. split.
  - intros [w [Hin Hc]]. apply contains_spec in Hc as [pre [post ->]].
    exists w, pre, post. by rewrite list_elem_of_In.
  - intros [w [pre [post [Hin ->]]]]. exists w. rewrite <- list_elem_of_In.
    split; [done | apply contains_spec; eauto].
Qed.

Lemma re_split_class_length (delims : list char) (cur text : str) :
  length (re_split_class delims cur text) =
  S (length (filter (fun c => c ∈ delims) text)).
Proof.
  revert cur. induction text as [|c text IH]; intros cur; [done|].
  cbn [re_split_class]. rewrite filter_cons. case_bool_decide.
  - rewrite decide_True by done. simpl. by rewrite IH.
  - rewrite decide_False by done. apply IH.
Qed.

Lemma re_split_class_pieces (delims : list char) (cur text : str) :
  Forall (fun c => c ∉ delims) cur ->
  Forall (Forall (fun c => c ∉ delims)) (re_split_class delims cur text).
Proof.
  revert cur. induction text as [|c text IH]; intros cur Hcur; simpl.
  - by constructor.
  - case_bool_decide.
    + constructor; [done | by apply IH].
    + apply IH. apply Forall_app. by repeat constructor.
Qed.

Lemma re_split_class_concat (delims : list char) (cur text : str) :
  concat (re_split_class delims cur text) =
  cur ++ filter (fun c => c ∉ delims) text.
Proof.
  revert cur. induction text as [|c text IH]; intros cur; cbn [re_split_class].
  - by rewrite filter_nil.
  - rewrite filter_cons. case_bool_decide.
    + rewrite decide_False by tauto. cbn [concat]. by rewrite IH.
    + rewrite decide_True by done. by rewrite IH, <- app_assoc.
Qed.

Lemma re_split_class_clean (delims : list char) (cur p rest : str) :
  Forall (fun c => c ∉ delims) p ->
  re_split_class delims cur (p ++ rest) = re_split_class delims (cur ++ p) rest.
Proof.
  revert cur. induction p as [|c p IH]; intros cur Hp.
  - by rewrite app_nil_r.
  - apply Forall_cons in Hp as [Hc Hp]. cbn [app re_split_class].
    rewrite bool_decide_eq_false_2 by done. rewrite IH by done.
    by rewrite <- app_assoc.
Qed.

(** A delimiter ends the piece in progress and starts the next one. *)
Lemma re_split_class_delimiter (delims : list char) (cur before after : str) (d : char) :
  d ∈ delims ->
  re_split_class delims cur (before ++ d :: after) =
  re_split_class delims cur before ++ re_split_class delims [] after.
Proof.
  intros Hd. revert cur. induction before as [|c before IH]; intros cur.
  - cbn [app re_split_class]. by rewrite bool_decide_eq_true_2.
  - cbn [app re_split_class]. case_bool_decide.
    + by rewrite IH.
    + apply IH.
Qed.

(** A text is its pieces with its delimiters between them. *)
Lemma re_split_class_rebuild (delims : list char) (cur text : str) :
  concat (zip_with (fun piece d => piece ++ [d])
            (re_split_class delims cur text) (filter (fun c => c ∈ delims) text))
    ++ default [] (last (re_split_class delims cur text)) =
  cur ++ text.
Proof.
  revert cur. induction text as [|c text IH]; intros cur.
  - cbn [re_split_class]. rewrite filter_nil. simpl. by rewrite app_nil_r.
  - cbn [re_split_class]. rewrite filter_cons. case_bool_decide.
    + rewrite decide_True by done. cbn [zip_with concat].
      assert (last (cur :: re_split_class delims [] text) =
              last (re_split_class delims [] text)) as ->.
      { destruct (re_split_class delims [] text) eqn:Hsplit; [|done].
        pose proof (re_split_class_length delims [] text) as Hlen.
        by rewrite Hsplit in Hlen. }
      rewrite <- !app_assoc. f_equal. rewrite IH. done.
    + rewrite decide_False by done. rewrite IH. by rewrite <- app_assoc.
Qed.

(** Pieces without delimiters, written with delimiters between them, are
    split into exactly these pieces. *)
Lemma re_split_class_unique (delims : list char) (pieces : list str) :
  forall (ds : list char) (final cur : str),
    length pieces = length ds ->
    Forall (fun d => d ∈ delims) ds ->
    Forall (Forall (fun c => c ∉ delims)) pieces ->
    Forall (fun c => c ∉ delims) final ->
    re_split_class delims cur
      (concat (zip_with (fun piece d => piece ++ [d]) pieces ds) ++ final) =
    match pieces with
    | [] => [cur ++ final]
    | piece :: rest => (cur ++ piece) :: rest ++ [final]
    end.
Proof.
  induction pieces as [|piece pieces IH]; intros ds final cur Hlen Hds Hpieces Hfinal.
  - destruct ds; [|done]. cbn [zip_with concat app].
    rewrite <- (app_nil_r final) at 1. by rewrite re_split_class_clean.
  - destruct ds as [|d ds]; [done|]. cbn [length] in Hlen.
    apply Forall_cons in Hds as [Hd Hds]. apply Forall_cons in Hpieces as [Hpiece Hpieces].
    cbn [zip_with concat]. rewrite <- !app_assoc.
    rewrite re_split_class_clean by done.
    cbn [app re_split_class]. rewrite bool_decide_eq_true_2 by done.
    rewrite (IH ds final []) by (done || lia).
    by destruct pieces.
Qed.

(** A text that ends with a delimiter ends with an empty piece. *)
Lemma re_split_class_trailing (delims : list char) (cur text : str) (d : char) :
  d ∈ delims ->
  exists pieces, re_split_class delims cur (text ++ [d]) = pieces ++ [[]].
Proof.
  intros Hd. revert cur. induction text as [|c text IH]; intros cur; simpl.
  - rewrite bool_decide_eq_true_2 by done. by exists [cur].
  - case_bool_decide.
    + destruct (IH []) as [pieces ->]. by exists (cur :: pieces).
    + apply IH.
Qed.

End PyFacts.

(** ** The sentence segmenter and the classifier *)

Section ExtractionFacts.
Import Py Extraction.

(** C6: the interaction type is a function of the sentence with the
    priority Dialogue, then Action, then CoOccurrence: a sentence with a
    speech keyword is Dialogue (whatever else it contains), a sentence
    with no speech keyword and an action keyword is Action, and a sentence
    with neither is CoOccurrence. *)
Theorem interaction_type_priority (sentence : str) :
  (mentions_keyword speech_words sentence ->
   interaction_type sentence = Dialogue) /\
  (~ mentions_keyword speech_words sentence ->
   mentions_keyword action_words sentence ->
   interaction_type sentence = Action) /\
  (~ mentions_keyword speech_words sentence ->
   ~ mentions_keyword action_words sentence ->
   interaction_type sentence = CoOccurrence).
Proof.
  unfold mentions_keyword, interaction_type.
  rewrite <- !any_in_spec.
  destruct (any_in speech_words sentence), (any_in action_words sentence);
    repeat split; intros; congruence.
Qed.

Lemma interaction_type_priority_witness :
  interaction_type (u "寶玉來了，寶釵笑道") = Dialogue /\
  interaction_type (u "寶釵來見寶玉") = Action /\
  interaction_type (u "寶釵與寶玉同坐") = CoOccurrence.
Proof.
  split; [|split].
  - apply (proj1 (interaction_type_priority _)).
    apply any_in_spec. vm_compute. reflexivity.
  - apply (proj1 (proj2 (interaction_type_priority _))).
    + unfold mentions_keyword. rewrite <- any_in_spec. vm_compute. discriminate.
    + apply any_in_spec. vm_compute. reflexivity.
  - apply (proj2 (proj2 (interaction_type_priority _))).
    + unfold mentions_keyword. rewrite <- any_in_spec. vm_compute. discriminate.
    + unfold mentions_keyword. rewrite <- any_in_spec. vm_compute. discriminate.
Defined.

(** The segmenter keeps empty pieces: a text that ends with a delimiter
    gives a last piece that is empty. *)
Example split_sentences_trailing :
  split_sentences (u "寶釵來了。") = [u "寶釵來了"; []].
Proof. vm_compute. reflexivity. Qed.

Example split_sentences_consecutive :
  split_sentences (u "寶釵道：好！。寶玉笑了") = [u "寶釵道：好"; []; u "寶玉笑了"].
Proof. vm_compute. reflexivity. Qed.

(** C8 as stated fails: some text yields an empty sentence. *)
Lemma split_sentences_not_all_nonempty :
  ~ (forall text : str, Forall (fun s => s <> []) (split_sentences text)).
Proof.
  intros H. specialize (H (u "寶釵來了。")).
  rewrite split_sentences_trailing in H.
  apply Forall_cons in H as [_ H]. apply Forall_cons in H as [H _]. by apply H.
Qed.

(** C8, amended: the segmenter yields the pieces between delimiters in
    text order, one more than the text has delimiters, none containing a
    delimiter, and together holding every other character of the text;
    empty pieces are kept.  The pieces are exactly the runs of the text
    between its delimiters: the text is these pieces with its delimiters
    between them, and no other sequence of delimiter-free pieces has this
    property.  A delimiter always separates the pieces before it from the
    pieces after it, so that a text that ends with a delimiter gets a last
    piece that is empty, and two delimiters in a row give an empty piece
    between them. *)
Theorem split_sentences_pieces (text : str) :
  length (split_sentences text) =
    S (length (filter (fun c => c ∈ sentence_delimiters) text)) /\
  Forall (Forall (fun c => c ∉ sentence_delimiters)) (split_sentences text) /\
  concat (split_sentences text) =
    filter (fun c => c ∉ sentence_delimiters) text /\
  text =
    concat (zip_with (fun piece d => piece ++ [d])
              (split_sentences text) (filter (fun c => c ∈ sentence_delimiters) text))
      ++ default [] (last (split_sentences text)) /\
  (forall (pieces : list str) (ds : list char) (final : str),
     length pieces = length ds ->
     Forall (fun d => d ∈ sentence_delimiters) ds ->
     Forall (Forall (fun c => c ∉ sentence_delimiters)) pieces ->
     Forall (fun c => c ∉ sentence_delimiters) final ->
     text = concat (zip_with (fun piece d => piece ++ [d]) pieces ds) ++ final ->
     split_sentences text = pieces ++ [final]) /\
  (Forall (fun c => c ∉ sentence_delimiters) text -> split_sentences text = [text]) /\
  (forall (before after : str) (d : char),
     d ∈ sentence_delimiters ->
     text = before ++ d :: after ->
     split_sentences text = split_sentences before ++ split_sentences after) /\
  (forall d : char,
     d ∈ sentence_delimiters ->
     split_sentences (text ++ [d]) = split_sentences text ++ [[]]) /\
  (forall (d1 d2 : char) (after : str),
     d1 ∈ sentence_delimiters -> d2 ∈ sentence_delimiters ->
     split_sentences (text ++ d1 :: d2 :: after) =
     split_sentences text ++ [] :: split_sentences after).
Proof.
  unfold split_sentences. repeat split.
  - apply re_split_class_length.
  - by apply re_split_class_pieces.
  - apply re_split_class_concat.
  - symmetry. apply (re_split_class_rebuild sentence_delimiters [] text).
  - intros pieces ds final Hlen Hds Hpieces Hfinal ->.
    rewrite re_split_class_unique by done. by destruct pieces.
  - intros Hclean. rewrite <- (app_nil_r text) at 1.
    by rewrite re_split_class_clean.
  - intros before after d Hd ->. by apply re_split_class_delimiter.
  - intros d Hd. by rewrite re_split_class_delimiter.
  - intros d1 d2 after Hd1 Hd2. rewrite re_split_class_delimiter by done.
    f_equal. apply (re_split_class_delimiter sentence_delimiters [] [] after d2 Hd2).
Qed.

Lemma split_sentences_pieces_witness :
  split_sentences (u "寶釵來了" ++ u "。") = [u "寶釵來了"; []] /\
  split_sentences (u "寶釵道：好" ++ 0xFF01%N :: 0x3002%N :: u "寶玉笑了") =
    [u "寶釵道：好"; []; u "寶玉笑了"].
Proof.
  destruct (split_sentences_pieces (u "寶釵來了"))
    as (_ & _ & _ & _ & _ & Hwhole1 & _ & Htrailing & _).
  destruct (split_sentences_pieces (u "寶釵道：好"))
    as (_ & _ & _ & _ & _ & Hwhole2 & _ & _ & Hdoubled).
  destruct (split_sentences_pieces (u "寶玉笑了"))
    as (_ & _ & _ & _ & _ & Hwhole3 & _).
  split.
  - change (u "。") with [0x3002%N]. rewrite Htrailing, Hwhole1; [done| |].
    + apply (bool_decide_unpack _). vm_compute. reflexivity.
    + apply (bool_decide_unpack _). vm_compute. reflexivity.
  - rewrite Hdoubled, Hwhole2, Hwhole3; [done| | | |];
      apply (bool_decide_unpack _); vm_compute; reflexivity.
Defined.

(** ** The extractor *)

(** The cataloged characters other than the focal one that [sentence]
    mentions, in the order of the dictionary. *)
Lemma flat_map_character_interactions
    (sentences : list str) (chapter_num : Z) (i : nat) (s : str) (dict : CharacterDict) :
  flat_map (character_interactions sentences chapter_num i s) dict =
  interaction_record sentences chapter_num i s <$>
    (filter (fun e => e.1 <> TARGET_CHARACTER /\ any_in e.2 s = true) dict).*1.
Proof.
  induction dict as [|[name variants] dict IH]; [done|].
  cbn [flat_map character_interactions]. rewrite filter_cons, IH. simpl.
  case_bool_decide.
  - rewrite decide_False by tauto. done.
  - destruct (any_in variants s) eqn:Hany.
    + rewrite decide_True by done. done.
    + rewrite decide_False by (intros [_ ?]; congruence). done.
Qed.

Lemma NoDup_filter_fst {A B} (P : A * B -> Prop) `{!forall x, Decision (P x)}
    (l : list (A * B)) :
  NoDup l.*1 -> NoDup (filter P l).*1.
Proof.
  induction l as [|x l IH]; [done|]. rewrite fmap_cons, filter_cons.
  intros [Hx Hl]%NoDup_cons. case_decide; [|by apply IH].
  rewrite fmap_cons. apply NoDup_cons. split; [|by apply IH].
  intros [y [Hy Hin]]%list_elem_of_fmap. apply list_elem_of_filter in Hin as [_ Hin].
  apply Hx. apply list_elem_of_fmap. eauto.
Qed.

Lemma two_names {A} (l : list A) (n1 n2 : A) :
  NoDup l -> n1 <> n2 -> (forall x, x ∈ l <-> x = n1 \/ x = n2) ->
  l = [n1; n2] \/ l = [n2; n1].
Proof.
  intros Hl Hne Hiff.
  assert (l ≡ₚ [n1; n2]) as Hperm.
  { apply NoDup_Permutation; [done| |].
    - apply NoDup_cons. split; [by intros ->%list_elem_of_singleton|].
      apply NoDup_singleton.
    - intros x. rewrite Hiff, elem_of_cons, list_elem_of_singleton. done. }
  pose proof (Permutation_length Hperm) as Hlen.
  destruct l as [|a [|b [|? ?]]]; try discriminate.
  apply Permutation_length_2 in Hperm as [[-> ->]|[-> ->]]; auto.
Qed.

Lemma context_sentences_lookup (sentences : list str) (i k : nat) :
  context_sentences sentences i !! k =
  if decide (i - 1 + k < i + 2) then sentences !! (i - 1 + k) else None.
Proof.
  unfold context_sentences, slice. rewrite Nat.max_0_l.
  destruct (decide (k < Nat.min (length sentences) (i + 2) - (i - 1))) as [Hk|Hk].
  - rewrite lookup_take_lt, lookup_drop by done.
    rewrite decide_True by lia. done.
  - rewrite lookup_take_ge by lia. case_decide; [|done].
    symmetry. apply lookup_ge_None. lia.
Qed.

Lemma imap_concat_at {A B} (f : nat -> A -> list B) (l : list A) (i : nat) (x : A) :
  l !! i = Some x ->
  concat (imap f l) =
  concat (imap f (take i l)) ++ f i x ++
  concat (imap (fun n => f (S i + n)) (drop (S i) l)).
Proof.
  intros Hi. rewrite <- (take_drop_middle l i x Hi) at 1.
  rewrite imap_app, concat_app. f_equal.
  rewrite length_take_le by (apply lookup_lt_Some in Hi; lia).
  cbn [imap concat]. rewrite Nat.add_0_r. f_equal. f_equal.
  apply imap_ext. intros n y _. simpl. f_equal. lia.
Qed.

(** C7: a sentence at index [i] that mentions the focal character and
    exactly two other cataloged characters [n1] and [n2] yields exactly
    two events, after the events of the earlier sentences and before those
    of the later ones; they have the two characters as targets and agree
    on every other field, and their context is the sentences at the
    indices from [i-1] (or [0]) up to [i+1] that exist, joined by the
    delimiter. *)
Theorem two_others_two_events
    (text : str) (target_variants : list str) (dict : CharacterDict)
    (chapter_num : Z) (i : nat) (s n1 n2 : str) :
  let sentences := split_sentences text in
  let emit := sentence_interactions sentences target_variants dict chapter_num in
  NoDup dict.*1 ->
  sentences !! i = Some s ->
  any_in target_variants s = true ->
  n1 <> n2 ->
  (forall name,
      (exists variants, (name, variants) ∈ dict /\
                        name <> TARGET_CHARACTER /\ any_in variants s = true)
      <-> name = n1 \/ name = n2) ->
  exists e1 e2,
    emit i s = [e1; e2] /\
    identify_interactions_advanced text target_variants dict chapter_num =
      concat (imap emit (take i sentences)) ++ [e1; e2] ++
      concat (imap (fun n => emit (S i + n)) (drop (S i) sentences)) /\
    (target e1 = n1 /\ target e2 = n2 \/ target e1 = n2 /\ target e2 = n1) /\
    source e1 = source e2 /\ chapter e1 = chapter e2 /\ type e1 = type e2 /\
    sentence e1 = sentence e2 /\ context e1 = context e2 /\
    context e1 = join (u "。") (context_sentences sentences i) /\
    (forall k, context_sentences sentences i !! k =
               if decide (i - 1 + k < i + 2) then sentences !! (i - 1 + k) else None).
Proof.
  intros sentences emit Hdup Hi Htarget Hne Hmention.
  set (P := fun e : str * list str => e.1 <> TARGET_CHARACTER /\ any_in e.2 s = true).
  assert (emit i s = interaction_record sentences chapter_num i s <$> (filter P dict).*1)
    as Hemit.
  { unfold emit, sentence_interactions. rewrite Htarget. simpl.
    apply flat_map_character_interactions. }
  assert ((filter P dict).*1 = [n1; n2] \/ (filter P dict).*1 = [n2; n1]) as Hnames.
  { apply two_names; [by apply NoDup_filter_fst | done |].
    intros name. rewrite <- Hmention, list_elem_of_fmap. split.
    - intros [[name' variants] [-> [[??] ?]%list_elem_of_filter]]. eauto.
    - intros [variants [? [??]]]. exists (name, variants).
      split; [done|]. by apply list_elem_of_filter. }
  assert (exists a b, (filter P dict).*1 = [a; b] /\
                      (a = n1 /\ b = n2 \/ a = n2 /\ b = n1)) as [a [b [Hab Hor]]].
  { destruct Hnames as [-> | ->]; eauto 6. }
  exists (interaction_record sentences chapter_num i s a),
         (interaction_record sentences chapter_num i s b).
  rewrite Hab in Hemit. split; [exact Hemit|]. split.
  { unfold identify_interactions_advanced. fold sentences. fold emit.
    rewrite (imap_concat_at emit sentences i s Hi), Hemit. done. }
  split; [exact Hor|]. repeat (split; [reflexivity|]).
  apply context_sentences_lookup.
Qed.

Example identify_interactions_advanced_sample :
  identify_interactions_advanced Sample.text Sample.target_variants
    Sample.character_dict 8
  = [ {| source := Sample.baochai; target := Sample.baoyu; chapter := 8;
         type := Dialogue;
         context := u "襲人走了。寶釵笑道寶玉和黛玉來了。眾人散了";
         sentence := Sample.second_sentence |};
      {| source := Sample.baochai; target := Sample.daiyu; chapter := 8;
         type := Dialogue;
         context := u "襲人走了。寶釵笑道寶玉和黛玉來了。眾人散了";
         sentence := Sample.second_sentence |} ].
Proof. vm_compute. reflexivity. Qed.

Lemma two_others_two_events_witness :
  exists e1 e2,
    sentence_interactions (split_sentences Sample.text) Sample.target_variants
      Sample.character_dict 8 1 Sample.second_sentence = [e1; e2] /\
    (target e1 = Sample.baoyu /\ target e2 = Sample.daiyu \/
     target e1 = Sample.daiyu /\ target e2 = Sample.baoyu) /\
    context e1 = context e2.
Proof.
  destruct (two_others_two_events Sample.text Sample.target_variants
              Sample.character_dict 8 1 Sample.second_sentence
              Sample.baoyu Sample.daiyu)
    as (e1 & e2 & Hemit & _ & Htargets & _ & _ & _ & _ & Hcontext & _).
  - apply (bool_decide_unpack _). vm_compute. reflexivity.
  - vm_compute. reflexivity.
  - vm_compute. reflexivity.
  - vm_compute. discriminate.
  - intros name. split.
    + intros (variants & Hin & Hother & Hany).
      unfold Sample.character_dict in Hin.
      repeat (apply elem_of_cons in Hin as [Hin | Hin]);
        try (by apply not_elem_of_nil in Hin);
        injection Hin as -> ->.
      * exfalso. by apply Hother.
      * by left.
      * by right.
      * vm_compute in Hany. discriminate.
    + intros [-> | ->].
      * exists (map u ["賈寶玉"; "寶玉"; "寶二爺"]). split; [|split].
        -- unfold Sample.character_dict. apply list_elem_of_further, list_elem_of_here.
        -- vm_compute. discriminate.
        -- vm_compute. reflexivity.
      * exists (map u ["林黛玉"; "黛玉"; "林妹妹"]). split; [|split].
        -- unfold Sample.character_dict.
           apply list_elem_of_further, list_elem_of_further, list_elem_of_here.
        -- vm_compute. discriminate.
        -- vm_compute. reflexivity.
  - exists e1, e2. auto.
Defined.

(** ** The aggregator *)

Lemma histogram_total_insert (h : gmap InteractionType nat) (t : InteractionType) (n : nat) :
  histogram_total (<[ t := n ]> h) + default 0 (h !! t) = histogram_total h + n.
Proof. apply (map_fold_add_insert id). Qed.

Lemma summarises_nil : summarises [] new_entry.
Proof. split; try done. Qed.

Lemma summarises_snoc (evs : list Interaction) (entry : AggData) (e : Interaction) :
  summarises evs entry -> summarises (evs ++ [e]) (update_entry entry e).
Proof.
  intros [Hcount Hctx Htypes Htotal Hchap]. split; cbn [update_entry count types chapters contexts].
  - rewrite length_app. simpl. lia.
  - rewrite fmap_app, Hctx, length_take, length_fmap.
    change (context <$> [e]) with [context e].
    case_bool_decide.
    + rewrite (take_ge (context <$> evs)) by (rewrite length_fmap; lia).
      rewrite take_ge; [done|]. rewrite length_app, length_fmap. simpl. lia.
    + rewrite take_app_le by (rewrite length_fmap; lia). done.
  - intros t. rewrite filter_app, length_app, filter_cons, filter_nil, <- Htypes.
    destruct (decide (type e = t)) as [<-|Hne].
    + rewrite lookup_insert_eq. simpl. lia.
    + rewrite lookup_insert_ne by done. simpl. lia.
  - pose proof (histogram_total_insert (types entry) (type e)
                  (default 0 (types entry !! type e) + 1)).
    rewrite length_app. simpl. lia.
  - rewrite fmap_app, list_to_set_app_L, Hchap. simpl.
    by rewrite union_empty_r_L.
Qed.

(** The entry of every key summarises the events of that key, and the
    keys of the dict are the keys that occur in the stream. *)
Lemma interaction_dict_lookup (all_interactions : list Interaction) (key : str * str) :
  match interaction_dict all_interactions !! key with
  | Some entry =>
      events_of key all_interactions <> [] /\
      summarises (events_of key all_interactions) entry
  | None => events_of key all_interactions = []
  end.
Proof.
  unfold interaction_dict, events_of.
  induction all_interactions as [|e events IH] using rev_ind; [done|].
  rewrite foldl_snoc, filter_app, filter_cons, filter_nil.
  unfold record_interaction at 1.
  destruct (decide (key_of e = key)) as [<-|Hne].
  - rewrite lookup_insert_eq. split; [by intros [? ?]%app_eq_nil|].
    apply summarises_snoc.
    destruct (foldl record_interaction ∅ events !! key_of e) as [entry|].
    + by destruct IH.
    + rewrite IH. apply summarises_nil.
  - rewrite lookup_insert_ne, app_nil_r by done. exact IH.
Qed.

Example interaction_dict_sample :
  (fun entry => (count entry, contexts entry,
                 (types entry !! Dialogue, types entry !! Action,
                  types entry !! CoOccurrence),
                 size (chapters entry)))
    <$> (interaction_dict Sample.all_interactions !! (Sample.baochai, Sample.baoyu))
  = Some (4, [u "c1"; u "c2"; u "c3"], (Some 2, Some 1, Some 1), 3).
Proof. vm_compute. reflexivity. Qed.

(** C4: the entry of a key has as frequency the number of raw events of
    the stream with that key, and a key has an entry exactly when the
    stream has an event with it. *)
Theorem frequency_counts_events (all_interactions : list Interaction) (key : str * str) :
  match interaction_dict all_interactions !! key with
  | Some entry =>
      count entry = length (events_of key all_interactions) /\ 0 < count entry
  | None => length (events_of key all_interactions) = 0
  end.
Proof.
  pose proof (interaction_dict_lookup all_interactions key) as H.
  destruct (interaction_dict all_interactions !! key) as [entry|].
  - destruct H as [Hne [Hcount _ _ _ _]]. split; [done|].
    rewrite Hcount. destruct (events_of key all_interactions); [done | simpl; lia].
  - by rewrite H.
Qed.

(** C5: the contexts of a key are the contexts of its first three events
    (of all of them when there are fewer) in stream order, so at most
    three; later events are appended only while fewer than three are
    stored, hence a full list is never changed. *)
Theorem contexts_first_three (all_interactions : list Interaction) (key : str * str) :
  let stored := fun evs => from_option contexts [] (interaction_dict evs !! key) in
  stored all_interactions = take 3 (context <$> events_of key all_interactions) /\
  length (stored all_interactions) <= 3 /\
  forall later,
    stored (all_interactions ++ later) =
    take 3 (stored all_interactions ++ (context <$> events_of key later)).
Proof.
  intros stored.
  assert (forall evs, stored evs = take 3 (context <$> events_of key evs)) as Hstored.
  { intros evs. unfold stored.
    pose proof (interaction_dict_lookup evs key) as H.
    destruct (interaction_dict evs !! key) as [entry|]; simpl.
    - by destruct H as [_ [_ ? _ _ _]].
    - by rewrite H. }
  split; [apply Hstored|]. split.
  - rewrite Hstored, length_take. lia.
  - intros later. rewrite !Hstored. unfold events_of.
    rewrite filter_app, fmap_app.
    set (l := context <$> filter _ all_interactions).
    set (k := context <$> filter _ later).
    rewrite !take_app, take_take, length_take.
    rewrite Nat.min_id. do 2 f_equal. lia.
Qed.

(** C10: the values of the type histogram of a key sum to its frequency,
    and the bucket of each type counts the events of the key with that
    type. *)
Theorem histogram_sums_to_frequency (all_interactions : list Interaction) (key : str * str) :
  match interaction_dict all_interactions !! key with
  | Some entry =>
      histogram_total (types entry) = count entry /\
      forall t, default 0 (types entry !! t) =
                length (filter (fun e => type e = t) (events_of key all_interactions))
  | None => True
  end.
Proof.
  pose proof (interaction_dict_lookup all_interactions key) as H.
  destruct (interaction_dict all_interactions !! key) as [entry|]; [|done].
  destruct H as [_ [Hcount _ Htypes Htotal _]]. split; [congruence | done].
Qed.

End ExtractionFacts.


(** ** The graph builder *)

Section BuilderFacts.
Import Py Network.

Lemma adjacency_add_node (G : nx.DiGraph) (n x : str) :
  nx.adjacency (nx.add_node G n) x = nx.adjacency G x.
Proof.
  unfold nx.add_node, nx.adjacency.
  destruct (nx.adj G !! n) eqn:Hn; [done|]. simpl.
  destruct (decide (x = n)) as [->|Hne].
  - by rewrite lookup_insert_eq, Hn.
  - by rewrite lookup_insert_ne.
Qed.

Lemma number_of_edges_add_node (G : nx.DiGraph) (n : str) :
  nx.number_of_edges (nx.add_node G n) = nx.number_of_edges G.
Proof.
  unfold nx.add_node, nx.number_of_edges.
  destruct (nx.adj G !! n) eqn:Hn; [done|]. simpl.
  pose proof (map_fold_add_insert size (nx.adj G) n ∅) as Hsum.
  rewrite Hn, map_size_empty in Hsum. simpl in Hsum. lia.
Qed.

Lemma has_node_add_node (G : nx.DiGraph) (n : str) :
  is_Some (nx.adj (nx.add_node G n) !! n).
Proof.
  unfold nx.add_node. destruct (nx.adj G !! n) eqn:Hn.
  - by rewrite Hn.
  - simpl. by rewrite lookup_insert_eq.
Qed.

Lemma is_Some_add_node (G : nx.DiGraph) (n x : str) :
  is_Some (nx.adj G !! x) -> is_Some (nx.adj (nx.add_node G n) !! x).
Proof.
  intros Hx. unfold nx.add_node. destruct (nx.adj G !! n) eqn:Hn; [done|]. simpl.
  destruct (decide (x = n)) as [->|Hne].
  - by rewrite lookup_insert_eq.
  - by rewrite lookup_insert_ne.
Qed.

Lemma adjacency_add_edge (G : nx.DiGraph) (u v : str) (w : Z) (x : str) :
  nx.adjacency (nx.add_edge G u v w) x =
  if decide (x = u)
  then <[ v := <[ "weight" := w ]> (default ∅ (nx.adjacency G u !! v)) ]> (nx.adjacency G u)
  else nx.adjacency G x.
Proof.
  unfold nx.add_edge. unfold nx.adjacency at 1. cbn [nx.adj].
  fold (nx.adjacency (nx.add_node (nx.add_node G u) v) u).
  rewrite !adjacency_add_node.
  case_decide as Hx.
  - subst x. by rewrite lookup_insert_eq.
  - rewrite lookup_insert_ne by done.
    fold (nx.adjacency (nx.add_node (nx.add_node G u) v) x).
    by rewrite !adjacency_add_node.
Qed.

Lemma has_edge_adjacency (G : nx.DiGraph) (u v : str) :
  nx.has_edge G u v = bool_decide (is_Some (nx.adjacency G u !! v)).
Proof.
  unfold nx.has_edge, nx.adjacency. destruct (nx.adj G !! u); [done|]. simpl.
  rewrite lookup_empty. symmetry. apply bool_decide_eq_false_2. by intros [? ?].
Qed.

Lemma number_of_edges_add_edge (G : nx.DiGraph) (u v : str) (w : Z) :
  nx.has_edge G u v = false ->
  nx.number_of_edges (nx.add_edge G u v w) = S (nx.number_of_edges G).
Proof.
  intros Hedge. rewrite has_edge_adjacency in Hedge.
  apply bool_decide_eq_false_1 in Hedge.
  rewrite <- eq_None_not_Some in Hedge.
  set (G2 := nx.add_node (nx.add_node G u) v).
  assert (nx.number_of_edges G2 = nx.number_of_edges G) as HG2.
  { unfold G2. by rewrite !number_of_edges_add_node. }
  assert (is_Some (nx.adj G2 !! u)) as [nbrs Hnbrs].
  { unfold G2. apply is_Some_add_node, has_node_add_node. }
  assert (nx.adjacency G2 u = nx.adjacency G u) as Hadj.
  { unfold G2. by rewrite !adjacency_add_node. }
  assert (nbrs = nx.adjacency G u) as ->.
  { rewrite <- Hadj. unfold nx.adjacency. by rewrite Hnbrs. }
  unfold nx.add_edge. fold G2. unfold nx.number_of_edges at 1. cbn [nx.adj].
  rewrite Hnbrs. cbn [default from_option].
  match goal with
  | |- map_fold _ _ (<[ _ := ?new ]> _) = _ =>
      pose proof (map_fold_add_insert size (nx.adj G2) u new) as Hsum
  end.
  fold (nx.number_of_edges G2) in Hsum. rewrite Hnbrs in Hsum.
  cbn [from_option] in Hsum.
  rewrite map_size_insert_None in Hsum by done. unfold id in *. lia.
Qed.

(** One row: the attribute dict of its edge gets the old weight plus the
    frequency, or the frequency alone for a new edge; nothing else
    changes, and the number of edges grows only for a new key. *)
Lemma add_row_adjacency (G : nx.DiGraph) (row : Row) :
  weighted G ->
  exists G' datadict,
    add_row G row = Ok G' /\
    datadict !! "weight" =
      Some (default 0 (weight_of G (Source row) (Target row)) + Frequency row)%Z /\
    (forall x, nx.adjacency G' x =
               if decide (x = Source row)
               then <[ Target row := datadict ]> (nx.adjacency G (Source row))
               else nx.adjacency G x) /\
    nx.number_of_edges G' =
      nx.number_of_edges G + (if nx.has_edge G (Source row) (Target row) then 0 else 1) /\
    (forall n, is_Some (nx.adj G !! n) -> is_Some (nx.adj G' !! n)).
Proof.
  intros Hw. unfold add_row. destruct row as [s t w]. cbn [Source Target Frequency].
  destruct (nx.has_edge G s t) eqn:Hedge.
  - pose proof Hedge as Hadj. rewrite has_edge_adjacency in Hadj.
    apply bool_decide_eq_true_1 in Hadj as [datadict Hd].
    destruct (Hw s t datadict Hd) as [old Hold].
    unfold nx.adjacency in Hd.
    destruct (nx.adj G !! s) as [nbrs|] eqn:Hs;
      [|simpl in Hd; by rewrite lookup_empty in Hd].
    simpl in Hd.
    eexists _, (<[ "weight" := (old + w)%Z ]> datadict).
    split; [|split; [|split; [|split]]].
    + unfold add_weight, getitem. rewrite Hs. simpl. rewrite Hd. simpl.
      rewrite Hold. simpl. reflexivity.
    + rewrite lookup_insert_eq. unfold weight_of, nx.adjacency.
      rewrite Hs. simpl. rewrite Hd. simpl. by rewrite Hold.
    + intros x. unfold nx.adjacency. cbn [nx.adj]. case_decide as Hx.
      * subst x. by rewrite lookup_insert_eq, Hs.
      * by rewrite lookup_insert_ne.
    + unfold nx.number_of_edges. cbn [nx.adj].
      match goal with
      | |- map_fold _ _ (<[ _ := ?new ]> _) = _ =>
          pose proof (map_fold_add_insert size (nx.adj G) s new) as Hsum
      end.
      rewrite Hs in Hsum. cbn [from_option] in Hsum.
      rewrite map_size_insert_Some in Hsum by done. lia.
    + intros n Hn. cbn [nx.adj]. destruct (decide (n = s)) as [->|Hne].
      * by rewrite lookup_insert_eq.
      * by rewrite lookup_insert_ne.
  - pose proof Hedge as Hadj. rewrite has_edge_adjacency in Hadj.
    apply bool_decide_eq_false_1 in Hadj. rewrite <- eq_None_not_Some in Hadj.
    eexists _, (<[ "weight" := w ]> ∅).
    split; [reflexivity|]. split; [|split; [|split]].
    + rewrite lookup_insert_eq. unfold weight_of. rewrite Hadj. done.
    + intros x. rewrite adjacency_add_edge, Hadj. done.
    + rewrite number_of_edges_add_edge by done. lia.
    + intros n Hn. unfold nx.add_edge. cbn [nx.adj].
      destruct (decide (n = s)) as [->|Hne].
      * by rewrite lookup_insert_eq.
      * rewrite lookup_insert_ne by done. by apply is_Some_add_node, is_Some_add_node.
Qed.

Lemma add_row_spec (G : nx.DiGraph) (row : Row) :
  weighted G ->
  exists G',
    add_row G row = Ok G' /\
    weighted G' /\
    (forall u v, weight_of G' u v =
                 if decide ((u, v) = (Source row, Target row))
                 then Some (default 0 (weight_of G u v) + Frequency row)%Z
                 else weight_of G u v) /\
    (forall u, out_weight G' u =
               (out_weight G u + if decide (u = Source row) then Frequency row else 0)%Z) /\
    nx.number_of_edges G' =
      nx.number_of_edges G + (if nx.has_edge G (Source row) (Target row) then 0 else 1) /\
    (forall n, is_Some (nx.adj G !! n) -> is_Some (nx.adj G' !! n)).
Proof.
  intros Hw.
  destruct (add_row_adjacency G row Hw) as (G' & datadict & Hrow & Hd & Hadj & Hnum & Hnodes).
  exists G'. split; [done|]. split; [|split; [|split; [|done]]].
  - intros u v d. rewrite Hadj. case_decide as Hu; [|apply Hw].
    destruct (decide (v = Target row)) as [->|Hv].
    + rewrite lookup_insert_eq. intros [= <-]. by rewrite Hd.
    + rewrite lookup_insert_ne by done. subst u. apply Hw.
  - intros u v. unfold weight_of. rewrite Hadj.
    destruct (decide (u = Source row)) as [->|Hu].
    + destruct (decide (v = Target row)) as [->|Hv].
      * rewrite decide_True by done. by rewrite lookup_insert_eq.
      * rewrite decide_False by congruence. by rewrite lookup_insert_ne.
    + rewrite decide_False by congruence. done.
  - intros u. unfold out_weight. rewrite Hadj. case_decide as Hu; [|lia].
    subst u.
    pose proof (map_fold_Zadd_insert
                  (fun d : gmap string Z => default 0%Z (d !! "weight"))
                  (nx.adjacency G (Source row)) (Target row) datadict) as Hsum.
    cbv beta in Hsum. rewrite Hd in Hsum. unfold weight_of in Hsum.
    destruct (nx.adjacency G (Source row) !! Target row); simpl in Hsum; lia.
Qed.

Lemma add_rows_snoc (G : nx.DiGraph) (rows : list Row) (row : Row) :
  add_rows G (rows ++ [row]) = (G' <~ add_rows G rows; add_row G' row).
Proof.
  revert G. induction rows as [|r rows IH]; intros G; simpl.
  - by destruct (add_row G row).
  - destruct (add_row G r) as [G1|e]; simpl; [apply IH | done].
Qed.

Lemma total_frequency_snoc (rows : list Row) (row : Row) :
  total_frequency (rows ++ [row]) = (total_frequency rows + Frequency row)%Z.
Proof.
  unfold total_frequency. rewrite fmap_app, sum_app. simpl. lia.
Qed.

Lemma rows_of_nil_iff (key : str * str) (rows : list Row) :
  rows_of key rows = [] <-> key ∉ distinct_keys rows.
Proof.
  unfold rows_of, distinct_keys. rewrite elem_of_list_to_set, list_elem_of_fmap. split.
  - intros Hnil [row [-> Hin]].
    assert (row ∈ filter (fun r => row_key r = row_key row) rows) as Hf
      by (by apply list_elem_of_filter).
    rewrite Hnil in Hf. by apply not_elem_of_nil in Hf.
  - intros Hnot. destruct (filter _ rows) as [|row l] eqn:Hf; [done|].
    exfalso. apply Hnot. exists row.
    assert (row ∈ filter (fun r => row_key r = key) rows) as Hin
      by (rewrite Hf; apply list_elem_of_here).
    apply list_elem_of_filter in Hin as [<- Hin]. done.
Qed.

Lemma distinct_keys_nil : distinct_keys [] = ∅.
Proof. done. Qed.

Lemma distinct_keys_cons (row : Row) (rows : list Row) :
  distinct_keys (row :: rows) = {[ row_key row ]} ∪ distinct_keys rows.
Proof. done. Qed.

Lemma built_nil : built [] nx.empty.
Proof.
  split.
  - intros u v d. unfold nx.adjacency, nx.empty. simpl.
    by rewrite !lookup_empty.
  - intros u v. unfold weight_of, nx.adjacency, nx.empty. simpl.
    by rewrite !lookup_empty.
  - intros u. unfold out_weight, nx.adjacency, nx.empty. simpl.
    rewrite lookup_empty. simpl. by rewrite map_fold_empty.
  - unfold nx.number_of_edges, nx.empty, distinct_keys. simpl.
    by rewrite map_fold_empty.
Qed.

Lemma built_has_edge (rows : list Row) (G : nx.DiGraph) (u v : str) :
  built rows G -> nx.has_edge G u v = bool_decide ((u, v) ∈ distinct_keys rows).
Proof.
  intros [Hw Hweight _ _]. rewrite has_edge_adjacency.
  apply bool_decide_ext. specialize (Hweight u v).
  unfold weight_of in Hweight. split.
  - intros [d Hd]. destruct (decide ((u, v) ∈ distinct_keys rows)) as [|Hnot]; [done|].
    apply rows_of_nil_iff in Hnot. rewrite decide_True in Hweight by done.
    rewrite Hd in Hweight. simpl in Hweight.
    destruct (Hw u v d Hd) as [w Hwd]. congruence.
  - intros Hin. case_decide as Hnil.
    + apply rows_of_nil_iff in Hnil. done.
    + destruct (nx.adjacency G u !! v); [eauto | discriminate].
Qed.

Lemma built_snoc (rows : list Row) (G : nx.DiGraph) (row : Row) :
  built rows G -> exists G', add_row G row = Ok G' /\ built (rows ++ [row]) G'.
Proof.
  intros HG. pose proof HG as [Hw Hweight Hout Hedges].
  destruct (add_row_spec G row Hw) as (G' & Hrow & Hw' & Hweight' & Hout' & Hedges' & _).
  exists G'. split; [done|]. split; [done| | |].
  - intros u v. rewrite Hweight', Hweight. unfold rows_of.
    rewrite filter_app, filter_cons, filter_nil.
    destruct (decide ((u, v) = (Source row, Target row))) as [Heq|Hne].
    + rewrite (decide_True (P := row_key row = (u, v))) by done.
      unfold rows_of.
      destruct (decide (filter (fun r => row_key r = (u, v)) rows ++ [row] = []))
        as [Hnil|_]; [by apply app_eq_nil in Hnil as [_ ?]|].
      rewrite total_frequency_snoc. case_decide as Hnil; [|done].
      by rewrite Hnil.
    + rewrite (decide_False (P := row_key row = (u, v))) by (unfold row_key; congruence).
      by rewrite app_nil_r.
  - intros u. rewrite Hout', Hout. unfold rows_from.
    rewrite filter_app, filter_cons, filter_nil.
    destruct (decide (u = Source row)) as [->|Hne].
    + rewrite decide_True by done. by rewrite total_frequency_snoc.
    + rewrite decide_False by congruence. rewrite app_nil_r. lia.
  - rewrite Hedges', Hedges, (built_has_edge rows G _ _ HG).
    unfold distinct_keys. rewrite fmap_app, list_to_set_app_L. simpl.
    rewrite union_empty_r_L. fold (distinct_keys rows). fold (row_key row).
    case_bool_decide as Hin.
    + rewrite Nat.add_0_r. f_equal. symmetry.
      rewrite union_comm_L. apply subseteq_union_1_L.
      by apply singleton_subseteq_l.
    + rewrite size_union by (by apply disjoint_singleton_r).
      by rewrite size_singleton.
Qed.

(** The builder returns a graph for every list of rows, and the graph
    holds the sums of the frequencies. *)
Lemma build_network_built (rows : list Row) :
  exists G, build_network rows = Ok G /\ built rows G.
Proof.
  unfold build_network. induction rows as [|row rows IH] using rev_ind.
  - exists nx.empty. split; [done | apply built_nil].
  - destruct IH as (G & HG & Hbuilt).
    destruct (built_snoc rows G row Hbuilt) as (G' & Hrow & Hbuilt').
    exists G'. split; [|done]. rewrite add_rows_snoc, HG. done.
Qed.

Lemma edge_weight_weight_of (G : nx.DiGraph) (u v : str) :
  nx.edge_weight G u v = from_option Ok (Raise KeyError) (weight_of G u v).
Proof.
  unfold nx.edge_weight, weight_of, nx.adjacency, getitem.
  destruct (nx.adj G !! u) as [nbrs|]; simpl; [|by rewrite lookup_empty].
  destruct (nbrs !! v) as [d|]; simpl; [|done].
  by destruct (d !! "weight").
Qed.

(** The loop of [load_data] is the loop of [build_network]. *)
Lemma load_rows_add_rows (G : nx.DiGraph) (rows : list Row) :
  Advanced.load_rows G rows = add_rows G rows.
Proof.
  revert G. induction rows as [|row rows IH]; intros G; [done|].
  cbn [Advanced.load_rows add_rows]. unfold add_row, add_weight.
  destruct (nx.has_edge G (Source row) (Target row)); simpl.
  - destruct (getitem (nx.adj G) (Source row)) as [nbrs|]; simpl; [|done].
    destruct (getitem nbrs (Target row)) as [d|]; simpl; [|done].
    destruct (getitem d "weight"); simpl; [apply IH | done].
  - apply IH.
Qed.

(** What the builder returns, for every list of rows. *)
Lemma build_network_weights (rows : list Row) :
  exists G,
    build_network rows = Ok G /\
    Advanced.load_data rows = Ok G /\
    nx.number_of_edges G = size (distinct_keys rows) /\
    forall u v,
      nx.has_edge G u v = bool_decide ((u, v) ∈ distinct_keys rows) /\
      nx.edge_weight G u v =
        if decide ((u, v) ∈ distinct_keys rows)
        then Ok (total_frequency (rows_of (u, v) rows))
        else Raise KeyError.
Proof.
  destruct (build_network_built rows) as (G & HG & Hbuilt).
  exists G. split; [done|]. split.
  { unfold Advanced.load_data. rewrite load_rows_add_rows. exact HG. }
  split; [by destruct Hbuilt|]. intros u v.
  split; [by apply built_has_edge|].
  rewrite edge_weight_weight_of, (built_weight _ _ Hbuilt).
  destruct (decide ((u, v) ∈ distinct_keys rows)) as [Hin|Hnot].
  - rewrite decide_False; [done|]. by rewrite rows_of_nil_iff; intros ?.
  - rewrite decide_True; [done|]. by apply rows_of_nil_iff.
Qed.

Example build_network_two_batches :
  exists G, build_network Sample.two_batches = Ok G /\
            nx.number_of_edges G = 2 /\
            nx.edge_weight G Sample.baochai Sample.baoyu = Ok 12%Z /\
            nx.edge_weight G Sample.baochai Sample.daiyu = Ok 3%Z /\
            nx.number_of_nodes G = 3.
Proof. eexists. split; [reflexivity|]. vm_compute. done. Qed.

(** C3: for every list of rows the builder ([build_network], and the
    same loop in [load_data]) returns a graph with one edge per distinct
    (source, target) key, the weight of which is the sum of the
    frequencies of the rows of that key; two rows of one key with
    frequencies 5 and 7 give one edge of weight 12. *)
Theorem build_network_sums_weights :
  (forall rows, exists G,
      build_network rows = Ok G /\
      Advanced.load_data rows = Ok G /\
      nx.number_of_edges G = size (distinct_keys rows) /\
      forall u v,
        nx.has_edge G u v = bool_decide ((u, v) ∈ distinct_keys rows) /\
        nx.edge_weight G u v =
          if decide ((u, v) ∈ distinct_keys rows)
          then Ok (total_frequency (rows_of (u, v) rows))
          else Raise KeyError) /\
  (forall source target, exists G,
      build_network [ {| Source := source; Target := target; Frequency := 5 |};
                      {| Source := source; Target := target; Frequency := 7 |} ] = Ok G /\
      nx.number_of_edges G = 1 /\
      nx.edge_weight G source target = Ok 12%Z).
Proof.
  split; [exact build_network_weights|].
  intros source target.
  destruct (build_network_weights [ {| Source := source; Target := target; Frequency := 5 |};
                       {| Source := source; Target := target; Frequency := 7 |} ])
    as (G & HG & _ & Hedges & Hweights).
  exists G. split; [done|]. split.
  - rewrite Hedges, !distinct_keys_cons, distinct_keys_nil.
    unfold row_key. cbn [Source Target].
    rewrite union_empty_r_L, union_idemp_L. apply size_singleton.
  - destruct (Hweights source target) as [_ ->].
    rewrite decide_True.
    + unfold rows_of, row_key. rewrite !filter_cons, filter_nil. simpl.
      rewrite !decide_True by done. done.
    + rewrite distinct_keys_cons. apply elem_of_union_l, elem_of_singleton. done.
Qed.

(** C2 as stated fails: a row whose source is its target is not
    rejected; the builder returns a graph that has the self-loop. *)
Lemma self_loop_is_graphed :
  exists G, build_network Sample.self_loop = Ok G /\
            nx.has_edge G Sample.baochai Sample.baochai = true /\
            nx.edge_weight G Sample.baochai Sample.baochai = Ok 3%Z.
Proof. eexists. split; [reflexivity|]. vm_compute. done. Qed.

(** Every event of the extractor has the focal character as source and
    another character as target. *)
Lemma extractor_targets_others (text : str) (target_variants : list str)
    (dict : list (str * list str)) (chapter_num : Z) (e : Extraction.Interaction) :
  e ∈ Extraction.identify_interactions_advanced text target_variants dict chapter_num ->
  Extraction.source e = Extraction.TARGET_CHARACTER /\
  Extraction.target e <> Extraction.source e.
Proof.
  unfold Extraction.identify_interactions_advanced.
  rewrite list_elem_of_In, in_concat. intros (events & Hevents & He).
  apply list_elem_of_In, elem_of_lookup_imap_1 in Hevents as (i & s & -> & _).
  unfold Extraction.sentence_interactions in He.
  destruct (negb _); [done|].
  apply in_flat_map in He as ([name variants] & _ & He).
  unfold Extraction.character_interactions in He.
  case_bool_decide as Hname; [done|].
  destruct (any_in variants s); [|done].
  destruct He as [<- | []]. simpl. split; [done | exact Hname].
Qed.

(** C2, amended: the builder rejects nothing. For every list of rows it
    returns a graph, and a row whose source is its target is graphed as a
    self-loop whose weight is the sum of the frequencies of its key, like
    any other edge. Self-loops are kept out upstream: the extractor emits
    no event whose target is its source. *)
Theorem self_loops_kept_out_upstream_only :
  (forall rows, exists G,
      build_network rows = Ok G /\
      forall u w, {| Source := u; Target := u; Frequency := w |} ∈ rows ->
        nx.has_edge G u u = true /\
        nx.edge_weight G u u = Ok (total_frequency (rows_of (u, u) rows))) /\
  (forall text target_variants dict chapter_num e,
      e ∈ Extraction.identify_interactions_advanced text target_variants dict chapter_num ->
      Extraction.source e = Extraction.TARGET_CHARACTER /\
      Extraction.target e <> Extraction.source e).
Proof.
  split; [|apply extractor_targets_others].
  intros rows.
  destruct (build_network_weights rows) as (G & HG & _ & _ & Hweights).
  exists G. split; [done|]. intros u w Hin.
  assert ((u, u) ∈ distinct_keys rows) as Hkey.
  { unfold distinct_keys. apply elem_of_list_to_set, list_elem_of_fmap.
    by exists {| Source := u; Target := u; Frequency := w |}. }
  destruct (Hweights u u) as [-> ->].
  rewrite bool_decide_eq_true_2, decide_True by done. done.
Qed.

Lemma self_loops_kept_out_upstream_only_witness :
  (exists G, build_network Sample.self_loop = Ok G /\
             nx.has_edge G Sample.baochai Sample.baochai = true) /\
  (forall e,
      e ∈ Extraction.identify_interactions_advanced Sample.text
            Sample.target_variants Sample.character_dict 8 ->
      Extraction.target e <> Extraction.source e).
Proof.
  split.
  - destruct (proj1 self_loops_kept_out_upstream_only Sample.self_loop)
      as (G & HG & Hloop).
    exists G. split; [exact HG|].
    apply (Hloop Sample.baochai 3%Z). apply list_elem_of_here.
  - intros e He.
    apply (proj2 self_loops_kept_out_upstream_only _ _ _ _ e He).
Defined.

End BuilderFacts.

(** ** The metrics *)

Section MetricsFacts.
Import Py Network.
Context `{alg : nx.Algorithms}.

Lemma has_node_true (G : nx.DiGraph) (n : str) :
  nx.has_node G n = true -> exists nbrs, nx.adj G !! n = Some nbrs.
Proof. unfold nx.has_node. by intros [nbrs ?]%bool_decide_eq_true_1; exists nbrs. Qed.

Lemma has_node_false (G : nx.DiGraph) (n : str) :
  nx.has_node G n = false -> nx.adj G !! n = None.
Proof.
  unfold nx.has_node. intros Hn%bool_decide_eq_false_1.
  by apply eq_None_not_Some.
Qed.

(** On a graph whose edges all have a weight the comprehension of lines
    69-70 does not fail for a node, and sums the weights of its edges. *)
Lemma weighted_degree_sum_ok (G : nx.DiGraph) (n : str) :
  weighted G -> nx.has_node G n = true ->
  weighted_degree_sum G n = Ok (out_weight G n).
Proof.
  intros Hw [nbrs Hn]%has_node_true.
  assert (nx.adjacency G n = nbrs) as Hadj by (unfold nx.adjacency; by rewrite Hn).
  unfold weighted_degree_sum, nx.neighbors. rewrite Hn. simpl.
  rewrite (traverse_ok _ (fun v => default 0%Z (weight_of G n v))).
  - simpl. f_equal. unfold out_weight. rewrite Hadj, <- sum_map_to_list.
    rewrite <- list_fmap_compose. f_equal. apply list_fmap_ext.
    intros i [v d] Hi. simpl. unfold weight_of. rewrite Hadj.
    apply list_elem_of_lookup_2, elem_of_map_to_list in Hi. by rewrite Hi.
  - intros v [[v' d] [-> Hin]]%list_elem_of_fmap. simpl.
    apply elem_of_map_to_list in Hin.
    rewrite edge_weight_weight_of. unfold weight_of. rewrite Hadj, Hin. simpl.
    destruct (Hw n v' d) as [w Hwd]; [by rewrite Hadj|]. by rewrite Hwd.
Qed.

Lemma calculate_centrality_metrics_weighted_degree (G : nx.DiGraph) (target_char : str) :
  weighted G -> nx.has_node G target_char = true ->
  exists metrics,
    calculate_centrality_metrics G target_char = Ok metrics /\
    metrics !! "weighted_degree" = Some (Int (out_weight G target_char)).
Proof.
  intros Hw Hn. unfold calculate_centrality_metrics.
  rewrite Hn, (weighted_degree_sum_ok G target_char Hw Hn). simpl.
  eexists. split; [reflexivity|].
  repeat (rewrite lookup_insert_ne by done). by rewrite lookup_insert_eq.
Qed.

(** The weighted degree is computed outside every [try] and without the
    membership test of lines 57-62. *)
Lemma calculate_centrality_metrics_absent (G : nx.DiGraph) (target_char : str) :
  nx.has_node G target_char = false ->
  calculate_centrality_metrics G target_char = Raise NetworkXError.
Proof.
  intros Hn. unfold calculate_centrality_metrics. rewrite Hn.
  unfold weighted_degree_sum, nx.neighbors.
  by rewrite (has_node_false G target_char Hn).
Qed.

Lemma weighted_degree_default_ok (G : nx.DiGraph) (node : str) :
  node ∈ nx.nodes G ->
  weighted_degree_default G node = Ok (out_weight_default G node).
Proof.
  intros [[node' nbrs] [-> Hin]]%list_elem_of_fmap. simpl.
  apply elem_of_map_to_list in Hin.
  assert (nx.adjacency G node' = nbrs) as Hadj by (unfold nx.adjacency; by rewrite Hin).
  unfold weighted_degree_default, nx.neighbors, out_weight_default.
  rewrite Hin, Hadj. simpl.
  rewrite (traverse_ok _
    (fun v => default 1%Z (default ∅ (nbrs !! v) !! "weight"))).
  - simpl. f_equal. rewrite <- list_fmap_compose. f_equal. apply list_fmap_ext.
    intros i [v d] Hi. simpl.
    apply list_elem_of_lookup_2, elem_of_map_to_list in Hi. by rewrite Hi.
  - intros v [[v' d] [-> Hv]]%list_elem_of_fmap. simpl.
    apply elem_of_map_to_list in Hv. unfold getitem. rewrite Hin. simpl.
    by rewrite Hv.
Qed.

Lemma node_metrics_ok (G : nx.DiGraph) (node : str) :
  node ∈ nx.nodes G ->
  node_metrics G node = Ok (structural_metrics G node (out_weight_default G node)).
Proof.
  intros Hnode. unfold node_metrics.
  by rewrite (weighted_degree_default_ok G node Hnode).
Qed.

(** When the betweenness routine fails, the single [try] of lines 124-134
    drops the three centralities for every node. *)
Lemma get_all_centrality_metrics_betweenness_fails (G : nx.DiGraph) (e : exn) :
  nx.betweenness_centrality G = Raise e ->
  exists all_metrics,
    get_all_centrality_metrics G = Ok all_metrics /\
    forall node metrics,
      all_metrics !! node = Some metrics ->
      metrics = structural_metrics G node (out_weight_default G node) /\
      metrics !! "degree_centrality" = None /\
      metrics !! "betweenness_centrality" = None /\
      metrics !! "closeness_centrality" = None.
Proof.
  intros Hfail. unfold get_all_centrality_metrics.
  rewrite (traverse_ok _
    (fun node => (node, structural_metrics G node (out_weight_default G node)))).
  - simpl. rewrite Hfail. simpl. eexists. split; [reflexivity|].
    intros node metrics Hlookup.
    apply elem_of_list_to_map_2, list_elem_of_fmap in Hlookup as [node' [[= -> ->] _]].
    split; [done|]. unfold structural_metrics.
    repeat split; by repeat (rewrite lookup_insert_ne by done).
  - intros node Hnode. by rewrite (node_metrics_ok G node Hnode).
Qed.

(** C9: for the graph built from any list of rows, when the focal
    character is a node the metrics are returned and the weighted degree
    among them is the sum of the frequencies of the rows whose source is
    the focal character. *)
Theorem weighted_degree_is_outgoing_frequency (rows : list Row) (target_char : str) :
  exists G,
    build_network rows = Ok G /\
    (nx.has_node G target_char = true ->
     exists metrics,
       calculate_centrality_metrics G target_char = Ok metrics /\
       metrics !! "weighted_degree" =
         Some (Int (total_frequency (rows_from target_char rows)))).
Proof.
  destruct (build_network_built rows) as (G & HG & Hbuilt).
  exists G. split; [done|]. intros Hnode.
  destruct (calculate_centrality_metrics_weighted_degree G target_char
              (built_weighted _ _ Hbuilt) Hnode) as (metrics & Hm & Hwd).
  exists metrics. split; [done|]. by rewrite Hwd, (built_out _ _ Hbuilt).
Qed.

(** With the focal character as the only node the structural metrics,
    the weighted degree among them, are 0. *)
Lemma single_node_focal (target_char : str) :
  exists metrics,
    calculate_centrality_metrics (nx.add_node nx.empty target_char) target_char
      = Ok metrics /\
    metrics !! "weighted_degree" = Some (Int 0) /\
    metrics !! "total_degree" = Some (Int 0).
Proof.
  assert (nx.adj (nx.add_node nx.empty target_char) = {[ target_char := ∅ ]}) as Hadj
    by done.
  assert (nx.has_node (nx.add_node nx.empty target_char) target_char = true) as Hn.
  { unfold nx.has_node. rewrite Hadj, lookup_singleton_eq. by apply bool_decide_eq_true_2. }
  unfold calculate_centrality_metrics. rewrite Hn.
  unfold weighted_degree_sum, nx.neighbors. rewrite Hadj, lookup_singleton_eq.
  rewrite map_to_list_empty. simpl. eexists. split; [reflexivity|].
  assert (nx.out_degree (nx.add_node nx.empty target_char) target_char = 0) as ->.
  { unfold nx.out_degree, nx.adjacency. by rewrite Hadj, lookup_singleton_eq. }
  assert (nx.in_degree (nx.add_node nx.empty target_char) target_char = 0) as ->.
  { unfold nx.in_degree. rewrite Hadj, map_filter_singleton_False; [done|].
    simpl. rewrite lookup_empty. by intros [? ?]. }
  split; repeat (rewrite lookup_insert_ne by done); by rewrite lookup_insert_eq.
Qed.

(** C1: the code does not isolate the metrics. With one node that is not
    the focal character and no edge, [calculate_centrality_metrics]
    raises instead of returning defaults, as it does for every graph
    without the focal character; and when the betweenness routine fails,
    [get_all_centrality_metrics] reports neither the degree centrality,
    which was computed, nor the closeness centrality, for any node. *)
Theorem metrics_failures_not_isolated (G : nx.DiGraph) (target_char : str) :
  calculate_centrality_metrics Sample.single_node TARGET_CHARACTER
    = Raise NetworkXError /\
  (nx.has_node G target_char = false ->
   calculate_centrality_metrics G target_char = Raise NetworkXError) /\
  (forall e, nx.betweenness_centrality G = Raise e ->
     exists all_metrics,
       get_all_centrality_metrics G = Ok all_metrics /\
       forall node metrics,
         all_metrics !! node = Some metrics ->
         metrics !! "degree_centrality" = None /\
         metrics !! "closeness_centrality" = None).
Proof.
  split; [|split].
  - apply calculate_centrality_metrics_absent. vm_compute. reflexivity.
  - apply calculate_centrality_metrics_absent.
  - intros e Hfail.
    destruct (get_all_centrality_metrics_betweenness_fails G e Hfail)
      as (all_metrics & Hall & Hnodes).
    exists all_metrics. split; [done|]. intros node metrics Hlookup.
    destruct (Hnodes node metrics Hlookup) as (_ & ? & _ & ?). done.
Qed.

End MetricsFacts.

(** ** Instances on the sample data *)

Lemma weighted_degree_is_outgoing_frequency_witness :
  exists G metrics,
    Network.build_network Sample.two_batches = Ok G /\
    Network.calculate_centrality_metrics (alg := Sample.failing_betweenness)
      G Sample.baochai = Ok metrics /\
    metrics !! "weighted_degree" = Some (Network.Int 15).
Proof.
  destruct (weighted_degree_is_outgoing_frequency (alg := Sample.failing_betweenness)
              Sample.two_batches Sample.baochai) as (G & HG & Hmetrics).
  destruct Hmetrics as (metrics & Hm & Hwd).
  - vm_compute in HG. injection HG as <-. vm_compute. reflexivity.
  - exists G, metrics. split; [exact HG|]. split; [exact Hm | exact Hwd].
Defined.

Lemma metrics_failures_not_isolated_witness :
  Network.calculate_centrality_metrics (alg := Sample.failing_betweenness)
    Sample.single_node Sample.baochai = Raise NetworkXError /\
  exists all_metrics,
    Network.get_all_centrality_metrics (alg := Sample.failing_betweenness)
      Sample.single_node = Ok all_metrics /\
    forall node metrics,
      all_metrics !! node = Some metrics ->
      metrics !! "degree_centrality" = None /\
      metrics !! "closeness_centrality" = None.
Proof.
  pose proof (metrics_failures_not_isolated (alg := Sample.failing_betweenness)
                Sample.single_node Sample.baochai) as (_ & Habsent & Hjoint).
  split.
  - apply Habsent. vm_compute. reflexivity.
  - apply (Hjoint (LibraryFailure 0)). reflexivity.
Defined.

(** ** Chapter selection *)

Section SelectionFacts.
Import Py Selection.

Lemma findall_count_pos (needle text : str) :
  0 < findall_count needle 0 text <-> contains needle text = true.
Proof.
  induction text as [|c text IH].
  - destruct needle; simpl; [split; [done | lia] | split; [lia | done]].
  - cbn [findall_count contains].
    destruct (startswith (c :: text) needle); simpl; [split; [done | lia] | exact IH].
Qed.

Lemma foldl_add_zero {A} (f : A -> nat) (l : list A) (n : nat) :
  foldl (fun count x => count + f x) n l = 0 <-> n = 0 /\ Forall (fun x => f x = 0) l.
Proof.
  revert n. induction l as [|x l IH]; intros n; simpl.
  - split; [by intros -> | by intros [-> _]].
  - rewrite IH, Forall_cons. intuition lia.
Qed.

Lemma findall_count_le_occurrences (needle : str) (skip : nat) (text : str) :
  findall_count needle skip text <= occurrences needle text.
Proof.
  revert skip. induction text as [|c text IH]; intros skip.
  - destruct skip, needle; simpl; lia.
  - cbn [findall_count occurrences]. destruct skip as [|k].
    + destruct (startswith (c :: text) needle).
      * specialize (IH (length needle - 1)). lia.
      * specialize (IH 0). lia.
    + specialize (IH k). lia.
Qed.

(** A pattern of two different characters cannot overlap itself, so
    [findall] finds every occurrence of it. *)
Lemma findall_count_pair (b c : char) (text : str) :
  b <> c -> findall_count [b; c] 0 text = occurrences [b; c] text.
Proof.
  intros Hbc. induction text as [|x text IH]; [done|].
  cbn [findall_count occurrences].
  destruct (startswith (x :: text) [b; c]) eqn:Hsw; [|by rewrite IH].
  apply startswith_spec in Hsw as [post Hpost]. simpl in Hpost.
  injection Hpost as -> ->. cbn [length Nat.sub findall_count].
  revert IH. cbn [findall_count occurrences].
  assert (startswith (c :: post) [b; c] = false) as ->.
  { simpl. by rewrite bool_decide_eq_false_2. }
  simpl. lia.
Qed.

Lemma occurrences_cons_le (a : char) (needle text : str) :
  occurrences (a :: needle) text + (if startswith text needle then 1 else 0)
  <= occurrences needle text.
Proof.
  induction text as [|x text IH].
  - simpl. destruct (startswith [] needle); lia.
  - cbn [occurrences].
    assert ((if startswith (x :: text) (a :: needle) then 1 else 0)
            <= (if startswith text needle then 1 else 0)) as Hhead.
    { simpl. destruct (bool_decide (a = x)), (startswith text needle); simpl; lia. }
    lia.
Qed.

Lemma re_split_class_substring (delims : list char) (cur text piece : str) :
  piece ∈ re_split_class delims cur text ->
  exists pre post, cur ++ text = pre ++ piece ++ post.
Proof.
  revert cur. induction text as [|c text IH]; intros cur; cbn [re_split_class].
  - intros ->%list_elem_of_singleton. by exists [], [].
  - case_bool_decide.
    + intros [-> | Hin]%elem_of_cons.
      * by exists [], (c :: text).
      * destruct (IH [] Hin) as (pre & post & Heq). simpl in Heq.
        exists (cur ++ c :: pre), post. rewrite Heq, <- app_assoc. done.
    + intros Hin. destruct (IH _ Hin) as (pre & post & Heq).
      exists pre, post. rewrite <- Heq, <- app_assoc. done.
Qed.

(** A word that occurs in a sentence of a text occurs in the text. *)
Lemma mentions_keyword_sentence (words : list str) (text sentence : str) :
  sentence ∈ Extraction.split_sentences text ->
  mentions_keyword words sentence -> mentions_keyword words text.
Proof.
  intros Hin (w & pre & post & Hw & ->).
  apply re_split_class_substring in Hin as (pre' & post' & Heq). simpl in Heq.
  exists w, (pre' ++ pre), (post ++ post'). split; [done|].
  rewrite Heq, <- !app_assoc. done.
Qed.

Lemma concat_imap_nil {A B} (f : nat -> A -> list B) (l : list A) :
  (forall i x, l !! i = Some x -> f i x = []) -> concat (imap f l) = [].
Proof.
  revert f. induction l as [|x l IH]; intros f Hf; [done|].
  cbn [imap concat]. rewrite (Hf 0 x) by done. simpl.
  apply IH. intros i y Hi. apply (Hf (S i) y Hi).
Qed.

(** A text in which no variant of the focal character occurs yields no
    event. *)
Lemma no_focal_no_events (text : str) (target_variants : list str)
    (dict : list (str * list str)) (chapter_num : Z) :
  ~ mentions_keyword target_variants text ->
  Extraction.identify_interactions_advanced text target_variants dict chapter_num = [].
Proof.
  intros Hnot. unfold Extraction.identify_interactions_advanced.
  apply concat_imap_nil. intros i s Hi. unfold Extraction.sentence_interactions.
  destruct (any_in target_variants s) eqn:Hany; [|done].
  exfalso. apply Hnot. apply (mentions_keyword_sentence _ _ s).
  - by apply list_elem_of_lookup_2 in Hi.
  - by apply any_in_spec.
Qed.

Lemma count_baochai_mentions_zero_iff (text : str) :
  count_baochai_mentions text = 0 <-> ~ mentions_keyword BAOCHAI_VARIANTS text.
Proof.
  unfold count_baochai_mentions, mentions_keyword.
  rewrite foldl_add_zero, <- any_in_spec, Forall_forall. split.
  - intros [_ Hall] Hany. unfold any_in in Hany.
    apply existsb_exists in Hany as (w & Hw & Hc).
    apply list_elem_of_In in Hw. specialize (Hall w Hw).
    apply findall_count_pos in Hc. lia.
  - intros Hnot. split; [done|]. intros w Hw.
    destruct (findall_count w 0 text) as [|n] eqn:Hn; [done|].
    exfalso. apply Hnot. unfold any_in. apply existsb_exists. exists w.
    split; [by apply list_elem_of_In|]. apply findall_count_pos. lia.
Qed.

(** X1: the mention count of a text is zero exactly when no variant of
    the name occurs in it. *)
Theorem count_baochai_mentions_zero (text : str) :
  count_baochai_mentions text = 0 <-> ~ mentions_keyword BAOCHAI_VARIANTS text.
Proof. apply count_baochai_mentions_zero_iff. Qed.

(** X2: a chapter whose mention count is zero yields no interaction
    event, whatever the dictionary, when the extractor is given the same
    variants of the focal character. *)
Theorem unmentioned_chapter_no_events (text : str) (dict : list (str * list str))
    (chapter_num : Z) :
  count_baochai_mentions text = 0 ->
  Extraction.identify_interactions_advanced text BAOCHAI_VARIANTS dict chapter_num = [].
Proof.
  intros Hzero. apply no_focal_no_events. by apply count_baochai_mentions_zero_iff.
Qed.

(** X3: every occurrence of the full name is counted at least twice, as
    the full name and as the given name it ends with. *)
Theorem full_name_counted_twice (text : str) :
  2 * findall_count (u "薛寶釵") 0 text <= count_baochai_mentions text.
Proof.
  assert (findall_count (u "薛寶釵") 0 text <= findall_count (u "寶釵") 0 text) as Hle.
  { change (u "薛寶釵") with (0x859B%N :: u "寶釵").
    change (u "寶釵") with [0x5BF6%N; 0x91F5%N].
    rewrite (findall_count_pair 0x5BF6%N 0x91F5%N) by done.
    pose proof (findall_count_le_occurrences
                  [0x859B%N; 0x5BF6%N; 0x91F5%N] 0 text).
    pose proof (occurrences_cons_le 0x859B%N [0x5BF6%N; 0x91F5%N] text). lia. }
  unfold count_baochai_mentions, BAOCHAI_VARIANTS. cbn [map foldl].
  lia.
Qed.

(** *** The stable sort *)

Section Sorted.
Context {A : Type} (before : A -> A -> bool).

Lemma insert_sorted_Permutation (x : A) (l : list A) :
  insert_sorted before x l ≡ₚ x :: l.
Proof.
  induction l as [|y l IH]; [done|]. simpl.
  destruct (before x y); [done|]. rewrite IH. apply Permutation_swap.
Qed.

Lemma sorted_Permutation (l : list A) : sorted before l ≡ₚ l.
Proof.
  induction l as [|x l IH]; [done|]. unfold sorted. cbn [foldr].
  fold (sorted before l). by rewrite insert_sorted_Permutation, IH.
Qed.

Lemma sorted_length (l : list A) : length (sorted before l) = length l.
Proof. apply Permutation_length, sorted_Permutation. Qed.

(** For an order that compares keys the result is sorted. *)
Lemma insert_sorted_StronglySorted (x : A) (l : list A) :
  (forall a b, before a b = false -> before b a = true) ->
  (forall a b c, before a b = true -> before b c = true -> before a c = true) ->
  StronglySorted (fun a b => before a b = true) l ->
  StronglySorted (fun a b => before a b = true) (insert_sorted before x l).
Proof.
  intros Htotal Htrans. induction 1 as [|y l Hl IH Hy]; simpl.
  - repeat constructor.
  - destruct (before x y) eqn:Hxy.
    + constructor; [by constructor|]. constructor; [done|].
      eapply Forall_impl; [exact Hy|]. intros z Hz. by apply (Htrans x y z).
    + constructor; [exact IH|].
      rewrite insert_sorted_Permutation. constructor; [by apply Htotal | done].
Qed.

Lemma sorted_StronglySorted (l : list A) :
  (forall a b, before a b = false -> before b a = true) ->
  (forall a b c, before a b = true -> before b c = true -> before a c = true) ->
  StronglySorted (fun a b => before a b = true) (sorted before l).
Proof.
  intros Htotal Htrans. induction l as [|x l IH]; [constructor|].
  unfold sorted. cbn [foldr]. by apply insert_sorted_StronglySorted.
Qed.

(** Stability: entries that the order does not separate keep their order. *)
Lemma insert_sorted_filter (P : A -> Prop) `{!forall a, Decision (P a)}
    (x : A) (l : list A) :
  (forall a b, P a -> P b -> before a b = true) ->
  filter P (insert_sorted before x l) = filter P (x :: l).
Proof.
  intros Hsame. induction l as [|y l IH]; [done|]. simpl.
  destruct (before x y) eqn:Hxy; [done|].
  rewrite filter_cons, IH, !filter_cons.
  destruct (decide (P y)) as [Hy|Hy], (decide (P x)) as [Hx|Hx]; try done.
  rewrite (Hsame x y Hx Hy) in Hxy. done.
Qed.

Lemma sorted_filter (P : A -> Prop) `{!forall a, Decision (P a)} (l : list A) :
  (forall a b, P a -> P b -> before a b = true) ->
  filter P (sorted before l) = filter P l.
Proof.
  intros Hsame. induction l as [|x l IH]; [done|].
  unfold sorted. cbn [foldr]. fold (sorted before l).
  rewrite insert_sorted_filter by done. by rewrite !filter_cons, IH.
Qed.

End Sorted.

Lemma StronglySorted_weaken {A} (R R' : A -> A -> Prop) (l : list A) :
  (forall a b, R a b -> R' a b) -> StronglySorted R l -> StronglySorted R' l.
Proof.
  intros HR. induction 1 as [|x l Hl IH Hx]; constructor; [done|].
  eapply Forall_impl; [exact Hx|]. intros y. apply HR.
Qed.

Lemma by_mentions_desc_total (a b : ChapterStat) :
  by_mentions_desc a b = false -> by_mentions_desc b a = true.
Proof. unfold by_mentions_desc. rewrite Nat.leb_le, Nat.leb_gt. lia. Qed.

Lemma by_mentions_desc_trans (a b c : ChapterStat) :
  by_mentions_desc a b = true -> by_mentions_desc b c = true ->
  by_mentions_desc a c = true.
Proof. unfold by_mentions_desc. rewrite !Nat.leb_le. lia. Qed.

Lemma by_chapter_total (a b : ChapterStat) :
  by_chapter a b = false -> by_chapter b a = true.
Proof. unfold by_chapter. rewrite Z.leb_le, Z.leb_gt. lia. Qed.

Lemma by_chapter_trans (a b c : ChapterStat) :
  by_chapter a b = true -> by_chapter b c = true -> by_chapter a c = true.
Proof. unfold by_chapter. rewrite !Z.leb_le. lia. Qed.

(** X4: the selection returns the whole list ranked by decreasing mention
    count and, in ascending order of the chapter number, the first [top_n]
    entries of that ranking (all of them when there are fewer). *)
Theorem select_top_chapters_sorted (chapter_stats : list ChapterStat) (top_n : nat) :
  let result := select_top_chapters chapter_stats top_n in
  result.2 ≡ₚ chapter_stats /\
  StronglySorted (fun a b => mention_count b <= mention_count a) result.2 /\
  result.1 ≡ₚ take top_n result.2 /\
  StronglySorted (fun a b => (chapter a <= chapter b)%Z) result.1 /\
  length result.1 = Nat.min top_n (length chapter_stats).
Proof.
  unfold select_top_chapters. cbn [fst snd].
  split; [apply sorted_Permutation|]. split.
  { eapply StronglySorted_weaken;
      [|apply (sorted_StronglySorted by_mentions_desc);
        [apply by_mentions_desc_total | apply by_mentions_desc_trans]].
    intros a b. unfold by_mentions_desc. by rewrite Nat.leb_le. }
  split; [apply sorted_Permutation|]. split.
  { eapply StronglySorted_weaken;
      [|apply (sorted_StronglySorted by_chapter);
        [apply by_chapter_total | apply by_chapter_trans]].
    intros a b. unfold by_chapter. by rewrite Z.leb_le. }
  by rewrite sorted_length, length_take, sorted_length.
Qed.

(** X5: no entry that is left out has more mentions than a selected one. *)
Theorem select_top_chapters_dominates
    (chapter_stats : list ChapterStat) (top_n : nat) (a b : ChapterStat) :
  a ∈ (select_top_chapters chapter_stats top_n).1 ->
  b ∈ drop top_n (select_top_chapters chapter_stats top_n).2 ->
  mention_count b <= mention_count a.
Proof.
  unfold select_top_chapters. cbn [fst snd]. rewrite sorted_Permutation.
  intros Ha Hb.
  pose proof (sorted_StronglySorted by_mentions_desc chapter_stats
                by_mentions_desc_total by_mentions_desc_trans) as Hsorted.
  rewrite <- (take_drop top_n (sorted by_mentions_desc chapter_stats)) in Hsorted.
  pose proof (StronglySorted_app_1_elem_of _ _ _ a b Hsorted Ha Hb) as Hab.
  unfold by_mentions_desc in Hab. by apply Nat.leb_le.
Qed.

(** X6: the ranking is stable. Entries with the same mention count are
    ranked in the order of the input, so at the cut the ones met first are
    the ones selected. *)
Theorem select_top_chapters_stable
    (chapter_stats : list ChapterStat) (top_n count : nat) :
  filter (fun x => mention_count x = count) (select_top_chapters chapter_stats top_n).2 =
  filter (fun x => mention_count x = count) chapter_stats.
Proof.
  unfold select_top_chapters. cbn [snd]. apply sorted_filter.
  intros a b Ha Hb. unfold by_mentions_desc. apply Nat.leb_le. lia.
Qed.

Lemma total_mentions_sum (l : list ChapterStat) :
  total_mentions l = sum_list (mention_count <$> l).
Proof.
  unfold total_mentions.
  assert (forall a, foldl (fun total ch => total + mention_count ch) a l =
                    a + sum_list (mention_count <$> l)) as Hgen.
  { induction l as [|x l IH]; intros a; cbn [foldl fmap list_fmap sum_list sum_list_with].
    - simpl. lia.
    - rewrite IH. simpl. lia. }
  apply Hgen.
Qed.

Lemma total_mentions_Permutation (l1 l2 : list ChapterStat) :
  l1 ≡ₚ l2 -> total_mentions l1 = total_mentions l2.
Proof. intros Hperm. rewrite !total_mentions_sum. by rewrite Hperm. Qed.

Lemma total_mentions_cons (x : ChapterStat) (l : list ChapterStat) :
  total_mentions (x :: l) = mention_count x + total_mentions l.
Proof. rewrite !total_mentions_sum. done. Qed.

(** In a list ranked by decreasing mention count no [k] entries have more
    mentions in total than the first [k]. *)
Lemma take_maximises_mentions (l : list ChapterStat) :
  StronglySorted (fun a b => mention_count b <= mention_count a) l ->
  forall (k : nat) (chosen : list ChapterStat),
    chosen ⊆+ l -> length chosen <= k ->
    total_mentions chosen <= total_mentions (take k l).
Proof.
  induction 1 as [|x l Hsorted IH Hx]; intros k chosen Hsub Hlen.
  - apply submseteq_nil_r in Hsub as ->. rewrite take_nil. done.
  - destruct k as [|k].
    { destruct chosen; [done | simpl in Hlen; lia]. }
    cbn [take]. rewrite total_mentions_cons.
    apply submseteq_cons_r in Hsub as [Hsub | (rest & Hperm & Hsub)].
    + destruct chosen as [|y chosen].
      { unfold total_mentions at 1. cbn [foldl]. lia. }
      rewrite total_mentions_cons.
      assert (y ∈ l) as Hy.
      { eapply elem_of_submseteq; [apply list_elem_of_here | exact Hsub]. }
      rewrite Forall_forall in Hx. specialize (Hx y Hy).
      assert (chosen ⊆+ l) as Hrest.
      { transitivity (y :: chosen); [by apply submseteq_cons | exact Hsub]. }
      cbn [length] in Hlen.
      specialize (IH k chosen Hrest ltac:(lia)). lia.
    + rewrite (total_mentions_Permutation _ _ Hperm), total_mentions_cons.
      apply Permutation_length in Hperm. cbn [length] in Hperm.
      specialize (IH k rest Hsub ltac:(lia)). lia.
Qed.

(** X25: the selection is the best one. No choice of at most [top_n] of
    the chapters has more mentions in total than the selected chapters,
    whose total [main] reports. *)
Theorem selection_maximises_mentions
    (chapter_stats chosen : list ChapterStat) (top_n : nat) :
  chosen ⊆+ chapter_stats ->
  length chosen <= top_n ->
  total_mentions chosen <= total_mentions (select_top_chapters chapter_stats top_n).1.
Proof.
  intros Hsub Hlen. unfold select_top_chapters. cbn [fst].
  rewrite (total_mentions_Permutation _ _ (sorted_Permutation by_chapter _)).
  apply take_maximises_mentions; [|by rewrite sorted_Permutation|done].
  eapply StronglySorted_weaken;
    [|apply sorted_StronglySorted;
       [apply by_mentions_desc_total | apply by_mentions_desc_trans]].
  intros a b. unfold by_mentions_desc. by rewrite Nat.leb_le.
Qed.

End SelectionFacts.

(** ** The character mapping *)

Section PreparationFacts.
Import Py Preparation.

Lemma map_variants_lookup (standard_name : str) (mapping : gmap str str)
    (variants : list str) (v : str) :
  map_variants standard_name mapping variants !! v =
  if decide (v ∈ variants) then Some standard_name else mapping !! v.
Proof.
  unfold map_variants. revert mapping.
  induction variants as [|x variants IH]; intros mapping; cbn [foldl].
  - rewrite decide_False; [done | apply not_elem_of_nil].
  - rewrite IH. destruct (decide (v ∈ variants)) as [Hin|Hnot].
    + rewrite decide_True; [done | by apply list_elem_of_further].
    + destruct (decide (v = x)) as [->|Hne].
      * rewrite lookup_insert_eq, decide_True; [done | apply list_elem_of_here].
      * rewrite lookup_insert_ne by done.
        rewrite decide_False; [done|]. by intros [?|?]%elem_of_cons.
Qed.

(** X7: the mapping sends a variant to the standard name of the last
    entry of the dictionary that lists it, and nothing else is mapped. *)
Theorem create_character_mapping_lookup (character_dict : list (str * list str)) (v : str) :
  create_character_mapping character_dict !! v =
  fst <$> last (filter (fun entry => v ∈ entry.2) character_dict).
Proof.
  unfold create_character_mapping.
  induction character_dict as [|entry dict IH] using rev_ind; [done|].
  rewrite foldl_snoc, map_variants_lookup, IH, filter_app, filter_cons, filter_nil.
  destruct (decide (v ∈ entry.2)).
  - by rewrite last_snoc.
  - by rewrite app_nil_r.
Qed.

(** In the dictionary of the script no variant belongs to two characters:
    the mapping sends every variant to the character that lists it. *)
Example create_character_mapping_shipped :
  Forall (fun entry =>
            Forall (fun v => create_character_mapping build_character_dictionary !! v
                             = Some entry.1) entry.2)
         build_character_dictionary.
Proof. apply (bool_decide_unpack _). vm_compute. reflexivity. Qed.

End PreparationFacts.

(** ** The events of the extractor *)

Section ExtractorFacts.
Import Py Extraction.

Lemma elem_of_concat_imap {A B} (f : nat -> A -> list B) (l : list A) (y : B) :
  y ∈ concat (imap f l) <-> exists i x, l !! i = Some x /\ y ∈ f i x.
Proof.
  rewrite list_elem_of_In, in_concat. split.
  - intros (ys & Hys & Hy).
    apply list_elem_of_In, elem_of_lookup_imap_1 in Hys as (i & x & -> & Hi).
    exists i, x. by rewrite list_elem_of_In.
  - intros (i & x & Hi & Hy). exists (f i x). split.
    + apply list_elem_of_In. by apply elem_of_lookup_imap_2.
    + by apply list_elem_of_In.
Qed.

Lemma elem_of_sentence_interactions (sentences : list str) (target_variants : list str)
    (dict : list (str * list str)) (chapter_num : Z) (i : nat) (s : str)
    (e : Interaction) :
  e ∈ sentence_interactions sentences target_variants dict chapter_num i s <->
  any_in target_variants s = true /\
  exists name variants,
    (name, variants) ∈ dict /\ name <> TARGET_CHARACTER /\
    any_in variants s = true /\
    e = interaction_record sentences chapter_num i s name.
Proof.
  unfold sentence_interactions.
  destruct (any_in target_variants s); simpl.
  - rewrite flat_map_character_interactions, list_elem_of_fmap. split.
    + intros (name & -> & Hname). split; [done|].
      apply list_elem_of_fmap in Hname as ([name' variants] & -> & Hin).
      apply list_elem_of_filter in Hin as [[? ?] ?]. by exists name', variants.
    + intros (_ & name & variants & Hin & Hne & Hany & ->).
      exists name. split; [done|]. apply list_elem_of_fmap.
      exists (name, variants). split; [done|]. by apply list_elem_of_filter.
  - split; [by intros ?%not_elem_of_nil | by intros [? _]].
Qed.

(** X8: the events of a text are exactly the records of the triples of a
    sentence that mentions the focal character, its index, and a
    dictionary entry other than the focal character one variant of which
    occurs in that sentence. *)
Theorem identify_interactions_advanced_events
    (text : str) (target_variants : list str) (dict : list (str * list str))
    (chapter_num : Z) (e : Interaction) :
  e ∈ identify_interactions_advanced text target_variants dict chapter_num <->
  exists i s name variants,
    split_sentences text !! i = Some s /\
    any_in target_variants s = true /\
    (name, variants) ∈ dict /\ name <> TARGET_CHARACTER /\
    any_in variants s = true /\
    e = interaction_record (split_sentences text) chapter_num i s name.
Proof.
  unfold identify_interactions_advanced. rewrite elem_of_concat_imap. split.
  - intros (i & s & Hi & He).
    apply elem_of_sentence_interactions in He
      as (Htarget & name & variants & ? & ? & ? & ->).
    by exists i, s, name, variants.
  - intros (i & s & name & variants & Hi & Htarget & ? & ? & ? & ->).
    exists i, s. split; [done|]. apply elem_of_sentence_interactions.
    split; [done|]. by exists name, variants.
Qed.

(** X9: presence is counted once. The events of one sentence have
    pairwise different targets, so a sentence yields at most one event per
    entry of the dictionary, however often the names occur in it. *)
Theorem one_event_per_character
    (sentences : list str) (target_variants : list str) (dict : list (str * list str))
    (chapter_num : Z) (i : nat) (s : str) :
  NoDup dict.*1 ->
  NoDup (target <$>
           sentence_interactions sentences target_variants dict chapter_num i s) /\
  length (sentence_interactions sentences target_variants dict chapter_num i s)
    <= length dict.
Proof.
  intros Hdup. unfold sentence_interactions.
  destruct (any_in target_variants s); simpl; [|split; [constructor | lia]].
  rewrite flat_map_character_interactions, <- list_fmap_compose.
  rewrite (list_fmap_ext _ id) by done. rewrite list_fmap_id, !length_fmap.
  split; [by apply NoDup_filter_fst | apply length_filter].
Qed.

(** X10: alias ambiguity. When a variant of one character is a substring
    of a variant of another, a sentence with the longer variant yields an
    event for the character of the shorter one as well. *)
Theorem substring_alias_flags_both
    (text : str) (target_variants : list str) (dict : list (str * list str))
    (chapter_num : Z) (i : nat) (s name : str) (variants : list str)
    (long short : str) :
  split_sentences text !! i = Some s ->
  any_in target_variants s = true ->
  (name, variants) ∈ dict -> name <> TARGET_CHARACTER ->
  short ∈ variants ->
  contains short long = true ->
  contains long s = true ->
  interaction_record (split_sentences text) chapter_num i s name
    ∈ identify_interactions_advanced text target_variants dict chapter_num.
Proof.
  intros Hi Htarget Hin Hne Hshort Hsub Hlong.
  unfold identify_interactions_advanced. apply elem_of_concat_imap.
  exists i, s. split; [done|]. apply elem_of_sentence_interactions.
  split; [done|]. exists name, variants. repeat split; try done.
  apply any_in_spec.
  apply contains_spec in Hsub as (pre1 & post1 & ->).
  apply contains_spec in Hlong as (pre2 & post2 & ->).
  exists short, (pre2 ++ pre1), (post1 ++ post2). split; [done|].
  by rewrite <- !app_assoc.
Qed.

(** X11: passing the whole dictionary, as [main] does, gives the events
    that the dictionary without the focal character would give. *)
Theorem whole_dictionary_same_events
    (text : str) (target_variants : list str) (dict : list (str * list str))
    (chapter_num : Z) :
  identify_interactions_advanced text target_variants dict chapter_num =
  identify_interactions_advanced text target_variants
    (Pipeline.other_characters dict) chapter_num.
Proof.
  unfold identify_interactions_advanced. f_equal. apply imap_ext.
  intros i s _. unfold sentence_interactions.
  destruct (negb (any_in target_variants s)); [done|].
  rewrite !flat_map_character_interactions. do 2 f_equal.
  unfold Pipeline.other_characters. rewrite list_filter_filter.
  apply list_filter_iff. intros [name variants]. simpl. tauto.
Qed.

End ExtractorFacts.

(** ** The context window *)

Section ContextFacts.
Import Py Extraction.

Lemma join_cons (sep p : str) (rest : list str) :
  rest <> [] -> join sep (p :: rest) = p ++ sep ++ join sep rest.
Proof. by destruct rest. Qed.

Lemma join_app (sep : str) (l1 l2 : list str) :
  l1 <> [] -> l2 <> [] ->
  join sep (l1 ++ l2) = join sep l1 ++ sep ++ join sep l2.
Proof.
  intros Hl1 Hl2. induction l1 as [|p l1 IH]; [done|].
  destruct l1 as [|q l1].
  - change ([p] ++ l2) with (p :: l2). by rewrite join_cons.
  - rewrite <- app_comm_cons, join_cons by done.
    rewrite IH by done. rewrite (join_cons sep p (q :: l1)) by done.
    by rewrite <- !app_assoc.
Qed.

(** The join of a run of pieces is a span of the join of all of them. *)
Lemma join_middle (sep : str) (l1 l2 l3 : list str) :
  exists pre post, join sep (l1 ++ l2 ++ l3) = pre ++ join sep l2 ++ post.
Proof.
  destruct l2 as [|p l2].
  { exists (join sep (l1 ++ l3)), []. simpl. by rewrite app_nil_r. }
  destruct l1 as [|q l1], l3 as [|r l3].
  - exists [], []. by rewrite !app_nil_r.
  - exists [], (sep ++ join sep (r :: l3)).
    rewrite (app_nil_l ((p :: l2) ++ r :: l3)), join_app by done. done.
  - exists (join sep (q :: l1) ++ sep), []. rewrite !app_nil_r.
    rewrite join_app by done. by rewrite <- app_assoc.
  - exists (join sep (q :: l1) ++ sep), (sep ++ join sep (r :: l3)).
    rewrite join_app by done. rewrite join_app by done.
    by rewrite <- !app_assoc.
Qed.

Lemma join_elem (sep x : str) (l : list str) :
  x ∈ l -> exists pre post, join sep l = pre ++ x ++ post.
Proof.
  intros (l1 & l3 & ->)%list_elem_of_split.
  destruct (join_middle sep l1 [x] l3) as (pre & post & Heq).
  by exists pre, post.
Qed.

Lemma re_split_class_not_nil (delims : list char) (cur text : str) :
  re_split_class delims cur text <> [].
Proof.
  intros Hnil. pose proof (re_split_class_length delims cur text) as Hlen.
  by rewrite Hnil in Hlen.
Qed.

(** Joining all the sentences with [。] gives the text back, every
    delimiter replaced by [。]. *)
Lemma join_split_sentences (text : str) :
  join (u "。") (split_sentences text) = Pipeline.normalise text.
Proof.
  unfold split_sentences, Pipeline.normalise.
  change (u "。") with [0x3002%N].
  enough (forall cur,
    join [0x3002%N] (re_split_class sentence_delimiters cur text) =
    cur ++ ((fun c => if decide (c ∈ sentence_delimiters) then 0x3002%N else c) <$> text))
    as Hgen by apply (Hgen []).
  induction text as [|c text IH]; intros cur; cbn [re_split_class].
  - simpl. by rewrite app_nil_r.
  - rewrite fmap_cons. case_bool_decide.
    + rewrite decide_True by done.
      rewrite join_cons by apply re_split_class_not_nil. by rewrite IH.
    + rewrite decide_False by done. by rewrite IH, <- app_assoc.
Qed.

Lemma context_sentences_split (sentences : list str) (i : nat) :
  exists before after, sentences = before ++ context_sentences sentences i ++ after.
Proof.
  unfold context_sentences, slice.
  exists (take (Nat.max 0 (i - 1)) sentences),
         (drop (Nat.min (length sentences) (i + 2) - Nat.max 0 (i - 1))
               (drop (Nat.max 0 (i - 1)) sentences)).
  by rewrite !take_drop.
Qed.

(** X12: the window of a sentence holds one to three sentences, the
    sentence itself among them (three when it has a sentence on each
    side), so the sentence occurs in its context. *)
Theorem context_holds_sentence (sentences : list str) (i : nat) (s : str) :
  sentences !! i = Some s ->
  s ∈ context_sentences sentences i /\
  1 <= length (context_sentences sentences i) <= 3 /\
  (1 <= i -> i + 1 < length sentences -> length (context_sentences sentences i) = 3) /\
  exists pre post, context_of sentences i = pre ++ s ++ post.
Proof.
  intros Hi. pose proof (lookup_lt_Some _ _ _ Hi) as Hlt.
  assert (s ∈ context_sentences sentences i) as Hin.
  { apply list_elem_of_lookup. exists (i - (i - 1)).
    rewrite context_sentences_lookup, decide_True by lia.
    by replace (i - 1 + (i - (i - 1))) with i by lia. }
  split; [done|].
  assert (length (context_sentences sentences i) =
          Nat.min (length sentences) (i + 2) - (i - 1)) as Hlen.
  { unfold context_sentences, slice.
    rewrite Nat.max_0_l, length_take, length_drop. lia. }
  split; [lia|]. split; [lia|].
  unfold context_of. by apply join_elem.
Qed.

(** X13: the context of every event is a span of the chapter text in
    which the delimiters are replaced by [。]. *)
Theorem context_is_span_of_text
    (text : str) (target_variants : list str) (dict : list (str * list str))
    (chapter_num : Z) (e : Interaction) :
  e ∈ identify_interactions_advanced text target_variants dict chapter_num ->
  exists pre post, Pipeline.normalise text = pre ++ context e ++ post.
Proof.
  unfold identify_interactions_advanced. rewrite elem_of_concat_imap.
  intros (i & s & Hi & He).
  apply elem_of_sentence_interactions in He as (_ & name & variants & _ & _ & _ & ->).
  cbn [context interaction_record]. unfold context_of.
  rewrite <- join_split_sentences.
  destruct (context_sentences_split (split_sentences text) i) as (l1 & l3 & Heq).
  destruct (join_middle (u "。") l1 (context_sentences (split_sentences text) i) l3)
    as (pre & post & Hjoin).
  rewrite <- Heq in Hjoin. by exists pre, post.
Qed.

End ContextFacts.

(** ** [main] of the extraction: chapters and aggregation *)

Section PipelineFacts.
Import Py Extraction.

Lemma events_have_chapter (text : str) (target_variants : list str)
    (dict : list (str * list str)) (chapter_num : Z) (e : Interaction) :
  e ∈ identify_interactions_advanced text target_variants dict chapter_num ->
  chapter e = chapter_num.
Proof.
  unfold identify_interactions_advanced. rewrite elem_of_concat_imap.
  intros (i & s & _ & He).
  by apply elem_of_sentence_interactions in He as (_ & ? & ? & _ & _ & _ & ->).
Qed.

Lemma flat_map_StronglySorted {A B} (R : A -> A -> Prop) (key : B -> Z)
    (owner : A -> Z) (f : A -> list B) (l : list A) :
  (forall a b, R a b -> (owner a <= owner b)%Z) ->
  (forall a y, y ∈ f a -> key y = owner a) ->
  StronglySorted R l ->
  StronglySorted Z.le (key <$> flat_map f l).
Proof.
  intros HR Hkey. induction 1 as [|a l Hl IH Ha]; [constructor|].
  cbn [flat_map]. rewrite fmap_app. apply StronglySorted_app_2; [| |exact IH].
  - intros x1 x2 (y1 & -> & Hy1)%list_elem_of_fmap (y2 & -> & Hy2)%list_elem_of_fmap.
    apply list_elem_of_In, in_flat_map in Hy2 as (b & Hb & Hy2).
    rewrite (Hkey a y1 Hy1), (Hkey b y2) by (by apply list_elem_of_In).
    apply HR. rewrite Forall_forall in Ha. apply Ha. by apply list_elem_of_In.
  - assert (Forall (fun y => key y = owner a) (f a)) as Hall
      by (apply Forall_forall; intros y Hy; by apply Hkey).
    induction Hall as [|y ys Hy Hys IHys]; [constructor|].
    rewrite fmap_cons. constructor; [exact IHys|].
    apply Forall_forall. intros z (y' & -> & Hy')%list_elem_of_fmap.
    rewrite Forall_forall in Hys. rewrite Hy, (Hys y' Hy'). done.
Qed.

(** X14: the event stream of [main] holds the events of every chapter,
    and only those, in ascending order of the chapter number. *)
Theorem all_interactions_by_chapter (dict : list (str * list str))
    (target_variants : list str) (chapters : gmap Z str) :
  StronglySorted Z.le (chapter <$> Pipeline.all_interactions dict target_variants chapters) /\
  forall e,
    e ∈ Pipeline.all_interactions dict target_variants chapters <->
    exists chapter_num text,
      chapters !! chapter_num = Some text /\
      e ∈ identify_interactions_advanced text target_variants dict chapter_num.
Proof.
  unfold Pipeline.all_interactions. split.
  - apply (flat_map_StronglySorted
             (fun x y : Z * str => (x.1 <=? y.1)%Z = true) chapter (fun x => x.1)).
    + intros a b. by rewrite Z.leb_le.
    + intros a y Hy. by apply events_have_chapter in Hy.
    + apply sorted_StronglySorted.
      * intros a b. rewrite Z.leb_le, Z.leb_gt. lia.
      * intros a b c. rewrite !Z.leb_le. lia.
  - intros e. rewrite list_elem_of_In, in_flat_map. split.
    + intros ([n text] & Hitem & He).
      apply list_elem_of_In in Hitem. rewrite sorted_Permutation in Hitem.
      apply elem_of_map_to_list in Hitem. exists n, text.
      by rewrite list_elem_of_In.
    + intros (n & text & Hlookup & He). exists (n, text). split.
      * apply list_elem_of_In. rewrite sorted_Permutation.
        by apply elem_of_map_to_list.
      * by apply list_elem_of_In.
Qed.

Lemma total_frequency_table_rows (d : gmap (str * str) AggData) :
  Network.total_frequency (Pipeline.table_rows d) =
  map_fold (fun _ data acc => (Z.of_nat (count data) + acc)%Z) 0%Z d.
Proof.
  unfold Network.total_frequency, Pipeline.table_rows.
  rewrite <- list_fmap_compose.
  apply (sum_map_to_list (fun data => Z.of_nat (count data))).
Qed.

Lemma sum_Permutation (l k : list Z) : l ≡ₚ k -> sum l = sum k.
Proof.
  unfold sum. induction 1 as [|x l k _ IH|x y l|l k m _ IH1 _ IH2]; simpl; lia.
Qed.

Lemma size_list_to_set_le `{Countable T} (l : list T) :
  size (list_to_set l : gset T) <= length l.
Proof.
  induction l as [|x l IH]; [done|]. cbn [list_to_set foldr length].
  change (foldr _ _ l) with (list_to_set l : gset T).
  rewrite size_union_alt, size_singleton.
  pose proof (subseteq_size (list_to_set l ∖ {[x]}) (list_to_set l : gset T)
                (subseteq_difference_l _ _ _ (reflexivity _))). lia.
Qed.

(** X15: aggregation keeps every event. The frequencies of the rows of
    the table add up to the number of raw events, and there are no more
    rows than events. *)
Theorem frequencies_add_up (all_interactions : list Interaction) :
  Network.total_frequency (Pipeline.table_rows (interaction_dict all_interactions)) =
    Z.of_nat (length all_interactions) /\
  length (Pipeline.table_rows (interaction_dict all_interactions))
    <= length all_interactions.
Proof.
  rewrite total_frequency_table_rows. unfold Pipeline.table_rows.
  rewrite length_fmap, length_map_to_list. unfold interaction_dict.
  induction all_interactions as [|e events [IHsum IHsize]] using rev_ind.
  - cbn [foldl]. by rewrite map_fold_empty, map_size_empty.
  - rewrite foldl_snoc, length_app. cbn [length].
    set (d := foldl record_interaction ∅ events) in *.
    unfold record_interaction. split.
    + pose proof (map_fold_Zadd_insert (fun data => Z.of_nat (count data)) d (key_of e)
                    (update_entry (default new_entry (d !! key_of e)) e)) as Hsum.
      cbv beta in Hsum. cbn [update_entry count] in Hsum.
      destruct (d !! key_of e); simpl in Hsum |- *; lia.
    + rewrite map_size_insert. destruct (d !! key_of e); unfold id; lia.
Qed.

(** X16: the chapters of a key are the chapter numbers of its events,
    so the chapter count of a row is at least 1 and at most its
    frequency. *)
Theorem chapters_of_entry (all_interactions : list Interaction) (key : str * str) :
  match interaction_dict all_interactions !! key with
  | Some entry =>
      chapters entry = list_to_set (chapter <$> events_of key all_interactions) /\
      1 <= size (chapters entry) <= count entry
  | None => True
  end.
Proof.
  pose proof (interaction_dict_lookup all_interactions key) as H.
  destruct (interaction_dict all_interactions !! key) as [entry|]; [|done].
  destruct H as [Hne [Hcount _ _ _ Hchapters]]. split; [done|].
  rewrite Hchapters, Hcount. split.
  - destruct (events_of key all_interactions) as [|e evs]; [done|].
    rewrite fmap_cons. cbn [list_to_set foldr].
    rewrite size_union_alt, size_singleton. lia.
  - rewrite <- (length_fmap chapter). apply size_list_to_set_le.
Qed.

(** X17: the frequency, the chapters and the type counts of a key do not
    depend on the order of the events; only the contexts do. *)
Theorem aggregation_order_insensitive
    (events1 events2 : list Interaction) (key : str * str) :
  events1 ≡ₚ events2 ->
  match interaction_dict events1 !! key, interaction_dict events2 !! key with
  | Some entry1, Some entry2 =>
      count entry1 = count entry2 /\
      chapters entry1 = chapters entry2 /\
      forall t, default 0 (types entry1 !! t) = default 0 (types entry2 !! t)
  | None, None => True
  | _, _ => False
  end.
Proof.
  intros Hperm.
  assert (events_of key events1 ≡ₚ events_of key events2) as Hkey
    by (unfold events_of; by rewrite Hperm).
  pose proof (interaction_dict_lookup events1 key) as H1.
  pose proof (interaction_dict_lookup events2 key) as H2.
  destruct (interaction_dict events1 !! key) as [entry1|],
           (interaction_dict events2 !! key) as [entry2|].
  - destruct H1 as [_ [Hc1 _ Ht1 _ Hch1]], H2 as [_ [Hc2 _ Ht2 _ Hch2]].
    split; [|split].
    + rewrite Hc1, Hc2. by apply Permutation_length.
    + rewrite Hch1, Hch2. apply leibniz_equiv. by rewrite Hkey.
    + intros t. rewrite Ht1, Ht2. apply Permutation_length. by rewrite Hkey.
  - destruct H1 as [Hne _]. rewrite H2 in Hkey.
    by apply Permutation_nil_r in Hkey.
  - destruct H2 as [Hne _]. rewrite H1 in Hkey.
    by apply Permutation_nil_l in Hkey.
  - done.
Qed.

End PipelineFacts.

(** ** The built graph: nodes, and the table of the aggregator *)

Section GraphFacts.
Import Py Network.

Lemma is_Some_add_node_iff (G : nx.DiGraph) (n x : str) :
  is_Some (nx.adj (nx.add_node G n) !! x) <-> x = n \/ is_Some (nx.adj G !! x).
Proof.
  unfold nx.add_node. destruct (nx.adj G !! n) eqn:Hn.
  - split; [by right|]. intros [->|?]; [by rewrite Hn | done].
  - cbn [nx.adj]. rewrite lookup_insert_is_Some.
    destruct (decide (n = x)) as [->|]; intuition congruence.
Qed.

Lemma add_row_nodes (G G' : nx.DiGraph) (row : Row) :
  add_row G row = Ok G' ->
  forall n,
    is_Some (nx.adj G' !! n) <->
    is_Some (nx.adj G !! n) \/ n = Source row \/
    (nx.has_edge G (Source row) (Target row) = false /\ n = Target row).
Proof.
  unfold add_row. destruct row as [s t w]. cbn [Source Target Frequency].
  destruct (nx.has_edge G s t) eqn:Hedge.
  - unfold add_weight, getitem.
    destruct (nx.adj G !! s) as [nbrs|] eqn:Hs; [|done]. simpl.
    destruct (nbrs !! t) as [d|]; [|done]. simpl.
    destruct (d !! "weight"); [|done]. simpl. intros [= <-] n. cbn [nx.adj].
    rewrite lookup_insert_is_Some. split.
    + intros [<-|[_ ?]]; [right; by left | by left].
    + intros [?|[->|[? _]]]; [|by left|done].
      destruct (decide (s = n)) as [->|]; [by left | by right].
  - intros [= <-] n. unfold nx.add_edge. cbn [nx.adj].
    rewrite lookup_insert_is_Some, !is_Some_add_node_iff.
    destruct (decide (s = n)) as [->|]; intuition congruence.
Qed.

(** The nodes of the graph are the sources and the targets of the rows. *)
Lemma build_network_nodes (rows : list Row) :
  exists G,
    build_network rows = Ok G /\ built rows G /\
    forall n, is_Some (nx.adj G !! n) <-> n ∈ Source <$> rows \/ n ∈ Target <$> rows.
Proof.
  unfold build_network. induction rows as [|row rows IH] using rev_ind.
  - exists nx.empty. split; [done|]. split; [apply built_nil|].
    intros n. unfold nx.empty. cbn [nx.adj]. rewrite lookup_empty.
    split; [by intros [? ?] | by intros [?%not_elem_of_nil|?%not_elem_of_nil]].
  - destruct IH as (G & HG & Hbuilt & Hnodes).
    destruct (built_snoc rows G row Hbuilt) as (G' & Hrow & Hbuilt').
    exists G'. split; [by rewrite add_rows_snoc, HG|]. split; [done|].
    intros n. rewrite (add_row_nodes G G' row Hrow n), Hnodes, !fmap_app.
    change (Source <$> [row]) with [Source row].
    change (Target <$> [row]) with [Target row].
    rewrite !elem_of_app, !list_elem_of_singleton.
    rewrite (built_has_edge rows G _ _ Hbuilt). split.
    + intros [[?|?]|[->|[_ ->]]]; auto.
    + intros [[? | ->] | [? | ->]]; auto.
      case_bool_decide as Hkey; [|auto].
      apply elem_of_list_to_set, list_elem_of_fmap in Hkey as (row' & Hkey & Hin).
      left. right. apply list_elem_of_fmap. exists row'.
      split; [|done]. unfold row_key in Hkey. congruence.
Qed.

(** X18: the nodes of the built graph are exactly the names that occur
    as source or as target of a row. *)
Theorem build_network_node_set (rows : list Row) :
  exists G,
    build_network rows = Ok G /\
    forall n, nx.has_node G n = true <-> n ∈ Source <$> rows \/ n ∈ Target <$> rows.
Proof.
  destruct (build_network_nodes rows) as (G & HG & _ & Hnodes).
  exists G. split; [done|]. intros n. unfold nx.has_node.
  by rewrite bool_decide_eq_true, Hnodes.
Qed.

Lemma rows_of_table_rows (d : gmap (str * str) Extraction.AggData) (key : str * str) :
  total_frequency (rows_of key (Pipeline.table_rows d)) =
  from_option (fun entry => Z.of_nat (Extraction.count entry)) 0%Z (d !! key).
Proof.
  induction d as [|k entry d Hk IH] using map_ind.
  - unfold Pipeline.table_rows. by rewrite map_to_list_empty, lookup_empty.
  - assert (rows_of key (Pipeline.table_rows (<[k:=entry]> d)) ≡ₚ
            rows_of key (Pipeline.interaction_row k entry :: Pipeline.table_rows d))
      as Hperm.
    { unfold rows_of, Pipeline.table_rows.
      by rewrite map_to_list_insert by done. }
    unfold total_frequency in *. rewrite (sum_Permutation _ _ (fmap_Permutation _ _ _ Hperm)).
    unfold rows_of in *. rewrite filter_cons.
    change (row_key (Pipeline.interaction_row k entry)) with (k.1, k.2).
    destruct k as [s t]. cbn [fst snd].
    destruct (decide ((s, t) = key)) as [<-|Hne].
    + rewrite lookup_insert_eq, fmap_cons.
      change (sum (?x :: ?l)) with (x + sum l)%Z.
      rewrite IH, Hk. simpl. lia.
    + rewrite lookup_insert_ne by done. exact IH.
Qed.

Lemma distinct_keys_table_rows (d : gmap (str * str) Extraction.AggData) :
  distinct_keys (Pipeline.table_rows d) = dom d.
Proof.
  unfold distinct_keys, Pipeline.table_rows. rewrite <- list_fmap_compose.
  rewrite (list_fmap_ext _ fst (map_to_list d)) by (by intros i [[s t] entry] _).
  apply leibniz_equiv. by rewrite dom_alt.
Qed.

(** X19: from the events to the graph. Whatever the order of the rows of
    the table, the graph built from it has one edge per key of the event
    stream, and the weight of the edge is the number of events of the
    key. *)
Theorem graph_of_events (all_interactions : list Extraction.Interaction)
    (rows : list Row) :
  rows ≡ₚ Pipeline.table_rows (Extraction.interaction_dict all_interactions) ->
  exists G,
    build_network rows = Ok G /\
    nx.number_of_edges G = size (Extraction.interaction_dict all_interactions) /\
    forall source target,
      nx.edge_weight G source target =
      if decide (Extraction.events_of (source, target) all_interactions = [])
      then Raise KeyError
      else Ok (Z.of_nat (length (Extraction.events_of (source, target) all_interactions))).
Proof.
  intros Hperm. set (d := Extraction.interaction_dict all_interactions) in *.
  destruct (build_network_weights rows) as (G & HG & _ & Hedges & Hweights).
  assert (distinct_keys rows = dom d) as Hkeys.
  { rewrite <- distinct_keys_table_rows. unfold distinct_keys.
    apply leibniz_equiv. by rewrite Hperm. }
  exists G. split; [done|]. split.
  { by rewrite Hedges, Hkeys, size_dom. }
  intros s t. destruct (Hweights s t) as [_ ->]. rewrite Hkeys.
  assert (total_frequency (rows_of (s, t) rows) =
          from_option (fun entry => Z.of_nat (Extraction.count entry)) 0%Z (d !! (s, t)))
    as Htotal.
  { rewrite <- rows_of_table_rows. unfold total_frequency, rows_of.
    apply sum_Permutation. by rewrite Hperm. }
  rewrite Htotal.
  pose proof (interaction_dict_lookup all_interactions (s, t)) as Hlookup.
  fold d in Hlookup.
  destruct (d !! (s, t)) as [entry|] eqn:Hd.
  - destruct Hlookup as [Hne [Hcount _ _ _ _]].
    rewrite decide_True by (apply elem_of_dom; by rewrite Hd).
    rewrite decide_False by done. simpl. by rewrite Hcount.
  - rewrite decide_False by (rewrite elem_of_dom, Hd; by intros [? ?]).
    by rewrite decide_True.
Qed.

End GraphFacts.

(** ** The two metrics functions on one graph *)

Section MetricsAgree.
Import Py Network.
Context `{alg : nx.Algorithms}.

Lemma out_weight_default_weighted (G : nx.DiGraph) (node : str) :
  weighted G -> out_weight_default G node = out_weight G node.
Proof.
  intros Hw. unfold out_weight_default, out_weight.
  rewrite <- (sum_map_to_list (fun d : gmap string Z => default 0%Z (d !! "weight"))).
  f_equal. apply list_fmap_ext. intros i [v d] Hi. simpl.
  apply list_elem_of_lookup_2, elem_of_map_to_list in Hi.
  by destruct (Hw node v d Hi) as [w ->].
Qed.

Lemma calculate_centrality_metrics_structural (G : nx.DiGraph) (target_char : str) :
  weighted G -> nx.has_node G target_char = true ->
  exists metrics,
    calculate_centrality_metrics G target_char = Ok metrics /\
    metrics !! "weighted_degree" = Some (Int (out_weight G target_char)) /\
    metrics !! "in_degree" = Some (Int (Z.of_nat (nx.in_degree G target_char))) /\
    metrics !! "out_degree" = Some (Int (Z.of_nat (nx.out_degree G target_char))) /\
    metrics !! "total_degree" = Some (Int (Z.of_nat (nx.degree G target_char))) /\
    metrics !! "betweenness_centrality" =
      Some (guarded (nx.betweenness_centrality G) target_char) /\
    metrics !! "closeness_centrality" =
      Some (guarded (nx.closeness_centrality G) target_char) /\
    metrics !! "eigenvector_centrality" =
      Some (guarded (nx.eigenvector_centrality G) target_char) /\
    metrics !! "pagerank" = Some (guarded (nx.pagerank G) target_char) /\
    metrics !! "clustering_coefficient" =
      Some (guarded (nx.clustering_undirected G) target_char).
Proof.
  intros Hw Hn. unfold calculate_centrality_metrics.
  rewrite Hn, (weighted_degree_sum_ok G target_char Hw Hn). simpl.
  eexists. split; [reflexivity|].
  repeat split; repeat (rewrite lookup_insert_ne by done); by rewrite lookup_insert_eq.
Qed.

Lemma nodes_NoDup (G : nx.DiGraph) : NoDup (nx.nodes G).
Proof. apply NoDup_fst_map_to_list. Qed.

Lemma has_node_nodes (G : nx.DiGraph) (n : str) :
  nx.has_node G n = true <-> n ∈ nx.nodes G.
Proof.
  unfold nx.has_node, nx.nodes. rewrite bool_decide_eq_true, list_elem_of_fmap. split.
  - intros [nbrs Hn]. exists (n, nbrs). split; [done|]. by apply elem_of_map_to_list.
  - intros ([n' nbrs] & -> & Hin). apply elem_of_map_to_list in Hin. by exists nbrs.
Qed.

(** Every node has a record, which holds its structural metrics whether
    the centralities were stored or not. *)
Lemma get_all_centrality_metrics_node (G : nx.DiGraph) (node : str) :
  nx.has_node G node = true ->
  exists all_metrics metrics,
    get_all_centrality_metrics G = Ok all_metrics /\
    all_metrics !! node = Some metrics /\
    metrics !! "weighted_degree" = Some (Int (out_weight_default G node)) /\
    metrics !! "in_degree" = Some (Int (Z.of_nat (nx.in_degree G node))) /\
    metrics !! "out_degree" = Some (Int (Z.of_nat (nx.out_degree G node))) /\
    metrics !! "degree" = Some (Int (Z.of_nat (nx.degree G node))).
Proof.
  intros Hnode%has_node_nodes. unfold get_all_centrality_metrics.
  rewrite (traverse_ok _
    (fun n => (n, structural_metrics G n (out_weight_default G n))))
    by (intros n Hn; by rewrite (node_metrics_ok G n Hn)).
  cbn [bind].
  set (rows := (fun n => (n, structural_metrics G n (out_weight_default G n)))
                 <$> nx.nodes G).
  assert ((list_to_map rows : gmap str (gmap string number)) !! node =
          Some (structural_metrics G node (out_weight_default G node))) as Hbase.
  { apply elem_of_list_to_map_1.
    - unfold rows. rewrite <- list_fmap_compose, (list_fmap_ext _ id) by done.
      rewrite list_fmap_id. apply nodes_NoDup.
    - unfold rows. apply list_elem_of_fmap. by exists node. }
  destruct (nx.betweenness_centrality G) as [bc|]; cbn [bind try_except];
    [destruct (nx.closeness_centrality G) as [cc|]; cbn [bind try_except]|].
  - eexists _, _. split; [reflexivity|]. split.
    + unfold store_centralities. rewrite map_lookup_imap, Hbase. reflexivity.
    + unfold structural_metrics.
      repeat split; repeat (rewrite lookup_insert_ne by done); by rewrite lookup_insert_eq.
  - eexists _, _. split; [reflexivity|]. split; [exact Hbase|].
    unfold structural_metrics.
    repeat split; repeat (rewrite lookup_insert_ne by done); by rewrite lookup_insert_eq.
  - eexists _, _. split; [reflexivity|]. split; [exact Hbase|].
    unfold structural_metrics.
    repeat split; repeat (rewrite lookup_insert_ne by done); by rewrite lookup_insert_eq.
Qed.

(** X20: on a built graph the table of all nodes and the record of the
    focal character agree. For every node both functions return, and
    they report the same weighted degree, in-degree, out-degree and total
    degree for it. *)
Theorem metrics_functions_agree (rows : list Row) (node : str) :
  exists G,
    build_network rows = Ok G /\
    (nx.has_node G node = true ->
     exists all_metrics node_record metrics,
       get_all_centrality_metrics G = Ok all_metrics /\
       all_metrics !! node = Some node_record /\
       calculate_centrality_metrics G node = Ok metrics /\
       node_record !! "weighted_degree" = metrics !! "weighted_degree" /\
       node_record !! "in_degree" = metrics !! "in_degree" /\
       node_record !! "out_degree" = metrics !! "out_degree" /\
       node_record !! "degree" = metrics !! "total_degree").
Proof.
  destruct (build_network_built rows) as (G & HG & Hbuilt).
  exists G. split; [done|]. intros Hnode.
  pose proof (built_weighted _ _ Hbuilt) as Hw.
  destruct (get_all_centrality_metrics_node G node Hnode)
    as (all_metrics & node_record & Hall & Hlookup & Hwd & Hin & Hout & Hdeg).
  destruct (calculate_centrality_metrics_structural G node Hw Hnode)
    as (metrics & Hm & Hwd' & Hin' & Hout' & Htotal & _).
  exists all_metrics, node_record, metrics.
  rewrite Hwd, Hin, Hout, Hdeg, Hwd', Hin', Hout', Htotal.
  by rewrite (out_weight_default_weighted G node Hw).
Qed.

(** X21: when the focal character is a node of a built graph the metrics
    are returned whatever the five guarded routines do; a routine that
    fails gives 0 for its own metric and leaves the others as computed. *)
Theorem guarded_routines_isolated (rows : list Row) (target_char : str) :
  exists G,
    build_network rows = Ok G /\
    (nx.has_node G target_char = true ->
     exists metrics,
       calculate_centrality_metrics G target_char = Ok metrics /\
       Forall (fun entry =>
                 metrics !! entry.1 =
                 Some match entry.2 with
                      | Ok values => get_or_zero values target_char
                      | Raise _ => Int 0
                      end)
         [ ("betweenness_centrality", nx.betweenness_centrality G);
           ("closeness_centrality", nx.closeness_centrality G);
           ("eigenvector_centrality", nx.eigenvector_centrality G);
           ("pagerank", nx.pagerank G);
           ("clustering_coefficient", nx.clustering_undirected G) ]).
Proof.
  destruct (build_network_built rows) as (G & HG & Hbuilt).
  exists G. split; [done|]. intros Hnode.
  destruct (calculate_centrality_metrics_structural G target_char
              (built_weighted _ _ Hbuilt) Hnode)
    as (metrics & Hm & _ & _ & _ & _ & Hb & Hc & He & Hp & Hcl).
  exists metrics. split; [done|].
  repeat constructor; cbn [fst snd].
  - rewrite Hb. unfold guarded. by destruct (nx.betweenness_centrality G).
  - rewrite Hc. unfold guarded. by destruct (nx.closeness_centrality G).
  - rewrite He. unfold guarded. by destruct (nx.eigenvector_centrality G).
  - rewrite Hp. unfold guarded. by destruct (nx.pagerank G).
  - rewrite Hcl. unfold guarded. by destruct (nx.clustering_undirected G).
Qed.

End MetricsAgree.

(** ** The chart data *)

Section ChartFacts.
Import Py Charts.

Lemma dict_get_set (k k' : str) (v : Z) (d : list (str * Z)) :
  dict_get k (dict_set k' v d) = if decide (k = k') then Some v else dict_get k d.
Proof.
  induction d as [|[k0 v0] d IH]; cbn [dict_set dict_get].
  - done.
  - destruct (decide (k' = k0)) as [->|Hne]; cbn [dict_get].
    + by destruct (decide (k = k0)).
    + rewrite IH. destruct (decide (k = k0)) as [->|]; [|done].
      by rewrite decide_False.
Qed.

Lemma dict_get_is_Some (k : str) (d : list (str * Z)) :
  is_Some (dict_get k d) <-> k ∈ d.*1.
Proof.
  induction d as [|[k0 v0] d IH]; cbn [dict_get].
  - split; [by intros [? ?] | by intros ?%not_elem_of_nil].
  - rewrite fmap_cons, elem_of_cons. cbn [fst].
    destruct (decide (k = k0)) as [->|Hne]; [by split; eauto|].
    rewrite IH. intuition congruence.
Qed.

Lemma dict_set_keys {V} (k : str) (v : V) (d : list (str * V)) :
  (dict_set k v d).*1 = if decide (k ∈ d.*1) then d.*1 else d.*1 ++ [k].
Proof.
  induction d as [|[k0 v0] d IH]; cbn [dict_set].
  - rewrite decide_False; [done | apply not_elem_of_nil].
  - rewrite fmap_cons. cbn [fst]. destruct (decide (k = k0)) as [->|Hne].
    + rewrite decide_True; [done | apply list_elem_of_here].
    + rewrite fmap_cons, IH. cbn [fst]. destruct (decide (k ∈ d.*1)).
      * rewrite decide_True; [done | by apply list_elem_of_further].
      * rewrite decide_False; [done|]. by intros [?|?]%elem_of_cons.
Qed.

Lemma interaction_freq_lookup (rows : list Network.Row) (target : str) :
  dict_get target (interaction_freq rows) =
  Network.Frequency <$> last (filter (fun row => Network.Target row = target) rows).
Proof.
  unfold interaction_freq. induction rows as [|row rows IH] using rev_ind; [done|].
  rewrite foldl_snoc, dict_get_set, IH, filter_app, filter_cons, filter_nil.
  destruct (decide (target = Network.Target row)) as [->|Hne].
  - rewrite decide_True by done. by rewrite last_snoc.
  - rewrite decide_False by congruence. by rewrite app_nil_r.
Qed.

Lemma interaction_freq_NoDup (rows : list Network.Row) :
  NoDup (interaction_freq rows).*1.
Proof.
  unfold interaction_freq. induction rows as [|row rows IH] using rev_ind.
  - constructor.
  - rewrite foldl_snoc, dict_set_keys. case_decide; [done|].
    apply NoDup_app. split; [done|]. split; [|apply NoDup_singleton].
    by intros x Hx ->%list_elem_of_singleton.
Qed.

Lemma interaction_freq_keys (rows : list Network.Row) (target : str) :
  target ∈ (interaction_freq rows).*1 <-> target ∈ Network.Target <$> rows.
Proof.
  rewrite <- dict_get_is_Some, interaction_freq_lookup, list_elem_of_fmap.
  rewrite fmap_is_Some. split.
  - intros [row Hlast]. exists row. apply last_Some_elem_of in Hlast.
    by apply list_elem_of_filter in Hlast as [-> ?].
  - intros (row & -> & Hin).
    destruct (filter (fun r => Network.Target r = Network.Target row) rows)
      as [|r l] eqn:Hf using rev_ind.
    + assert (row ∈ filter (fun r => Network.Target r = Network.Target row) rows)
        as Hrow by (by apply list_elem_of_filter).
      rewrite Hf in Hrow. by apply not_elem_of_nil in Hrow.
    + rewrite last_snoc. by eexists.
Qed.

(** X22: the chart keeps, for a character, the frequency of the last row
    that has it as target; rows of one target are not added up as they
    are for the weight of the edge, and the source is not looked at. *)
Theorem chart_frequency_last_row (rows : list Network.Row) (target : str) :
  dict_get target (interaction_freq rows) =
  Network.Frequency <$> last (filter (fun row => Network.Target row = target) rows).
Proof. apply interaction_freq_lookup. Qed.

Lemma zip_fmap_same {A B} (g : A -> B) (l : list A) :
  zip l (g <$> l) = (fun x => (x, g x)) <$> l.
Proof. induction l as [|x l IH]; [done|]. simpl. f_equal. exact IH. Qed.

(** X23: the bars of the chart. The unpacking raises [ValueError]
    exactly when no row has a target other than the focal character (an
    empty table included). Otherwise there is at least one bar, and the
    names are the targets other than the focal character, each once, with
    the frequency kept for them, by decreasing frequency. *)
Theorem sorted_bars_spec (rows : list Network.Row) (target_char : str) :
  match sorted_bars rows target_char with
  | inl e =>
      e = ValueError /\
      Forall (fun row => Network.Target row = target_char) rows
  | inr (nodes, freqs) =>
      Exists (fun row => Network.Target row <> target_char) rows /\
      nodes <> [] /\
      length freqs = length nodes /\
      nodes ≡ₚ nodes_to_show rows target_char /\
      NoDup nodes /\
      (forall node, node ∈ nodes <->
                    node <> target_char /\ node ∈ Network.Target <$> rows) /\
      Forall2 (fun node freq => dict_get node (interaction_freq rows) = Some freq)
              nodes freqs /\
      StronglySorted (fun a b => (b <= a)%Z) freqs
  end.
Proof.
  unfold sorted_bars, frequencies. rewrite zip_fmap_same.
  match goal with
  | |- context [Selection.sorted ?b ?p] => set (before := b); set (pairs := p)
  end.
  pose proof (sorted_Permutation before pairs) as Hperm.
  assert (StronglySorted (fun a b => before a b = true) (Selection.sorted before pairs))
    as Hss.
  { apply sorted_StronglySorted.
    - intros a b. unfold before. rewrite Z.leb_le, Z.leb_gt. lia.
    - intros a b c. unfold before. rewrite !Z.leb_le. lia. }
  assert (forall node, node ∈ nodes_to_show rows target_char <->
                       node <> target_char /\ node ∈ Network.Target <$> rows) as Hshow.
  { intros node. unfold nodes_to_show.
    by rewrite list_elem_of_filter, interaction_freq_keys. }
  destruct (Selection.sorted before pairs) as [|p data].
  - split; [reflexivity|].
    apply Permutation_nil_l in Hperm. symmetry in Hperm. unfold pairs in Hperm.
    apply fmap_nil_inv in Hperm.
    apply Forall_forall. intros row Hrow.
    destruct (decide (Network.Target row = target_char)) as [|Hne]; [done|].
    assert (Network.Target row ∈ nodes_to_show rows target_char) as Hin.
    { apply Hshow. split; [done|]. by apply list_elem_of_fmap_2. }
    rewrite Hperm in Hin. by apply not_elem_of_nil in Hin.
  - cbv beta iota. set (sd := p :: data) in *.
    assert (sd.*1 ≡ₚ nodes_to_show rows target_char) as Hnodes.
    { rewrite Hperm. unfold pairs. rewrite <- list_fmap_compose.
      rewrite (list_fmap_ext _ id) by done. by rewrite list_fmap_id. }
    split.
    { assert (p.1 ∈ sd.*1) as Hp by (unfold sd; rewrite fmap_cons; apply list_elem_of_here).
      rewrite Hnodes in Hp. apply Hshow in Hp as [Hne Hp].
      apply list_elem_of_fmap in Hp as (row & Heq & Hrow).
      apply Exists_exists. exists row. split; [done | congruence]. }
    split; [done|]. split; [by rewrite !length_fmap|].
    split; [exact Hnodes|]. split.
    { rewrite Hnodes. unfold nodes_to_show. apply NoDup_filter, interaction_freq_NoDup. }
    split; [intros node; by rewrite Hnodes|]. split.
    + apply Forall2_fmap, Forall_Forall2_diag, Forall_forall.
      intros [node freq] Hin. cbn [fst snd]. rewrite Hperm in Hin.
      apply list_elem_of_fmap in Hin as (node' & [= -> ->] & Hin).
      apply Hshow in Hin as [_ Hin]. apply interaction_freq_keys in Hin.
      apply dict_get_is_Some in Hin as [freq Hfreq]. by rewrite Hfreq.
    + apply (StronglySorted_fmap snd (fun a b => before a b = true)); [|done].
      intros a b. unfold before. by rewrite Z.leb_le.
Qed.

End ChartFacts.

(** ** The global properties of [4_advanced_network_analysis.py] *)

Section PropertiesFacts.
Import Py AdvancedAnalysis.
Context `{routines : GlobalRoutines}.

Lemma foldl_max_upper (l : list nat) (x : nat) :
  x <= foldl Nat.max x l /\ Forall (fun y => y <= foldl Nat.max x l) l.
Proof.
  revert x. induction l as [|y l IH]; intros x; cbn [foldl].
  - split; [lia|constructor].
  - destruct (IH (Nat.max x y)) as [Hx Hl]. split; [lia|].
    constructor; [lia|exact Hl].
Qed.

Lemma foldl_max_elem (l : list nat) (x : nat) : foldl Nat.max x l ∈ x :: l.
Proof.
  revert x. induction l as [|y l IH]; intros x; cbn [foldl].
  - apply list_elem_of_here.
  - specialize (IH (Nat.max x y)). apply elem_of_cons in IH as [Heq | Hin].
    + rewrite Heq. destruct (Nat.max_spec x y) as [[_ ->] | [_ ->]].
      * apply list_elem_of_further, list_elem_of_here.
      * apply list_elem_of_here.
    + by do 2 apply list_elem_of_further.
Qed.

Lemma foldl_min_lower (l : list nat) (x : nat) :
  foldl Nat.min x l <= x /\ Forall (fun y => foldl Nat.min x l <= y) l.
Proof.
  revert x. induction l as [|y l IH]; intros x; cbn [foldl].
  - split; [lia|constructor].
  - destruct (IH (Nat.min x y)) as [Hx Hl]. split; [lia|].
    constructor; [lia|exact Hl].
Qed.

Lemma foldl_min_elem (l : list nat) (x : nat) : foldl Nat.min x l ∈ x :: l.
Proof.
  revert x. induction l as [|y l IH]; intros x; cbn [foldl].
  - apply list_elem_of_here.
  - specialize (IH (Nat.min x y)). apply elem_of_cons in IH as [Heq | Hin].
    + rewrite Heq. destruct (Nat.min_spec x y) as [[_ ->] | [_ ->]].
      * apply list_elem_of_here.
      * apply list_elem_of_further, list_elem_of_here.
    + by do 2 apply list_elem_of_further.
Qed.

(** X24: [calculate_network_properties] raises [ValueError] exactly on the
    graph without nodes ([max] of an empty degree sequence), whatever the
    library routines do.  On any other graph it returns; every node's
    degree then lies between [min_degree] and [max_degree], each of the
    two is the degree of some node, and a graph reported strongly
    connected is given one strongly connected component. *)
Theorem calculate_network_properties_spec (G : nx.DiGraph) :
  match calculate_network_properties G with
  | inl e => e = ValueError /\ nx.number_of_nodes G = 0
  | inr p =>
      num_nodes p = length (nx.nodes G) /\
      0 < num_nodes p /\
      (forall n, nx.has_node G n = true ->
                 min_degree p <= nx.degree G n <= max_degree p) /\
      (exists n, nx.has_node G n = true /\ nx.degree G n = max_degree p) /\
      (exists n, nx.has_node G n = true /\ nx.degree G n = min_degree p) /\
      (strongly_connected p = true -> num_strongly_connected_components p = 1)
  end.
Proof.
  unfold calculate_network_properties.
  assert (nx.number_of_nodes G = length (nx.nodes G)) as Hsize.
  { unfold nx.number_of_nodes, nx.nodes.
    by rewrite length_fmap, length_map_to_list. }
  destruct (nx.nodes G) as [|n0 ns] eqn:Hnodes.
  - cbn [fmap list_fmap py_max]. by split.
  - change (nx.degree G <$> n0 :: ns)
      with (nx.degree G n0 :: (nx.degree G <$> ns)).
    cbn [py_max py_min num_nodes min_degree max_degree strongly_connected
         num_strongly_connected_components].
    set (ds := nx.degree G <$> ns).
    destruct (foldl_max_upper ds (nx.degree G n0)) as [Hmax0 Hmax].
    destruct (foldl_min_lower ds (nx.degree G n0)) as [Hmin0 Hmin].
    rewrite Forall_forall in Hmax, Hmin.
    split; [exact Hsize|]. split; [rewrite Hsize; cbn [length]; lia|].
    split; [|split; [|split]].
    + intros n Hn. apply has_node_nodes in Hn. rewrite Hnodes in Hn.
      apply elem_of_cons in Hn as [-> | Hn]; [lia|].
      assert (nx.degree G n ∈ ds) as Hin by by apply list_elem_of_fmap_2.
      specialize (Hmax _ Hin). specialize (Hmin _ Hin). lia.
    + pose proof (foldl_max_elem ds (nx.degree G n0)) as Hin.
      change (nx.degree G n0 :: ds) with (nx.degree G <$> n0 :: ns) in Hin.
      apply list_elem_of_fmap in Hin as (n & Heq & Hn).
      exists n. split; [|done]. apply has_node_nodes. by rewrite Hnodes.
    + pose proof (foldl_min_elem ds (nx.degree G n0)) as Hin.
      change (nx.degree G n0 :: ds) with (nx.degree G <$> n0 :: ns) in Hin.
      apply list_elem_of_fmap in Hin as (n & Heq & Hn).
      exists n. split; [|done]. apply has_node_nodes. by rewrite Hnodes.
    + by intros ->.
Qed.

End PropertiesFacts.

(** ** The filtered graph *)

Section FilterFacts.
Import Py Visualization.

Lemma elem_of_edges (G : nx.DiGraph) (u v : str) (data : gmap string Z) :
  (u, v, data) ∈ edges G <-> nx.adjacency G u !! v = Some data.
Proof.
  unfold edges, nx.adjacency. rewrite list_elem_of_In, in_flat_map. split.
  - intros ([u' nbrs] & Hu & Hin). apply list_elem_of_In, elem_of_map_to_list in Hu.
    apply list_elem_of_In, list_elem_of_fmap in Hin as ([v' data'] & [= -> -> ->] & Hin).
    apply elem_of_map_to_list in Hin. cbn [fst] in Hu. by rewrite Hu.
  - intros Hlookup. destruct (nx.adj G !! u) as [nbrs|] eqn:Hu.
    + exists (u, nbrs). split.
      * by apply list_elem_of_In, elem_of_map_to_list.
      * apply list_elem_of_In, list_elem_of_fmap. exists (v, data).
        split; [done|]. by apply elem_of_map_to_list.
    + simpl in Hlookup. by rewrite lookup_empty in Hlookup.
Qed.

Lemma NoDup_flat_edges (items : list (str * gmap str (gmap string Z))) :
  NoDup items.*1 ->
  NoDup (flat_map (fun item => (fun nbr => (item.1, nbr.1, nbr.2)) <$> map_to_list item.2)
                  items).*1.
Proof.
  induction items as [|[u nbrs] items IH]; intros Hnodup; [constructor|].
  cbn [flat_map fst snd]. rewrite fmap_app.
  rewrite fmap_cons in Hnodup. apply NoDup_cons in Hnodup as [Hu Hnodup].
  apply NoDup_app. split; [|split].
  - rewrite <- list_fmap_compose.
    rewrite (list_fmap_ext _ (pair u ∘ fst) (map_to_list nbrs)) by by intros ? [].
    rewrite list_fmap_compose. apply NoDup_fmap_2; [|apply NoDup_fst_map_to_list].
    by intros ? ? [= ->].
  - intros [u' v'] Hin1 Hin2.
    apply list_elem_of_fmap in Hin1 as ([[u1 v1] d1] & [= -> ->] & Hin1).
    apply list_elem_of_fmap in Hin1 as ([v2 d2] & [= -> -> ->] & _).
    apply list_elem_of_fmap in Hin2 as ([[u3 v3] d3] & [= -> ->] & Hin2).
    apply list_elem_of_In, in_flat_map in Hin2 as ([u4 nbrs4] & Hitem & Hin2).
    apply list_elem_of_In, list_elem_of_fmap in Hin2 as ([v5 d5] & [= -> -> ->] & _).
    apply Hu. apply list_elem_of_In in Hitem. by apply (list_elem_of_fmap_2 fst) in Hitem.
  - by apply IH.
Qed.

Lemma NoDup_edges (G : nx.DiGraph) : NoDup (edges G).*1.
Proof. apply NoDup_flat_edges, NoDup_fst_map_to_list. Qed.

Lemma adjacency_add_edge_data (G : nx.DiGraph) (u v : str) (data : gmap string Z)
    (x y : str) :
  nx.adjacency (add_edge_data G u v data) x !! y =
  if decide (x = u /\ y = v)
  then Some (data ∪ default ∅ (nx.adjacency G u !! v))
  else nx.adjacency G x !! y.
Proof.
  unfold add_edge_data. unfold nx.adjacency at 1. cbn [nx.adj].
  fold (nx.adjacency (nx.add_node (nx.add_node G u) v) u).
  rewrite !adjacency_add_node.
  destruct (decide (x = u)) as [->|Hx].
  - rewrite lookup_insert_eq. cbn [from_option id].
    destruct (decide (y = v)) as [->|Hy].
    + rewrite lookup_insert_eq. by rewrite decide_True.
    + rewrite lookup_insert_ne by done. rewrite decide_False; [done | intuition].
  - rewrite lookup_insert_ne by done.
    fold (nx.adjacency (nx.add_node (nx.add_node G u) v) x).
    rewrite !adjacency_add_node. rewrite decide_False; [done | intuition].
Qed.

Lemma is_Some_add_edge_data (G : nx.DiGraph) (u v : str) (data : gmap string Z)
    (n : str) :
  is_Some (nx.adj (add_edge_data G u v data) !! n) <->
  n = u \/ n = v \/ is_Some (nx.adj G !! n).
Proof.
  unfold add_edge_data. cbn [nx.adj]. rewrite lookup_insert_is_Some.
  rewrite !is_Some_add_node_iff.
  destruct (decide (u = n)) as [->|]; intuition congruence.
Qed.

(** The loop over a list of edges with pairwise different ends. *)
Lemma filter_loop (es : list (str * str * gmap string Z)) :
  NoDup es.*1 ->
  let filtered :=
    foldl (fun filtered edge =>
             if main_connection edge.2
             then add_edge_data filtered edge.1.1 edge.1.2 edge.2
             else filtered) nx.empty es in
  (forall u v data,
     nx.adjacency filtered u !! v = Some data <->
     (u, v, data) ∈ es /\ main_connection data = true) /\
  (forall n,
     is_Some (nx.adj filtered !! n) <->
     exists u v data,
       (u, v, data) ∈ es /\ main_connection data = true /\ (n = u \/ n = v)).
Proof.
  induction es as [|[[u0 v0] d0] es IH] using rev_ind; intros Hnodup filtered.
  - split.
    + intros u v data. unfold filtered, nx.adjacency. cbn [foldl nx.empty nx.adj].
      rewrite lookup_empty. cbn [from_option id]. rewrite lookup_empty.
      split; [done|]. intros [Hin _]. by apply not_elem_of_nil in Hin.
    + intros n. unfold filtered. cbn [foldl nx.empty nx.adj]. rewrite lookup_empty.
      split; [by intros [? ?]|]. intros (u & v & data & Hin & _).
      by apply not_elem_of_nil in Hin.
  - rewrite fmap_app in Hnodup. apply NoDup_app in Hnodup as (Hnodup & Hfresh & _).
    specialize (IH Hnodup). cbv zeta in IH. destruct IH as [IHedges IHnodes].
    unfold filtered. rewrite foldl_snoc. cbn [fst snd].
    match goal with
    | |- context [if _ then add_edge_data ?G _ _ _ else _] => set (before := G) in *
    end.
    assert (nx.adjacency before u0 !! v0 = None) as Hnew.
    { destruct (nx.adjacency before u0 !! v0) as [d|] eqn:Hold; [|done].
      apply IHedges in Hold as [Hin _]. exfalso.
      apply (Hfresh (u0, v0)); [|apply list_elem_of_here].
      by apply (list_elem_of_fmap_2 fst) in Hin. }
    destruct (main_connection d0) eqn:Hmain.
    + split.
      * intros u v data. rewrite adjacency_add_edge_data, Hnew. cbn [from_option id].
        rewrite (right_id_L ∅ (∪)). rewrite elem_of_app, list_elem_of_singleton.
        case_decide as Hkey.
        -- destruct Hkey as [-> ->]. split.
           ++ intros [= <-]. split; [by right | done].
           ++ intros [[Hin | [= <-]] _]; [|done]. exfalso.
              apply (Hfresh (u0, v0)); [|apply list_elem_of_here].
              by apply (list_elem_of_fmap_2 fst) in Hin.
        -- rewrite IHedges. split.
           ++ intros [Hin ?]. split; [by left | done].
           ++ intros [[Hin | [= -> -> ->]] ?]; [done|]. exfalso. by apply Hkey.
      * intros n. rewrite is_Some_add_edge_data, IHnodes. split.
        -- intros [-> | [-> | (u & v & data & Hin & Hd & Hn)]].
           ++ exists u0, v0, d0. rewrite elem_of_app, list_elem_of_singleton. auto.
           ++ exists u0, v0, d0. rewrite elem_of_app, list_elem_of_singleton. auto.
           ++ exists u, v, data. rewrite elem_of_app. auto.
        -- intros (u & v & data & Hin & Hd & Hn).
           apply elem_of_app in Hin as [Hin | Hin].
           ++ right. right. by exists u, v, data.
           ++ apply list_elem_of_singleton in Hin as [= -> -> ->].
              destruct Hn as [-> | ->]; auto.
    + split.
      * intros u v data. rewrite IHedges, elem_of_app, list_elem_of_singleton. split.
        -- intros [Hin ?]. split; [by left | done].
        -- intros [[Hin | [= -> -> ->]] Hd]; [done | congruence].
      * intros n. rewrite IHnodes. split.
        -- intros (u & v & data & Hin & Hd & Hn). exists u, v, data.
           rewrite elem_of_app. auto.
        -- intros (u & v & data & Hin & Hd & Hn). exists u, v, data.
           apply elem_of_app in Hin as [Hin | Hin]; [done|].
           apply list_elem_of_singleton in Hin as [= -> -> ->]. congruence.
Qed.

(** X26: the graph of the main connections. Its edges are exactly the
    edges of the graph whose weight (0 when there is none) is at least 5,
    with their attributes unchanged, and its nodes are exactly the ends of
    these edges; every other node is dropped. *)
Theorem G_filtered_spec (G : nx.DiGraph) :
  (forall u v data,
     nx.adjacency (G_filtered G) u !! v = Some data <->
     nx.adjacency G u !! v = Some data /\ (5 <= default 0 (data !! "weight"))%Z) /\
  (forall n,
     nx.has_node (G_filtered G) n = true <->
     exists u v data,
       nx.adjacency G u !! v = Some data /\ (5 <= default 0 (data !! "weight"))%Z /\
       (n = u \/ n = v)).
Proof.
  destruct (filter_loop (edges G) (NoDup_edges G)) as [Hedges Hnodes].
  fold (G_filtered G) in Hedges, Hnodes. split.
  - intros u v data. rewrite Hedges, elem_of_edges.
    unfold main_connection. by rewrite Z.leb_le.
  - intros n. unfold nx.has_node. rewrite bool_decide_eq_true, Hnodes.
    split; intros (u & v & data & Hin & Hd & Hn); exists u, v, data.
    + apply elem_of_edges in Hin. unfold main_connection in Hd.
      apply Z.leb_le in Hd. done.
    + split; [by apply elem_of_edges|]. split; [|done].
      unfold main_connection. by apply Z.leb_le.
Qed.

End FilterFacts.

(** ** The [Interaction_Types] column *)

Section TypesColumnFacts.
Import Py Extraction TypesColumn.

Lemma not_elem_of_clean (sep : char) (p : str) :
  sep ∉ p -> Forall (fun c => c ∉ [sep]) p.
Proof.
  intros Hsep. apply Forall_forall. intros c Hc ->%list_elem_of_singleton. done.
Qed.

(** Splitting at a separator undoes joining by it, when no piece holds
    the separator. *)
Lemma split_join (sep : char) (cur p : str) (ps : list str) :
  Forall (fun piece => sep ∉ piece) (p :: ps) ->
  re_split_class [sep] cur (join [sep] (p :: ps)) = (cur ++ p) :: ps.
Proof.
  revert cur p. induction ps as [|q ps IH]; intros cur p Hclean.
  - apply Forall_cons in Hclean as [Hp _]. cbn [join].
    rewrite <- (app_nil_r p) at 1.
    by rewrite re_split_class_clean by by apply not_elem_of_clean.
  - apply Forall_cons in Hclean as [Hp Hclean]. rewrite join_cons by done.
    rewrite re_split_class_clean by by apply not_elem_of_clean.
    change ([sep] ++ join [sep] (q :: ps)) with (sep :: join [sep] (q :: ps)).
    cbn [re_split_class]. rewrite bool_decide_eq_true_2 by apply list_elem_of_here.
    by rewrite IH.
Qed.

Lemma split_join_pieces (sep : char) (pieces : list str) :
  pieces <> [] ->
  Forall (fun piece => sep ∉ piece) pieces ->
  split sep (join [sep] pieces) = pieces.
Proof. destruct pieces as [|p ps]; [done|]. intros _. apply (split_join sep []). Qed.

Lemma split_single (sep : char) (p : str) :
  sep ∉ p -> split sep p = [p].
Proof. intros Hp. apply (split_join_pieces sep [p]); [done|]. by repeat constructor. Qed.

Lemma string_of_uint_digits (d : Decimal.uint) :
  Forall is_digit (N_of_ascii <$> list_ascii_of_string (NilEmpty.string_of_uint d)).
Proof.
  induction d as [|d IH|d IH|d IH|d IH|d IH|d IH|d IH|d IH|d IH|d IH];
    cbn [NilEmpty.string_of_uint list_ascii_of_string fmap list_fmap];
    constructor; try exact IH.
  all: vm_compute; split; discriminate.
Qed.

Lemma str_of_nat_digits (n : nat) : Forall is_digit (str_of_nat n).
Proof.
  unfold str_of_nat. generalize (Nat.to_uint n). intros d.
  destruct d; try apply (string_of_uint_digits (_ d)).
  apply Forall_cons. split; [vm_compute; split; discriminate | constructor].
Qed.

Lemma digit_not_separator (digits : str) (sep : char) :
  Forall is_digit digits -> ~ is_digit sep -> sep ∉ digits.
Proof.
  intros Hdigits Hsep Hin. rewrite Forall_forall in Hdigits. by apply Hsep, Hdigits.
Qed.

Lemma type_name_clean (t : InteractionType) :
  (left_paren ∉ type_name t) /\ (right_paren ∉ type_name t) /\ (comma ∉ type_name t).
Proof.
  destruct t; repeat split; apply (bool_decide_unpack _); vm_compute; reflexivity.
Qed.

Lemma type_name_inj (t1 t2 : InteractionType) :
  type_name t1 = type_name t2 -> t1 = t2.
Proof. destruct t1, t2; vm_compute; congruence. Qed.

Section Reading.
Variable int : str -> builtin_exn + Z.
Hypothesis int_str : forall n, int (str_of_nat n) = inr (Z.of_nat n).

(** A piece written for a name without [(] is read back as the name and
    the count. *)
Lemma parse_type_info_written (k : str) (v : nat) :
  left_paren ∉ k ->
  parse_type_info int (type_info k v) = inr (Some (k, Z.of_nat v)).
Proof.
  intros Hk. unfold parse_type_info, type_info.
  pose proof (str_of_nat_digits v) as Hdigits.
  assert (left_paren ∉ str_of_nat v ++ u ")") as Hrest.
  { rewrite not_elem_of_app. split.
    - apply digit_not_separator; [done | unfold is_digit, left_paren, right_paren; lia].
    - apply (bool_decide_unpack _). vm_compute. reflexivity. }
  rewrite bool_decide_eq_true_2.
  2:{ rewrite !elem_of_app. right. left. apply list_elem_of_here. }
  unfold split at 1. rewrite re_split_class_clean by by apply not_elem_of_clean.
  change (u "(" ++ str_of_nat v ++ u ")")
    with (left_paren :: (str_of_nat v ++ u ")")).
  cbn [re_split_class]. rewrite bool_decide_eq_true_2 by apply list_elem_of_here.
  fold (split left_paren (str_of_nat v ++ u ")")).
  rewrite (split_single _ _ Hrest).
  unfold split. rewrite re_split_class_clean.
  2:{ apply not_elem_of_clean, digit_not_separator; [done | unfold is_digit, left_paren, right_paren; lia]. }
  change (u ")") with [right_paren]. cbn [re_split_class].
  rewrite bool_decide_eq_true_2 by apply list_elem_of_here.
  cbn [app]. by rewrite int_str.
Qed.

Lemma type_info_clean (k : str) (v : nat) :
  comma ∉ k -> comma ∉ type_info k v.
Proof.
  intros Hk. unfold type_info. rewrite !not_elem_of_app. split; [done|].
  split; [by apply (bool_decide_unpack _)|]. split.
  - apply digit_not_separator; [apply str_of_nat_digits | unfold is_digit, comma; lia].
  - by apply (bool_decide_unpack _).
Qed.

(** The column written for the items of a dict is read back as that
    dict. *)
Lemma parse_types_written (items : list (str * nat)) :
  Forall (fun item => (left_paren ∉ item.1) /\ (comma ∉ item.1)) items ->
  parse_types int (Interaction_Types items) =
  inr (foldl (fun d item => Charts.dict_set item.1 (Z.of_nat item.2) d) [] items).
Proof.
  intros Hclean. unfold parse_types, Interaction_Types.
  destruct (decide (items = [])) as [-> | Hitems]; [done|].
  change (u "、") with [comma]. rewrite split_join_pieces.
  - generalize (@nil (str * Z)). clear Hitems.
    induction items as [|[k v] items IH]; intros acc; [done|].
    apply Forall_cons in Hclean as [[Hk _] Hclean].
    rewrite fmap_cons. cbn [foldl fst snd].
    rewrite parse_type_info_written by done. by apply IH.
  - by destruct items.
  - apply Forall_fmap. eapply Forall_impl; [exact Hclean|].
    intros [k v] [_ Hk]. by apply type_info_clean.
Qed.

End Reading.

Lemma dict_set_fresh {V} (k : str) (v : V) (d : list (str * V)) :
  k ∉ d.*1 -> Charts.dict_set k v d = d ++ [(k, v)].
Proof.
  induction d as [|[k0 v0] d IH]; intros Hk; [done|].
  rewrite fmap_cons, not_elem_of_cons in Hk. destruct Hk as [Hne Hk].
  cbn [Charts.dict_set]. rewrite decide_False by done. by rewrite IH.
Qed.

Lemma dict_set_NoDup {V} (k : str) (v : V) (d : list (str * V)) :
  NoDup d.*1 -> NoDup (Charts.dict_set k v d).*1.
Proof.
  intros Hd. rewrite dict_set_keys. case_decide; [done|].
  apply NoDup_app. split; [done|]. split; [|apply NoDup_singleton].
  by intros x Hx ->%list_elem_of_singleton.
Qed.

Lemma dict_get_None {V} (k : str) (d : list (str * V)) :
  k ∉ d.*1 -> Charts.dict_get k d = None.
Proof.
  induction d as [|[k0 v0] d IH]; intros Hk; [done|].
  rewrite fmap_cons, not_elem_of_cons in Hk. destruct Hk as [Hne Hk].
  cbn [Charts.dict_get]. rewrite decide_False by done. by apply IH.
Qed.

Lemma dict_get_foldl_set (items : list (str * Z)) (k : str) (z : Z) :
  NoDup items.*1 ->
  Charts.dict_get k (foldl (fun d item => Charts.dict_set item.1 item.2 d) [] items)
    = Some z <->
  (k, z) ∈ items.
Proof.
  induction items as [|[k0 z0] items IH] using rev_ind; intros Hnodup.
  - cbn [foldl Charts.dict_get]. split; [done|]. by intros ?%not_elem_of_nil.
  - rewrite fmap_app in Hnodup. apply NoDup_app in Hnodup as (Hnodup & Hfresh & _).
    rewrite foldl_snoc, dict_get_set, elem_of_app, list_elem_of_singleton. cbn [fst snd].
    destruct (decide (k = k0)) as [->|Hne].
    + split; [intros [= ->]; by right|]. intros [Hin | [= ->]]; [|done].
      exfalso. apply (Hfresh k0); [|apply list_elem_of_here].
      by apply (list_elem_of_fmap_2 fst) in Hin.
    + rewrite IH by done. split; [by left|]. intros [Hin | [= -> ->]]; done.
Qed.

Lemma foldl_dict_set_NoDup (items : list (str * Z)) :
  NoDup (foldl (fun d item => Charts.dict_set item.1 item.2 d) [] items).*1.
Proof.
  induction items as [|item items IH] using rev_ind; [constructor|].
  rewrite foldl_snoc. by apply dict_set_NoDup.
Qed.

(** The dict that the column written for a histogram is read back as. *)
Lemma histogram_read_back (types : gmap InteractionType nat)
    (items : list (InteractionType * nat)) :
  items ≡ₚ map_to_list types ->
  let type_count :=
    foldl (fun d item => Charts.dict_set item.1 item.2 d) []
          ((fun item : InteractionType * nat => (type_name item.1, Z.of_nat item.2))
             <$> items) in
  (forall t, Charts.dict_get (type_name t) type_count = Z.of_nat <$> types !! t) /\
  (forall name, name ∈ type_count.*1 -> exists t, name = type_name t).
Proof.
  intros Hitems.
  set (named := (fun item : InteractionType * nat =>
                   (type_name item.1, Z.of_nat item.2)) <$> items).
  intros type_count.
  assert (NoDup named.*1) as Hnodup.
  { unfold named. rewrite <- list_fmap_compose.
    rewrite (list_fmap_ext _ (type_name ∘ fst) items) by done.
    rewrite list_fmap_compose. apply NoDup_fmap_2; [intros ? ?; apply type_name_inj|].
    rewrite Hitems. apply NoDup_fst_map_to_list. }
  assert (forall name z, (name, z) ∈ named <->
            exists t n, name = type_name t /\ z = Z.of_nat n /\ types !! t = Some n)
    as Hnamed.
  { intros name z. unfold named. rewrite list_elem_of_fmap. split.
    - intros ([t n] & [= -> ->] & Hin). exists t, n. split; [done|]. split; [done|].
      rewrite Hitems in Hin. by apply elem_of_map_to_list in Hin.
    - intros (t & n & -> & -> & Hlookup). exists (t, n). split; [done|].
      rewrite Hitems. by apply elem_of_map_to_list. }
  split.
  - intros t.
    destruct (types !! t) as [n|] eqn:Hlookup; cbn [fmap option_fmap option_map].
    + apply dict_get_foldl_set; [done|]. apply Hnamed. by exists t, n.
    + destruct (Charts.dict_get (type_name t) type_count) as [z|] eqn:Hget; [|done].
      apply dict_get_foldl_set in Hget; [|done].
      apply Hnamed in Hget as (t' & n & Heq & _ & Hlookup').
      apply type_name_inj in Heq as ->. congruence.
  - intros name Hname.
    apply dict_get_is_Some in Hname as [z Hget].
    apply dict_get_foldl_set in Hget; [|done].
    apply Hnamed in Hget as (t & _ & -> & _). by exists t.
Qed.

Lemma parse_histogram (int : str -> builtin_exn + Z)
    (items : list (InteractionType * nat)) :
  (forall n, int (str_of_nat n) = inr (Z.of_nat n)) ->
  parse_types int
    (Interaction_Types ((fun item => (type_name item.1, item.2)) <$> items)) =
  inr (foldl (fun d item => Charts.dict_set item.1 item.2 d) []
         ((fun item : InteractionType * nat => (type_name item.1, Z.of_nat item.2))
            <$> items)).
Proof.
  intros Hint. rewrite (parse_types_written int Hint).
  - by rewrite !foldl_fmap.
  - apply Forall_fmap, Forall_forall. intros [t n] _. cbn [fst].
    destruct (type_name_clean t) as (? & _ & ?). done.
Qed.

(** X27: the column of interaction types is read back without loss. For
    an [int] that reads the decimal digits of a count as the count,
    parsing the column written for a histogram, whatever the order of its
    items, returns a dict that gives every type name the count of the
    histogram and has no other key. *)
Theorem interaction_types_round_trip
    (int : str -> builtin_exn + Z) (types : gmap InteractionType nat)
    (items : list (InteractionType * nat)) :
  (forall n, int (str_of_nat n) = inr (Z.of_nat n)) ->
  items ≡ₚ map_to_list types ->
  exists type_count,
    parse_types int
      (Interaction_Types ((fun item => (type_name item.1, item.2)) <$> items))
      = inr type_count /\
    (forall t, Charts.dict_get (type_name t) type_count = Z.of_nat <$> types !! t) /\
    (forall name, name ∈ type_count.*1 -> exists t, name = type_name t).
Proof.
  intros Hint Hitems.
  destruct (histogram_read_back types items Hitems) as [Hget Hkeys].
  eexists. split; [by apply parse_histogram|]. split; [exact Hget | exact Hkeys].
Qed.

End TypesColumnFacts.

(** ** The totals per interaction type *)

Section TypeTotalsFacts.
Import Py Extraction TypesColumn TypeTotals.

(** The counts of one character, which is a dict, are added key by key to
    the totals; a key that the totals do not have is ignored. *)
Lemma add_types_get (types totals : list (str * Z)) (k : str) :
  NoDup types.*1 ->
  Charts.dict_get k (add_types totals types) =
  (fun total => (total + default 0 (Charts.dict_get k types))%Z)
    <$> Charts.dict_get k totals.
Proof.
  unfold add_types. revert totals.
  induction types as [|[k0 c0] types IH]; intros totals Hnodup.
  - cbn [foldl Charts.dict_get]. destruct (Charts.dict_get k totals); simpl; [|done].
    f_equal. lia.
  - rewrite fmap_cons in Hnodup. apply NoDup_cons in Hnodup as [Hk0 Hnodup].
    cbn [foldl fst snd Charts.dict_get]. rewrite IH by done.
    destruct (decide (k = k0)) as [->|Hne].
    + rewrite (dict_get_None k0 types Hk0).
      destruct (Charts.dict_get k0 totals) as [total|] eqn:Htotal.
      * rewrite dict_get_set, decide_True by done. simpl. f_equal. lia.
      * by rewrite Htotal.
    + destruct (Charts.dict_get k0 totals) as [total|] eqn:Htotal; [|done].
      by rewrite dict_get_set, decide_False.
Qed.

Lemma add_types_keys (types totals : list (str * Z)) :
  (add_types totals types).*1 = totals.*1.
Proof.
  unfold add_types. revert totals.
  induction types as [|[k0 c0] types IH]; intros totals; [done|].
  cbn [foldl fst snd]. rewrite IH.
  destruct (Charts.dict_get k0 totals) as [total|] eqn:Htotal; [|done].
  rewrite dict_set_keys, decide_True; [done|].
  apply dict_get_is_Some. by rewrite Htotal.
Qed.

Lemma totals_get (d : list (str * list (str * Z))) (totals : list (str * Z)) (k : str) :
  Forall (fun item => NoDup item.2.*1) d ->
  Charts.dict_get k (foldl (fun totals item => add_types totals item.2) totals d) =
  (fun total =>
     (total + sum ((fun item => default 0 (Charts.dict_get k item.2)) <$> d))%Z)
    <$> Charts.dict_get k totals.
Proof.
  revert totals. induction d as [|[target types] d IH]; intros totals Hd.
  - cbn [foldl fmap list_fmap sum foldr].
    destruct (Charts.dict_get k totals); simpl; [|done]. f_equal. lia.
  - apply Forall_cons in Hd as [Htypes Hd]. cbn [foldl snd]. rewrite IH by done.
    rewrite add_types_get by done. rewrite fmap_cons.
    destruct (Charts.dict_get k totals); simpl; [|done]. f_equal.
    unfold sum. cbn [foldr]. lia.
Qed.

Lemma totals_keys (d : list (str * list (str * Z))) (totals : list (str * Z)) :
  (foldl (fun totals item => add_types totals item.2) totals d).*1 = totals.*1.
Proof.
  revert totals. induction d as [|item d IH]; intros totals; [done|].
  cbn [foldl]. by rewrite IH, add_types_keys.
Qed.

(** The counts of a type add up, over the keys, to the number of events
    of that type. *)
Lemma type_counts_add_up (all_interactions : list Interaction) (t : InteractionType) :
  map_fold (fun _ entry acc => (Z.of_nat (default 0%nat (types entry !! t)) + acc)%Z) 0%Z
           (interaction_dict all_interactions) =
  Z.of_nat (length (filter (fun e => type e = t) all_interactions)).
Proof.
  unfold interaction_dict.
  induction all_interactions as [|e events IH] using rev_ind.
  - cbn [foldl]. by rewrite map_fold_empty.
  - rewrite foldl_snoc, filter_app, length_app, filter_cons, filter_nil.
    set (d := foldl record_interaction ∅ events) in *.
    unfold record_interaction.
    pose proof (map_fold_Zadd_insert
                  (fun entry => Z.of_nat (default 0%nat (types entry !! t))) d (key_of e)
                  (update_entry (default new_entry (d !! key_of e)) e)) as Hsum.
    cbv beta in Hsum. cbn [update_entry types] in Hsum.
    assert (forall h : gmap InteractionType nat,
              default 0 (<[ type e := default 0 (h !! type e) + 1 ]> h !! t) =
              default 0 (h !! t) + (if decide (type e = t) then 1 else 0)) as Hstep.
    { intros h. destruct (decide (type e = t)) as [->|Hne].
      - by rewrite lookup_insert_eq.
      - rewrite lookup_insert_ne by done. lia. }
    rewrite Hstep in Hsum.
    destruct (d !! key_of e) as [entry|]; cbn [from_option id] in Hsum |- *;
      destruct (decide (type e = t)); cbn [length new_entry types] in Hsum |- *;
      rewrite ?lookup_empty in Hsum; cbn [from_option id] in Hsum; lia.
Qed.

(** With one source, the keys of the dict have pairwise different
    targets. *)
Lemma targets_NoDup (all_interactions : list Interaction) (focal : str) :
  Forall (fun e => source e = focal) all_interactions ->
  NoDup ((fun entry => entry.1.2) <$> map_to_list (interaction_dict all_interactions)).
Proof.
  intros Hsource.
  replace ((fun entry : str * str * AggData => entry.1.2)
             <$> map_to_list (interaction_dict all_interactions))
    with ((map_to_list (interaction_dict all_interactions)).*1.*2)
    by (by rewrite <- list_fmap_compose).
  apply NoDup_fmap_2_strong.
  - assert (forall key, key ∈ (map_to_list (interaction_dict all_interactions)).*1 ->
                        key.1 = focal) as Hkey.
    { intros key ([key' entry] & -> & Hin)%list_elem_of_fmap.
      apply elem_of_map_to_list in Hin. cbn [fst].
      pose proof (interaction_dict_lookup all_interactions key') as Hlookup.
      rewrite Hin in Hlookup. destruct Hlookup as [Hevents _].
      destruct (events_of key' all_interactions) as [|e evs] eqn:Hevs; [done|].
      assert (e ∈ events_of key' all_interactions) as He
        by (rewrite Hevs; apply list_elem_of_here).
      apply list_elem_of_filter in He as [<- He].
      rewrite Forall_forall in Hsource. by apply Hsource. }
    intros [s1 t1] [s2 t2] H1 H2 Heq. apply Hkey in H1, H2. cbn [fst snd] in *.
    congruence.
  - apply NoDup_fst_map_to_list.
Qed.

Section Totals.
Variable int : str -> builtin_exn + Z.
Hypothesis int_str : forall n, int (str_of_nat n) = inr (Z.of_nat n).

(** Reading the rows written for entries with pairwise different targets
    gives one dict per entry, in the order of the rows. *)
Lemma interaction_types_rows (rows : list Row) (entries : list (str * str * AggData))
    (acc : list (str * list (str * Z))) :
  Forall2 (fun row entry =>
             exists items,
               items ≡ₚ map_to_list (types entry.2) /\ row = row_of entry.1 items)
          rows entries ->
  NoDup (acc.*1 ++ ((fun entry => entry.1.2) <$> entries)) ->
  exists d,
    foldl (fun acc row =>
             match acc with
             | inl e => inl e
             | inr d =>
                 match parse_types int (Interaction_Types row) with
                 | inl e => inl e
                 | inr type_count => inr (Charts.dict_set (Target row) type_count d)
                 end
             end) (inr acc) rows = inr (acc ++ d) /\
    Forall2 (fun item entry =>
               NoDup item.2.*1 /\
               forall t, Charts.dict_get (type_name t) item.2 =
                         Z.of_nat <$> types entry.2 !! t)
            d entries.
Proof.
  intros Hrows. revert acc.
  induction Hrows as [|row entry rows entries (items & Hitems & ->) _ IH];
    intros acc Hnodup.
  - exists []. split; [by rewrite app_nil_r | constructor].
  - rewrite fmap_cons in Hnodup. cbn [foldl row_of Interaction_Types Target].
    rewrite (parse_histogram int items int_str).
    rewrite dict_set_fresh.
    2:{ apply NoDup_app in Hnodup as (_ & Hfresh & _). intros Hin.
        apply (Hfresh _ Hin). apply list_elem_of_here. }
    match goal with
    | |- context [inr (acc ++ [(?k, ?tc)])] => set (key := k); set (type_count := tc)
    end.
    destruct (IH (acc ++ [(key, type_count)])) as (d & Hfold & Hd).
    { rewrite fmap_app, <- app_assoc. exact Hnodup. }
    exists ((key, type_count) :: d). split.
    + rewrite Hfold. by rewrite <- app_assoc.
    + constructor; [|exact Hd]. cbn [snd]. split.
      * apply foldl_dict_set_NoDup.
      * apply (histogram_read_back (types entry.2) items Hitems).
Qed.

End Totals.

Lemma initial_totals_get (t : InteractionType) :
  Charts.dict_get (type_name t) initial_totals = Some 0%Z.
Proof. destruct t; apply (bool_decide_unpack _); vm_compute; reflexivity. Qed.

(** X28: the shares of the second panel. When all events have the same
    source, as the events of the extractor have, the totals computed from
    any table written for the event stream hold, for each of the three
    types and in the order dialogue, action, co-occurrence, the number of
    events of that type. *)
Theorem type_totals_count_events
    (int : str -> builtin_exn + Z) (all_interactions : list Interaction)
    (rows : list Row) (focal : str) :
  (forall n, int (str_of_nat n) = inr (Z.of_nat n)) ->
  Forall (fun e => source e = focal) all_interactions ->
  table_of (interaction_dict all_interactions) rows ->
  exists totals,
    type_totals int rows = inr totals /\
    totals.*1 = type_name <$> [Dialogue; Action; CoOccurrence] /\
    forall t,
      Charts.dict_get (type_name t) totals =
      Some (Z.of_nat (length (filter (fun e => type e = t) all_interactions))).
Proof.
  intros Hint Hsource (entries & Hperm & Hrows).
  destruct (interaction_types_rows int Hint rows entries [] Hrows) as (d & Hd & Hread).
  { cbn [fmap list_fmap app]. rewrite Hperm. by eapply targets_NoDup. }
  unfold type_totals, interaction_types. rewrite Hd, app_nil_l.
  eexists. split; [reflexivity|]. split; [by rewrite totals_keys|].
  intros t. rewrite totals_get.
  2:{ clear -Hread. induction Hread as [|item entry d entries [Hitem _] _ IH];
        by constructor. }
  rewrite initial_totals_get. cbn [fmap option_fmap option_map]. f_equal.
  rewrite Z.add_0_l, <- type_counts_add_up.
  rewrite <- (sum_map_to_list
                (fun entry => Z.of_nat (default 0%nat (types entry !! t)))).
  rewrite <- (sum_Permutation _ _ (fmap_Permutation _ _ _ Hperm)).
  clear -Hread. induction Hread as [|item entry d entries [_ Hitem] _ IH]; [done|].
  rewrite !fmap_cons. unfold sum in *. cbn [foldr]. rewrite IH, Hitem.
  by destruct (types entry.2 !! t).
Qed.

End TypeTotalsFacts.

(** ** The properties on sample runs *)

Section CasesFacts.
Import Py.

Lemma unmentioned_chapter_no_events_witness :
  Extraction.identify_interactions_advanced Cases.quiet_text
    Selection.BAOCHAI_VARIANTS Sample.character_dict 3 = [].
Proof.
  apply unmentioned_chapter_no_events. vm_compute. reflexivity.
Defined.

Lemma select_top_chapters_dominates_witness :
  Selection.mention_count (Cases.stat 3 4) <= Selection.mention_count (Cases.stat 4 7).
Proof.
  apply (select_top_chapters_dominates Cases.chapter_stats 2).
  - vm_compute. apply list_elem_of_further, list_elem_of_here.
  - vm_compute. apply list_elem_of_further, list_elem_of_here.
Defined.

Lemma one_event_per_character_witness :
  NoDup (Extraction.target <$>
           Extraction.sentence_interactions (Extraction.split_sentences Sample.text)
             Sample.target_variants Sample.character_dict 8 1 Sample.second_sentence) /\
  length (Extraction.sentence_interactions (Extraction.split_sentences Sample.text)
            Sample.target_variants Sample.character_dict 8 1 Sample.second_sentence)
    <= length Sample.character_dict.
Proof.
  apply one_event_per_character.
  apply (bool_decide_unpack _). vm_compute. reflexivity.
Defined.

Lemma substring_alias_flags_both_witness :
  Extraction.interaction_record (Extraction.split_sentences Cases.grandmother_text) 5 0
      Cases.grandmother_sentence (u "王夫人")
    ∈ Extraction.identify_interactions_advanced Cases.grandmother_text
        Selection.BAOCHAI_VARIANTS Preparation.build_character_dictionary 5.
Proof.
  apply (substring_alias_flags_both Cases.grandmother_text Selection.BAOCHAI_VARIANTS
           Preparation.build_character_dictionary 5 0 Cases.grandmother_sentence
           (u "王夫人") (map u ["王夫人"; "太太"; "二太太"]) (u "老太太") (u "太太")).
  - vm_compute. reflexivity.
  - vm_compute. reflexivity.
  - apply (bool_decide_unpack _). vm_compute. reflexivity.
  - vm_compute. discriminate.
  - apply (bool_decide_unpack _). vm_compute. reflexivity.
  - vm_compute. reflexivity.
  - vm_compute. reflexivity.
Defined.

Lemma context_holds_sentence_witness :
  Sample.second_sentence
    ∈ Extraction.context_sentences (Extraction.split_sentences Sample.text) 1 /\
  length (Extraction.context_sentences (Extraction.split_sentences Sample.text) 1) = 3.
Proof.
  destruct (context_holds_sentence (Extraction.split_sentences Sample.text) 1
              Sample.second_sentence) as (Hin & _ & Hthree & _).
  - vm_compute. reflexivity.
  - split; [exact Hin|]. apply Hthree; vm_compute; lia.
Defined.

Lemma context_is_span_of_text_witness :
  exists pre post,
    Pipeline.normalise Sample.text = pre ++ Extraction.context Cases.first_event ++ post.
Proof.
  apply (context_is_span_of_text Sample.text Sample.target_variants
           Sample.character_dict 8).
  vm_compute. apply list_elem_of_here.
Defined.

Lemma aggregation_order_insensitive_witness :
  match Extraction.interaction_dict Sample.all_interactions !! (Sample.baochai, Sample.baoyu),
        Extraction.interaction_dict (rev Sample.all_interactions)
          !! (Sample.baochai, Sample.baoyu) with
  | Some entry1, Some entry2 =>
      Extraction.count entry1 = Extraction.count entry2 /\
      Extraction.chapters entry1 = Extraction.chapters entry2 /\
      forall t, default 0 (Extraction.types entry1 !! t) =
                default 0 (Extraction.types entry2 !! t)
  | None, None => True
  | _, _ => False
  end.
Proof.
  apply aggregation_order_insensitive. apply Permutation_rev.
Defined.

Lemma graph_of_events_witness :
  exists G,
    Network.build_network
      (rev (Pipeline.table_rows (Extraction.interaction_dict Sample.all_interactions)))
      = Ok G /\
    nx.number_of_edges G = 2 /\
    nx.edge_weight G Sample.baochai Sample.baoyu = Ok 4%Z.
Proof.
  destruct (graph_of_events Sample.all_interactions
              (rev (Pipeline.table_rows (Extraction.interaction_dict Sample.all_interactions))))
    as (G & HG & Hedges & Hweight).
  - symmetry. apply Permutation_rev.
  - exists G. split; [exact HG|]. split.
    + rewrite Hedges. vm_compute. reflexivity.
    + rewrite Hweight. vm_compute. reflexivity.
Defined.

Lemma selection_maximises_mentions_witness :
  Selection.total_mentions [Cases.stat 1 4; Cases.stat 3 4] <=
  Selection.total_mentions (Selection.select_top_chapters Cases.chapter_stats 2).1.
Proof.
  apply selection_maximises_mentions.
  - apply sublist_submseteq. unfold Cases.chapter_stats.
    apply sublist_skip, sublist_cons, sublist_skip, sublist_cons, sublist_nil.
  - cbn [length]. lia.
Defined.

Lemma digits_value_str_of_nat (n : nat) :
  Cases.digits_value (TypesColumn.str_of_nat n) = inr (Z.of_nat n).
Proof.
  unfold Cases.digits_value, TypesColumn.str_of_nat.
  rewrite <- list_fmap_compose.
  rewrite (list_fmap_ext _ id (list_ascii_of_string _))
    by (intros; apply ascii_N_embedding).
  rewrite list_fmap_id, string_of_list_ascii_of_string.
  rewrite NilZero.usu; [by rewrite Unsigned.of_to|].
  intros Hnil. pose proof (Unsigned.of_to n) as Hn. rewrite Hnil in Hn.
  cbn in Hn. subst n. discriminate Hnil.
Qed.

Lemma interaction_types_round_trip_witness :
  exists type_count,
    TypesColumn.parse_types Cases.digits_value
      (TypesColumn.Interaction_Types
         ((fun item => (Extraction.type_name item.1, item.2)) <$> map_to_list Cases.types))
      = inr type_count /\
    Charts.dict_get (Extraction.type_name Extraction.Dialogue) type_count = Some 3%Z /\
    Charts.dict_get (Extraction.type_name Extraction.Action) type_count = Some 1%Z /\
    Charts.dict_get (Extraction.type_name Extraction.CoOccurrence) type_count = None.
Proof.
  destruct (interaction_types_round_trip Cases.digits_value Cases.types
              (map_to_list Cases.types) digits_value_str_of_nat)
    as (type_count & Hparse & Hget & _); [done|].
  exists type_count. split; [exact Hparse|].
  rewrite !Hget. vm_compute. done.
Defined.

Lemma type_totals_count_events_witness :
  exists totals,
    TypeTotals.type_totals Cases.digits_value Cases.typed_rows = inr totals /\
    Charts.dict_get (Extraction.type_name Extraction.Dialogue) totals = Some 2%Z /\
    Charts.dict_get (Extraction.type_name Extraction.Action) totals = Some 2%Z /\
    Charts.dict_get (Extraction.type_name Extraction.CoOccurrence) totals = Some 1%Z.
Proof.
  destruct (type_totals_count_events Cases.digits_value Sample.all_interactions
              Cases.typed_rows Sample.baochai digits_value_str_of_nat)
    as (totals & Htotals & _ & Hget).
  - apply (bool_decide_unpack _). vm_compute. reflexivity.
  - exists (map_to_list (Extraction.interaction_dict Sample.all_interactions)).
    split; [reflexivity|]. unfold Cases.typed_rows.
    apply Forall2_fmap_l, Forall_Forall2_diag, Forall_forall. intros entry _.
    exists (map_to_list (Extraction.types entry.2)). split; reflexivity.
  - exists totals. split; [exact Htotals|]. rewrite !Hget. vm_compute.
    repeat split; reflexivity.
Defined.

Example calculate_network_properties_two_batches :
  match Network.build_network Sample.two_batches with
  | Ok G =>
      match AdvancedAnalysis.calculate_network_properties
              (routines := Cases.constant_routines) G with
      | inr properties =>
          AdvancedAnalysis.num_nodes properties = 3 /\
          AdvancedAnalysis.num_edges properties = 2 /\
          AdvancedAnalysis.max_degree properties = 2 /\
          AdvancedAnalysis.min_degree properties = 1
      | inl _ => False
      end
  | Raise _ => False
  end.
Proof. vm_compute. repeat split; reflexivity. Qed.

End CasesFacts.
